(** * libEMF 1.0.13: stream codec, metafile records and device context

    A shallow embedding of [libemf/libemf.h]: the [DATASTREAM] byte codec,
    the [ENHMETAHEADER], [EMRPOLYPOLYGON], [EMRPOLYPOLYGON16] and
    [EMREXTTEXTOUTA] records, and the bookkeeping of
    [METAFILEDEVICECONTEXT] (handle table, record list, bounds); further
    the single-array point records ([EMRPOLYLINE] and its nine siblings),
    [EMREXTTEXTOUTW], [EMREOF] and [EMRSETMITERLIMIT]. *)

From Stdlib Require Import ZArith List Lia Bool SpecFloat.
From Stdlib Require Strings.Byte.
From stdpp Require Import base list.
Import ListNotations.

Local Open Scope Z_scope.

(** ** The target platform

    [bigEndian()] and the width of [size_t] are properties of the machine
    the library is compiled for; everything below is parametric in them. *)

Inductive size_t_width := SIZE_T_32 | SIZE_T_64.

Record platform := mkPlatform {
  bigEndian : bool;
  size_t : size_t_width
}.

Definition size_t_bits (pf : platform) : Z :=
  match size_t pf with SIZE_T_32 => 32 | SIZE_T_64 => 64 end.

Definition msvc_x64 : platform := {| bigEndian := false; size_t := SIZE_T_64 |}.

(** ** Machine integers *)

Definition wrap (bits : Z) (v : Z) : Z := v mod 2 ^ bits.

Definition signed (bits : Z) (u : Z) : Z :=
  if u <? 2 ^ (bits - 1) then u else u - 2 ^ bits.

(** [DWORD], [UINT]: unsigned 32 bits; [LONG], [INT]: signed 32 bits;
    [WORD], [WCHAR]: unsigned 16 bits; [INT16]: signed 16 bits. *)
Definition to_DWORD (v : Z) : Z := wrap 32 v.
Definition to_WORD (v : Z) : Z := wrap 16 v.
Definition to_LONG (v : Z) : Z := signed 32 (wrap 32 v).
Definition to_INT16 (v : Z) : Z := signed 16 (wrap 16 v).
(** Arithmetic carried out in [size_t]. *)
Definition to_size_t (pf : platform) (v : Z) : Z := wrap (size_t_bits pf) v.

Definition is_DWORD (v : Z) : Prop := 0 <= v < 2 ^ 32.
Definition is_WORD (v : Z) : Prop := 0 <= v < 2 ^ 16.
Definition is_LONG (v : Z) : Prop := - 2 ^ 31 <= v < 2 ^ 31.
Definition is_INT16 (v : Z) : Prop := - 2 ^ 15 <= v < 2 ^ 15.

(** [ROUND_TO_LONG]: round a byte count up to a multiple of four. *)
Definition ROUND_TO_LONG (n : Z) : Z := to_DWORD (to_DWORD (n + 3) / 4 * 4).

(** ** Bytes and object representations *)

Abbreviation byte := Byte.byte.

Definition byte_of_Z (z : Z) : byte :=
  match Byte.of_N (Z.to_N z) with
  | Some b => b
  | None => Byte.x00
  end.

Definition Z_of_byte (b : byte) : Z := Z.of_N (Byte.to_N b).

Fixpoint le_bytes (w : nat) (v : Z) : list byte :=
  match w with
  | O => []
  | S w' => byte_of_Z (v mod 256) :: le_bytes w' (v / 256)
  end.

Fixpoint le_value (bs : list byte) : Z :=
  match bs with
  | [] => 0
  | b :: bs' => Z_of_byte b + 256 * le_value bs'
  end.

(** The bytes of a [w]-byte integer object as they lie in memory
    (the source views it through an unsigned char pointer) and the value
    such bytes stand for. *)
Definition object_rep (pf : platform) (w : nat) (v : Z) : list byte :=
  if bigEndian pf then rev (le_bytes w v) else le_bytes w v.

Definition object_val (pf : platform) (p : list byte) : Z :=
  if bigEndian pf then le_value (rev p) else le_value p.

(** ** Errors

    Every failure in the source is a [std::runtime_error]; the constructor
    records the message. *)

Inductive error :=
| PrematureEOF              (* "Premature EOF on EMF stream" *)
| WriteError                (* "error writing EMF stream" *)
| InvalidRecordSize         (* "Invalid record size" *)
| UnsignedOverflow          (* "Unsigned overflow" *)
| TooFewPoints              (* "Too few points" *)
| InvalidTextSpecification  (* "Invalid text specification" *)
| InconsistentDescription.  (* "record size inconsistent with description size" *)

Inductive error_kind :=
| StreamError
| MalformedRecordError
| InvalidTextSpecificationError.

(** Modelled from the spec: the source has a single exception type; the
    classes of section 7 of the specification are assigned by message. *)
Definition kind_of (e : error) : error_kind :=
  match e with
  | PrematureEOF | WriteError => StreamError
  | InvalidRecordSize | UnsignedOverflow | TooFewPoints
  | InconsistentDescription => MalformedRecordError
  | InvalidTextSpecification => InvalidTextSpecificationError
  end.

Inductive result (A : Type) :=
| Ok (a : A)
| Err (e : error).
Arguments Ok {A} a.
Arguments Err {A} e.

(** ** The stream behind a [DATASTREAM]

    [unread] is what is left to read, [written] what has been written and
    [room] how many more bytes the device will take. *)

Record FILE := mkFILE {
  unread : list byte;
  written : list byte;
  room : nat
}.

Definition consume (n : nat) (fp : FILE) : FILE :=
  {| unread := drop n (unread fp); written := written fp; room := room fp |}.

Definition emit (bs : list byte) (fp : FILE) : FILE :=
  {| unread := unread fp; written := written fp ++ bs;
     room := (room fp - length bs)%nat |}.

Definition io (A : Type) : Type := FILE -> result (A * FILE).

Definition ret {A} (a : A) : io A := fun fp => Ok (a, fp).

Definition bind {A B} (m : io A) (k : A -> io B) : io B :=
  fun fp => match m fp with
            | Ok (a, fp') => k a fp'
            | Err e => Err e
            end.

Definition throw {A} (e : error) : io A := fun _ => Err e.

Notation "x <- m ;; k" := (bind m (fun x => k))
  (at level 62, m at next level, right associativity).
Notation "m ;;; k" := (bind m (fun _ => k))
  (at level 62, right associativity).

(** [DATASTREAM::fread] and [DATASTREAM::fwrite]: the wrappers throw as
    soon as fewer items than requested were transferred. *)
Definition fread (n : nat) : io (list byte) :=
  fun fp => if (length (unread fp) <? n)%nat then Err PrematureEOF
            else Ok (take n (unread fp), consume n fp).

Definition fwrite (bs : list byte) : io unit :=
  fun fp => if (room fp <? length bs)%nat then Err WriteError
            else Ok (tt, emit bs fp).

Definition fread1 : io byte :=
  p <- fread 1 ;; ret (nth 0 p Byte.x00).

(** ** Plain structures of the format

    Modelled from the spec: [windef.h] and [wingdi.h], which declare these
    structures, are not among the sources; the layouts are those of the
    fixed external format the specification refers to (32-bit fields
    unless noted, no padding under [pshpack4.h]). *)

Record RECTL := mkRECTL { left : Z; top : Z; right : Z; bottom : Z }.
Record SIZEL := mkSIZEL { cx : Z; cy : Z }.
(** [POINT], [POINTL] (32-bit coordinates) and [POINT16] (16-bit). *)
Record POINT := mkPOINT { x : Z; y : Z }.
Record EMR := mkEMR { iType : Z; nSize : Z }.
Record EMRTEXT := mkEMRTEXT {
  ptlReference : POINT;
  nChars : Z;
  offString : Z;
  fOptions : Z;
  rcl : RECTL;
  offDx : Z
}.

Definition is_RECTL (r : RECTL) : Prop :=
  is_LONG (left r) /\ is_LONG (top r) /\ is_LONG (right r) /\ is_LONG (bottom r).
Definition is_SIZEL (s : SIZEL) : Prop := is_LONG (cx s) /\ is_LONG (cy s).
Definition is_POINTL (p : POINT) : Prop := is_LONG (x p) /\ is_LONG (y p).
Definition is_POINT16 (p : POINT) : Prop := is_INT16 (x p) /\ is_INT16 (y p).

Section DATASTREAM.
Variable pf : platform.

(** [swap_( bigEndian() )] *)
Definition swap_ : bool := bigEndian pf.

(** 16-bit transfers: [operator<<( const WORD& )], [operator>>( WORD& )]
    and the [INT16] twins. *)
Definition write2 (v : Z) : io unit :=
  let p := object_rep pf 2 v in
  if swap_ then
    fwrite [nth 1 p Byte.x00] ;;; fwrite [nth 0 p Byte.x00]
  else fwrite p.

Definition read2 : io Z :=
  if swap_ then
    p1 <- fread1 ;; p0 <- fread1 ;; ret (object_val pf [p0; p1])
  else p <- fread 2 ;; ret (object_val pf p).

(** 32-bit transfers: [DWORD], [LONG], [INT], [UINT], [FLOAT]. *)
Definition write4 (v : Z) : io unit :=
  let p := object_rep pf 4 v in
  if swap_ then
    fwrite [nth 3 p Byte.x00] ;;; fwrite [nth 2 p Byte.x00] ;;;
    fwrite [nth 1 p Byte.x00] ;;; fwrite [nth 0 p Byte.x00]
  else fwrite p.

Definition read4 : io Z :=
  if swap_ then
    p3 <- fread1 ;; p2 <- fread1 ;; p1 <- fread1 ;; p0 <- fread1 ;;
    ret (object_val pf [p0; p1; p2; p3])
  else p <- fread 4 ;; ret (object_val pf p).

Definition write_BYTE (b : byte) : io unit := fwrite [b].
Definition read_BYTE : io byte := fread1.

Definition write_WORD : Z -> io unit := write2.
Definition read_WORD : io Z := read2.
Definition write_INT16 : Z -> io unit := write2.
Definition read_INT16 : io Z := v <- read2 ;; ret (signed 16 v).

Definition write_DWORD : Z -> io unit := write4.
Definition read_DWORD : io Z := read4.
Definition write_LONG : Z -> io unit := write4.
Definition read_LONG : io Z := v <- read4 ;; ret (signed 32 v).
Definition write_INT : Z -> io unit := write4.
Definition read_INT : io Z := v <- read4 ;; ret (signed 32 v).
Definition write_UINT : Z -> io unit := write4.
Definition read_UINT : io Z := read4.
(** A [FLOAT] travels as its 32-bit pattern. *)
Definition write_FLOAT : Z -> io unit := write4.
Definition read_FLOAT : io Z := read4.

(** [operator<<( const PADDING& )] *)
Definition write_PADDING (size_ : nat) : io unit :=
  if (size_ =? 0)%nat then ret tt else fwrite (replicate size_ Byte.x00).

(** The element-by-element loops of the array operators. *)
Fixpoint write_each {A} (wr : A -> io unit) (l : list A) : io unit :=
  match l with
  | [] => ret tt
  | x :: l' => wr x ;;; write_each wr l'
  end.

Fixpoint read_each {A} (rd : io A) (n : nat) : io (list A) :=
  match n with
  | O => ret []
  | S n' => x <- rd ;; l <- read_each rd n' ;; ret (x :: l)
  end.

(** Composite operators: an ordered sequence of primitive transfers. *)
Definition write_RECTL (rectl : RECTL) : io unit :=
  write_LONG (left rectl) ;;; write_LONG (top rectl) ;;;
  write_LONG (right rectl) ;;; write_LONG (bottom rectl).

Definition read_RECTL : io RECTL :=
  l <- read_LONG ;; t <- read_LONG ;; r <- read_LONG ;; b <- read_LONG ;;
  ret (mkRECTL l t r b).

Definition write_SIZEL (sizel : SIZEL) : io unit :=
  write_LONG (cx sizel) ;;; write_LONG (cy sizel).

Definition read_SIZEL : io SIZEL :=
  a <- read_LONG ;; b <- read_LONG ;; ret (mkSIZEL a b).

Definition write_EMR (emr : EMR) : io unit :=
  write_DWORD (iType emr) ;;; write_DWORD (nSize emr).

Definition read_EMR : io EMR :=
  t <- read_DWORD ;; n <- read_DWORD ;; ret (mkEMR t n).

Definition write_POINTL (pointl : POINT) : io unit :=
  write_LONG (x pointl) ;;; write_LONG (y pointl).

Definition read_POINTL : io POINT :=
  a <- read_LONG ;; b <- read_LONG ;; ret (mkPOINT a b).

Definition write_POINT16 (point : POINT) : io unit :=
  write_INT16 (x point) ;;; write_INT16 (y point).

Definition read_POINT16 : io POINT :=
  a <- read_INT16 ;; b <- read_INT16 ;; ret (mkPOINT a b).

Definition write_EMRTEXT (text : EMRTEXT) : io unit :=
  write_POINTL (ptlReference text) ;;; write_DWORD (nChars text) ;;;
  write_DWORD (offString text) ;;; write_DWORD (fOptions text) ;;;
  write_RECTL (rcl text) ;;; write_DWORD (offDx text).

Definition read_EMRTEXT : io EMRTEXT :=
  p <- read_POINTL ;; n <- read_DWORD ;; o <- read_DWORD ;;
  f <- read_DWORD ;; r <- read_RECTL ;; d <- read_DWORD ;;
  ret (mkEMRTEXT p n o f r d).

(** Arrays: [n_] (or [length_]) elements starting at the buffer.  A
    buffer is a list; every constructor allocates exactly the number of
    elements it later transfers. *)
Definition write_WCHARSTR (string_ : list Z) (length_ : nat) : io unit :=
  write_each write_WORD (take length_ string_).
Definition read_WCHARSTR (length_ : nat) : io (list Z) :=
  read_each read_WORD length_.

Definition write_CHARSTR (string_ : list byte) (length_ : nat) : io unit :=
  fwrite (take length_ string_).
Definition read_CHARSTR (length_ : nat) : io (list byte) :=
  fread length_.

Definition write_BYTEARRAY (array_ : list byte) (n_ : nat) : io unit :=
  fwrite (take n_ array_).
Definition read_BYTEARRAY (n_ : nat) : io (list byte) :=
  fread n_.

Definition write_POINTLARRAY (points_ : list POINT) (n_ : nat) : io unit :=
  write_each write_POINTL (take n_ points_).
Definition read_POINTLARRAY (n_ : nat) : io (list POINT) :=
  read_each read_POINTL n_.

Definition write_POINT16ARRAY (points_ : list POINT) (n_ : nat) : io unit :=
  write_each write_POINT16 (take n_ points_).
Definition read_POINT16ARRAY (n_ : nat) : io (list POINT) :=
  read_each read_POINT16 n_.

Definition write_INTARRAY (ints_ : list Z) (n_ : nat) : io unit :=
  write_each write_INT (take n_ ints_).
Definition read_INTARRAY (n_ : nat) : io (list Z) :=
  read_each read_INT n_.

Definition write_DWORDARRAY (dwords_ : list Z) (n_ : nat) : io unit :=
  write_each write_DWORD (take n_ dwords_).
Definition read_DWORDARRAY (n_ : nat) : io (list Z) :=
  read_each read_DWORD n_.
End DATASTREAM.

(** ** Constants *)

Definition XMAX_PIXELS : Z := 1024.
Definition YMAX_PIXELS : Z := 768.
Definition XMAX_MM : Z := 320.
Definition YMAX_MM : Z := 240.
Definition RESOLUTION : Z := 96.

(** Modelled from the spec: record tags, the signature and the structure
    sizes come from [wingdi.h], which is not among the sources; they are
    the values of the fixed external format. *)
Definition EMR_HEADER : Z := 1.
Definition EMR_POLYPOLYGON : Z := 8.
Definition EMR_EXTTEXTOUTA : Z := 83.
Definition EMR_POLYPOLYGON16 : Z := 91.
Definition ENHMETA_SIGNATURE : Z := 1179469088.

Definition sizeof_WCHAR : Z := 2.
Definition sizeof_DWORD : Z := 4.
Definition sizeof_INT : Z := 4.
Definition sizeof_POINTL : Z := 8.
Definition sizeof_POINT16 : Z := 4.
(** [sizeof( ::ENHMETAHEADER )]; [nHandles] and [sReserved] are 16-bit. *)
Definition sizeof_ENHMETAHEADER : Z := 108.
(** [OffsetOf( this, szlMicrometers )] *)
Definition OffsetOf_szlMicrometers : Z := 100.
(** The structures end in one-element arrays [aPolyCounts[1]], [aptl[1]]. *)
Definition sizeof_EMRPOLYPOLYGON : Z := 44.
Definition sizeof_EMRPOLYPOLYGON16 : Z := 40.
Definition sizeof_EMREXTTEXTOUTA : Z := 76.

(** ** [class ENHMETAHEADER] *)

Module ENHMETAHEADER.

Record t := mk {
  iType : Z;
  nSize : Z;
  rclBounds : RECTL;
  rclFrame : RECTL;
  dSignature : Z;
  nVersion : Z;
  nBytes : Z;
  nRecords : Z;
  nHandles : Z;             (* WORD *)
  sReserved : Z;            (* WORD *)
  nDescription : Z;
  offDescription : Z;
  nPalEntries : Z;
  szlDevice : SIZEL;
  szlMillimeters : SIZEL;
  cbPixelFormat : Z;
  offPixelFormat : Z;
  bOpenGL : Z;
  szlMicrometers : SIZEL;
  description_w : option (list Z);   (* [None] is the null pointer *)
  description_size : Z
}.

(** The counting loop of the constructor: it walks the caller's string
    until it has seen three NULs.  [nulls] is the number seen so far. *)
Fixpoint description_count (description : list Z) (nulls : nat) : Z :=
  match description with
  | [] => 0
  | c :: rest =>
      let nulls' := if c =? 0 then S nulls else nulls in
      if (nulls' <? 3)%nat then 1 + description_count rest nulls' else 1
  end.

Definition buffer_of (o : option (list Z)) : list Z :=
  match o with Some l => l | None => [] end.

Section Header.
Variable pf : platform.

(** [ENHMETAHEADER ( LPCWSTR description = 0 )] *)
Definition ENHMETAHEADER (description : option (list Z)) : t :=
  let h :=
    {| iType := EMR_HEADER;
       nSize := sizeof_ENHMETAHEADER;
       rclBounds := mkRECTL 0 0 0 0;
       rclFrame := mkRECTL 0 0 0 0;
       dSignature := ENHMETA_SIGNATURE;
       nVersion := 65536;
       nBytes := sizeof_ENHMETAHEADER;
       nRecords := 1;
       nHandles := 0;
       sReserved := 0;
       nDescription := 0;
       offDescription := 0;
       nPalEntries := 0;
       szlDevice := mkSIZEL XMAX_PIXELS YMAX_PIXELS;
       szlMillimeters := mkSIZEL XMAX_MM YMAX_MM;
       cbPixelFormat := 0;
       offPixelFormat := 0;
       bOpenGL := 0;
       szlMicrometers := mkSIZEL (to_LONG (1000 * XMAX_MM)) (to_LONG (1000 * YMAX_MM));
       description_w := None;
       description_size := 0 |} in
  match description with
  | None => h
  | Some s =>
      let count := description_count s 0 in
      let record_size :=
        to_LONG (ROUND_TO_LONG
                   (to_size_t pf (sizeof_ENHMETAHEADER + sizeof_WCHAR * count))) in
      let size :=
        to_LONG (to_size_t pf (record_size - sizeof_ENHMETAHEADER) / sizeof_WCHAR) in
      let buf :=
        take (Z.to_nat count) s ++ replicate (Z.to_nat size - Z.to_nat count) 0 in
      {| iType := iType h;
         nSize := to_DWORD record_size;
         rclBounds := rclBounds h;
         rclFrame := rclFrame h;
         dSignature := dSignature h;
         nVersion := nVersion h;
         nBytes := to_DWORD record_size;
         nRecords := nRecords h;
         nHandles := nHandles h;
         sReserved := sReserved h;
         nDescription := to_DWORD count;
         offDescription := sizeof_ENHMETAHEADER;
         nPalEntries := nPalEntries h;
         szlDevice := szlDevice h;
         szlMillimeters := szlMillimeters h;
         cbPixelFormat := cbPixelFormat h;
         offPixelFormat := offPixelFormat h;
         bOpenGL := bOpenGL h;
         szlMicrometers := szlMicrometers h;
         description_w := Some buf;
         description_size := size |}
  end.

(** [bool serialize ( DATASTREAM ds )] *)
Definition serialize (h : t) : io unit :=
  write_DWORD pf (iType h) ;;; write_DWORD pf (nSize h) ;;;
  write_RECTL pf (rclBounds h) ;;; write_RECTL pf (rclFrame h) ;;;
  write_DWORD pf (dSignature h) ;;; write_DWORD pf (nVersion h) ;;;
  write_DWORD pf (nBytes h) ;;; write_DWORD pf (nRecords h) ;;;
  write_WORD pf (nHandles h) ;;; write_WORD pf (sReserved h) ;;;
  write_DWORD pf (nDescription h) ;;; write_DWORD pf (offDescription h) ;;;
  write_DWORD pf (nPalEntries h) ;;;
  write_SIZEL pf (szlDevice h) ;;; write_SIZEL pf (szlMillimeters h) ;;;
  write_DWORD pf (cbPixelFormat h) ;;; write_DWORD pf (offPixelFormat h) ;;;
  write_DWORD pf (bOpenGL h) ;;;
  write_SIZEL pf (szlMicrometers h) ;;;
  write_WCHARSTR pf (buffer_of (description_w h)) (Z.to_nat (description_size h)).

(** The two assignments that terminate the description buffer. *)
Definition terminate (description_size : Z) (buffer : list Z) : list Z :=
  <[Z.to_nat (description_size - 2) := 0]>
    (<[Z.to_nat (description_size - 1) := 0]> buffer).

(** [bool unserialize ( DATASTREAM ds )]: the fields of [h] that are not
    read keep their value. *)
Definition unserialize (h : t) : io t :=
  iType' <- read_DWORD pf ;; nSize' <- read_DWORD pf ;;
  rclBounds' <- read_RECTL pf ;; rclFrame' <- read_RECTL pf ;;
  dSignature' <- read_DWORD pf ;; nVersion' <- read_DWORD pf ;;
  nBytes' <- read_DWORD pf ;; nRecords' <- read_DWORD pf ;;
  nHandles' <- read_WORD pf ;; sReserved' <- read_WORD pf ;;
  nDescription' <- read_DWORD pf ;; offDescription' <- read_DWORD pf ;;
  nPalEntries' <- read_DWORD pf ;;
  szlDevice' <- read_SIZEL pf ;; szlMillimeters' <- read_SIZEL pf ;;
  pixel <- (if OffsetOf_szlMicrometers <=? offDescription' then
              a <- read_DWORD pf ;; b <- read_DWORD pf ;; c <- read_DWORD pf ;;
              ret (a, b, c)
            else ret (cbPixelFormat h, offPixelFormat h, bOpenGL h)) ;;
  szlMicrometers' <- (if sizeof_ENHMETAHEADER <=? offDescription' then
                        read_SIZEL pf
                      else ret (szlMicrometers h)) ;;
  let description_size_to_read :=
    to_LONG (to_size_t pf (to_DWORD (nSize' - offDescription')) / sizeof_WCHAR) in
  if description_size_to_read <? to_LONG nDescription' then
    throw InconsistentDescription
  else
    let description_size' := Z.max 2 description_size_to_read in
    description <- read_WCHARSTR pf (Z.to_nat description_size_to_read) ;;
    let buffer :=
      description ++
      replicate (Z.to_nat description_size' - Z.to_nat description_size_to_read) 0 in
    ret {| iType := iType'; nSize := nSize';
           rclBounds := rclBounds'; rclFrame := rclFrame';
           dSignature := dSignature'; nVersion := nVersion';
           nBytes := nBytes'; nRecords := nRecords';
           nHandles := nHandles'; sReserved := sReserved';
           nDescription := nDescription'; offDescription := offDescription';
           nPalEntries := nPalEntries';
           szlDevice := szlDevice'; szlMillimeters := szlMillimeters';
           cbPixelFormat := fst (fst pixel); offPixelFormat := snd (fst pixel);
           bOpenGL := snd pixel;
           szlMicrometers := szlMicrometers';
           description_w := Some (terminate description_size' buffer);
           description_size := description_size' |}.
End Header.

(** [int size ( void ) const { return nSize; }] *)
Definition size (h : t) : Z := to_LONG (nSize h).

End ENHMETAHEADER.

(** ** [class EMRPOLYPOLYGON] and [class EMRPOLYPOLYGON16]

    The two classes are the same text up to the point type; [kind] selects
    between them. *)

Module EMRPOLYPOLYGON.

Inductive kind := Points32 | Points16.

Definition tag (k : kind) : Z :=
  match k with Points32 => EMR_POLYPOLYGON | Points16 => EMR_POLYPOLYGON16 end.
Definition sizeof_struct (k : kind) : Z :=
  match k with Points32 => sizeof_EMRPOLYPOLYGON | Points16 => sizeof_EMRPOLYPOLYGON16 end.
Definition sizeof_point (k : kind) : Z :=
  match k with Points32 => sizeof_POINTL | Points16 => sizeof_POINT16 end.
(** Storing a caller's [POINT] into the record's point array. *)
Definition store_point (k : kind) (p : POINT) : POINT :=
  match k with
  | Points32 => p
  | Points16 => mkPOINT (to_INT16 (x p)) (to_INT16 (y p))
  end.

Record t := mk {
  emr : EMR;
  rclBounds : RECTL;
  nPolys : Z;
  cptl : Z;                 (* [cpts] in the 16-bit class *)
  lcounts : list Z;
  lpoints : list POINT
}.

(** [int n = 0; for (...) n += counts[i];] *)
Definition count_points (counts : list Z) : Z :=
  fold_left (fun n c => to_LONG (n + c)) counts 0.

(** The overflow-checked accumulation of the stream constructor. *)
Fixpoint add_counts (cbuffer : list Z) (n : Z) : option Z :=
  match cbuffer with
  | [] => Some n
  | c :: rest =>
      let n' := to_DWORD (n + c) in
      if n' <? n then None else add_counts rest n'
  end.

Section PolyPolygon.
Variable pf : platform.
Variable k : kind.

(** [EMRPOLYPOLYGON ( const RECTL* bounds, const POINT* points,
    const INT* counts, UINT polygons )] *)
Definition EMRPOLYPOLYGON (bounds : RECTL) (points : list POINT)
    (counts : list Z) (polygons : Z) : t :=
  let nPolys' := polygons in
  let n := count_points (take (Z.to_nat nPolys') counts) in
  let cptl' := to_DWORD n in
  {| emr := mkEMR (tag k)
              (to_DWORD (to_size_t pf
                 (sizeof_struct k + sizeof_point k * to_DWORD (cptl' - 1)
                  + sizeof_DWORD * to_DWORD (nPolys' - 1))));
     rclBounds := bounds;
     nPolys := nPolys';
     cptl := cptl';
     lcounts := map to_DWORD (take (Z.to_nat nPolys') counts);
     lpoints := map (store_point k) (take (Z.to_nat n) points) |}.

Definition write_points (points_ : list POINT) (n_ : nat) : io unit :=
  match k with
  | Points32 => write_POINTLARRAY pf points_ n_
  | Points16 => write_POINT16ARRAY pf points_ n_
  end.

Definition read_points (n_ : nat) : io (list POINT) :=
  match k with
  | Points32 => read_POINTLARRAY pf n_
  | Points16 => read_POINT16ARRAY pf n_
  end.

(** [EMRPOLYPOLYGON ( DATASTREAM& ds )].  Both sides of the size test are
    computed in [size_t]. *)
Definition parse : io t :=
  emr' <- read_EMR pf ;; rclBounds' <- read_RECTL pf ;;
  nPolys' <- read_DWORD pf ;; cptl' <- read_DWORD pf ;;
  if to_size_t pf (nSize emr'
                   - to_size_t pf (sizeof_struct k - sizeof_point k - sizeof_DWORD))
     <? to_size_t pf (sizeof_point k * cptl' + sizeof_DWORD * nPolys')
  then throw InvalidRecordSize
  else
    cbuffer <- read_DWORDARRAY pf (Z.to_nat nPolys') ;;
    match add_counts cbuffer 0 with
    | None => throw UnsignedOverflow
    | Some n =>
        if cptl' <? n then throw TooFewPoints
        else
          pbuffer <- read_points (Z.to_nat cptl') ;;
          ret {| emr := emr'; rclBounds := rclBounds';
                 nPolys := nPolys'; cptl := cptl';
                 lcounts := cbuffer; lpoints := pbuffer |}
    end.

(** [bool serialize ( DATASTREAM ds )] *)
Definition serialize (r : t) : io unit :=
  write_EMR pf (emr r) ;;; write_RECTL pf (rclBounds r) ;;;
  write_DWORD pf (nPolys r) ;;; write_DWORD pf (cptl r) ;;;
  write_DWORDARRAY pf (lcounts r) (Z.to_nat (nPolys r)) ;;;
  write_points (lpoints r) (Z.to_nat (cptl r)).
End PolyPolygon.

(** [int size ( void ) const { return emr.nSize; }] *)
Definition size (r : t) : Z := to_LONG (nSize (emr r)).

End EMRPOLYPOLYGON.

(** ** [class EMREXTTEXTOUTA] *)

Module EMREXTTEXTOUTA.

Record t := mk {
  emr : EMR;
  rclBounds : RECTL;
  iGraphicsMode : Z;
  exScale : Z;                        (* the 32 bits of the [FLOAT] *)
  eyScale : Z;
  emrtext : EMRTEXT;
  string_a : option (list byte);      (* [None] is the null pointer *)
  string_size : option Z;             (* [None]: never assigned *)
  dx_i : option (list Z)
}.

Definition with_offsets (text : EMRTEXT) (offString' offDx' : Z) : EMRTEXT :=
  {| ptlReference := ptlReference text; nChars := nChars text;
     offString := offString'; fOptions := fOptions text;
     rcl := rcl text; offDx := offDx' |}.

Section ExtTextOutA.
Variable pf : platform.

(** [EMREXTTEXTOUTA ( const RECTL* bounds, DWORD graphicsMode, FLOAT xScale,
    FLOAT yScale, const PEMRTEXT text, LPCSTR string, const INT* dx )] *)
Definition EMREXTTEXTOUTA (bounds : RECTL) (graphicsMode xScale yScale : Z)
    (text : EMRTEXT) (string : list byte) (dx : option (list Z)) : t :=
  let n := Z.to_nat (nChars text) in
  let string_size' := to_LONG (ROUND_TO_LONG (nChars text)) in
  let buf := take n string ++ replicate (Z.to_nat string_size' - n) Byte.x00 in
  let offString' := sizeof_EMREXTTEXTOUTA in
  let nSize1 := to_DWORD (sizeof_EMREXTTEXTOUTA + string_size') in
  {| emr := mkEMR EMR_EXTTEXTOUTA
              (match dx with
               | Some _ => to_DWORD (nSize1 + to_DWORD (nChars text * sizeof_INT))
               | None => nSize1
               end);
     rclBounds := bounds;
     iGraphicsMode := graphicsMode;
     exScale := xScale;
     eyScale := yScale;
     emrtext := with_offsets text offString'
                  (match dx with Some _ => nSize1 | None => 0 end);
     string_a := Some buf;
     string_size := Some string_size';
     dx_i := match dx with Some d => Some (take n d) | None => None end |}.

(** [EMREXTTEXTOUTA ( DATASTREAM& ds )] *)
Definition parse : io t :=
  emr' <- read_EMR pf ;; rclBounds' <- read_RECTL pf ;;
  iGraphicsMode' <- read_DWORD pf ;;
  exScale' <- read_FLOAT pf ;; eyScale' <- read_FLOAT pf ;;
  emrtext' <- read_EMRTEXT pf ;;
  if (0 <? nChars emrtext') && (offString emrtext' =? 0) then
    throw InvalidTextSpecification
  else if to_DWORD (nSize emr' - offString emrtext') <? nChars emrtext' then
    throw InvalidTextSpecification
  else
    str <- (if negb (offString emrtext' =? 0) then
              let string_size' := to_LONG (ROUND_TO_LONG (nChars emrtext')) in
              cbuffer <- read_CHARSTR (Z.to_nat string_size') ;;
              ret (Some cbuffer, Some string_size')
            else ret (None, None)) ;;
    ibuffer <- (if negb (offDx emrtext' =? 0) then
                  dx_is <- read_INTARRAY pf (Z.to_nat (nChars emrtext')) ;;
                  ret (Some dx_is)
                else ret None) ;;
    ret {| emr := emr'; rclBounds := rclBounds';
           iGraphicsMode := iGraphicsMode';
           exScale := exScale'; eyScale := eyScale';
           emrtext := emrtext';
           string_a := fst str; string_size := snd str;
           dx_i := ibuffer |}.

(** [bool serialize ( DATASTREAM ds )].  With [string_size] never assigned
    the source transfers an indeterminate number of bytes; the model
    transfers none. *)
Definition serialize (r : t) : io unit :=
  write_EMR pf (emr r) ;;; write_RECTL pf (rclBounds r) ;;;
  write_DWORD pf (iGraphicsMode r) ;;;
  write_FLOAT pf (exScale r) ;;; write_FLOAT pf (eyScale r) ;;;
  write_EMRTEXT pf (emrtext r) ;;;
  write_CHARSTR (match string_a r with Some s => s | None => [] end)
    (match string_size r with Some n => Z.to_nat n | None => O end) ;;;
  match dx_i r with
  | Some d => write_INTARRAY pf d (Z.to_nat (nChars (emrtext r)))
  | None => ret tt
  end.
End ExtTextOutA.

(** [int size ( void ) const { return emr.nSize; }] *)
Definition size (r : t) : Z := to_LONG (nSize (emr r)).

End EMREXTTEXTOUTA.

(** ** [class METARECORD]: the records behind the common interface *)

Module METARECORD.

Inductive t :=
| Header (h : ENHMETAHEADER.t)
| PolyPolygon (k : EMRPOLYPOLYGON.kind) (r : EMRPOLYPOLYGON.t)
| ExtTextOutA (r : EMREXTTEXTOUTA.t).

(** [virtual int size ( void ) const] *)
Definition size (r : t) : Z :=
  match r with
  | Header h => ENHMETAHEADER.size h
  | PolyPolygon _ p => EMRPOLYPOLYGON.size p
  | ExtTextOutA e => EMREXTTEXTOUTA.size e
  end.

(** [virtual bool serialize ( DATASTREAM ds )] *)
Definition serialize (pf : platform) (r : t) : io unit :=
  match r with
  | Header h => ENHMETAHEADER.serialize pf h
  | PolyPolygon k p => EMRPOLYPOLYGON.serialize pf k p
  | ExtTextOutA e => EMREXTTEXTOUTA.serialize pf e
  end.

End METARECORD.

(** ** Single-precision arithmetic

    [float] is IEEE binary32 (24 bits of precision), round to nearest even,
    as given by the Standard Library's [SpecFloat]. *)

Module Float.

Definition prec : Z := 24.
Definition emax : Z := 128.

(** [(float)v] for an integer [v] *)
Definition of_Z (v : Z) : spec_float := binary_normalize prec emax v 0 false.
Definition mul : spec_float -> spec_float -> spec_float := SFmul prec emax.
Definition div : spec_float -> spec_float -> spec_float := SFdiv prec emax.
Definition add : spec_float -> spec_float -> spec_float := SFadd prec emax.

(** Integer part and whether a fraction was dropped, for a magnitude
    [m * 2^e]. *)
Definition magnitude (m : positive) (e : Z) : Z * bool :=
  if 0 <=? e then (Z.pos m * 2 ^ e, false)
  else (Z.pos m / 2 ^ (- e), negb (Z.pos m mod 2 ^ (- e) =? 0)).

(** [floor], [ceil] and the truncating conversion [(LONG)f].  Infinities
    and NaN have no integer value in the source; they are given 0. *)
Definition floor (f : spec_float) : Z :=
  match f with
  | S754_finite s m e =>
      let '(q, frac) := magnitude m e in
      if s then - (if frac then q + 1 else q) else q
  | _ => 0
  end.

Definition ceil (f : spec_float) : Z :=
  match f with
  | S754_finite s m e =>
      let '(q, frac) := magnitude m e in
      if s then - q else (if frac then q + 1 else q)
  | _ => 0
  end.

Definition trunc (f : spec_float) : Z :=
  match f with
  | S754_finite s m e =>
      let '(q, _) := magnitude m e in
      if s then - q else q
  | _ => 0
  end.

End Float.

(** ** [class METAFILEDEVICECONTEXT] *)

Module METAFILEDEVICECONTEXT.

Import ENHMETAHEADER.

(** An entry of [records]: the header object is shared between the
    [header] member and the first slot of the vector. *)
Inductive entry :=
| TheHeader
| Owned (r : METARECORD.t).

(** The members the bookkeeping works on.  The stream, the selected
    graphics objects and the playback map are left out. *)
Record t := mk {
  header : ENHMETAHEADER.t;
  records : list entry;
  resolution : SIZEL;
  viewport_ext : SIZEL;
  viewport_org : POINT;
  window_ext : SIZEL;
  window_org : POINT;
  update_frame : bool;
  min_device_point : POINT;
  max_device_point : POINT;
  handles : list bool
}.

Definition set_header (h : ENHMETAHEADER.t) (c : t) : t :=
  {| header := h; records := records c; resolution := resolution c;
     viewport_ext := viewport_ext c; viewport_org := viewport_org c;
     window_ext := window_ext c; window_org := window_org c;
     update_frame := update_frame c;
     min_device_point := min_device_point c;
     max_device_point := max_device_point c;
     handles := handles c |}.

Definition set_records (rs : list entry) (c : t) : t :=
  {| header := header c; records := rs; resolution := resolution c;
     viewport_ext := viewport_ext c; viewport_org := viewport_org c;
     window_ext := window_ext c; window_org := window_org c;
     update_frame := update_frame c;
     min_device_point := min_device_point c;
     max_device_point := max_device_point c;
     handles := handles c |}.

Definition set_handles (hs : list bool) (c : t) : t :=
  {| header := header c; records := records c; resolution := resolution c;
     viewport_ext := viewport_ext c; viewport_org := viewport_org c;
     window_ext := window_ext c; window_org := window_org c;
     update_frame := update_frame c;
     min_device_point := min_device_point c;
     max_device_point := max_device_point c;
     handles := hs |}.

Definition set_min (p : POINT) (c : t) : t :=
  {| header := header c; records := records c; resolution := resolution c;
     viewport_ext := viewport_ext c; viewport_org := viewport_org c;
     window_ext := window_ext c; window_org := window_org c;
     update_frame := update_frame c;
     min_device_point := p;
     max_device_point := max_device_point c;
     handles := handles c |}.

Definition set_max (p : POINT) (c : t) : t :=
  {| header := header c; records := records c; resolution := resolution c;
     viewport_ext := viewport_ext c; viewport_org := viewport_org c;
     window_ext := window_ext c; window_org := window_org c;
     update_frame := update_frame c;
     min_device_point := min_device_point c;
     max_device_point := p;
     handles := handles c |}.



(** Updates of single header fields. *)
Definition set_rclBounds (r : RECTL) (h : ENHMETAHEADER.t) : ENHMETAHEADER.t :=
  ENHMETAHEADER.mk (iType h) (nSize h) r (rclFrame h) (dSignature h) (nVersion h)
    (nBytes h) (nRecords h) (nHandles h) (sReserved h) (nDescription h)
    (offDescription h) (nPalEntries h) (szlDevice h) (szlMillimeters h)
    (cbPixelFormat h) (offPixelFormat h) (bOpenGL h) (szlMicrometers h)
    (description_w h) (description_size h).

Definition set_rclFrame (r : RECTL) (h : ENHMETAHEADER.t) : ENHMETAHEADER.t :=
  ENHMETAHEADER.mk (iType h) (nSize h) (rclBounds h) r (dSignature h) (nVersion h)
    (nBytes h) (nRecords h) (nHandles h) (sReserved h) (nDescription h)
    (offDescription h) (nPalEntries h) (szlDevice h) (szlMillimeters h)
    (cbPixelFormat h) (offPixelFormat h) (bOpenGL h) (szlMicrometers h)
    (description_w h) (description_size h).

Definition set_counters (nBytes' nRecords' nHandles' : Z) (h : ENHMETAHEADER.t)
    : ENHMETAHEADER.t :=
  ENHMETAHEADER.mk (iType h) (nSize h) (rclBounds h) (rclFrame h) (dSignature h)
    (nVersion h) nBytes' nRecords' nHandles' (sReserved h) (nDescription h)
    (offDescription h) (nPalEntries h) (szlDevice h) (szlMillimeters h)
    (cbPixelFormat h) (offPixelFormat h) (bOpenGL h) (szlMicrometers h)
    (description_w h) (description_size h).

Definition with_left (v : Z) (r : RECTL) : RECTL := mkRECTL v (top r) (right r) (bottom r).
Definition with_top (v : Z) (r : RECTL) : RECTL := mkRECTL (left r) v (right r) (bottom r).
Definition with_right (v : Z) (r : RECTL) : RECTL := mkRECTL (left r) (top r) v (bottom r).
Definition with_bottom (v : Z) (r : RECTL) : RECTL := mkRECTL (left r) (top r) (right r) v.

(** [(float)bounds * millimeters * 100 / device], the operand of [floor]
    and [ceil] in [init] and [mergePoint]. *)
Definition frame_coord (bounds millimeters device : Z) : spec_float :=
  Float.div
    (Float.mul (Float.mul (Float.of_Z bounds) (Float.of_Z millimeters))
               (Float.of_Z 100))
    (Float.of_Z device).

(** [void init ( const RECT* size, LPCWSTR description_w )], without the
    look-up of the stock objects and the registration of the context. *)
Definition init (pf : platform) (size : option RECTL)
    (description_w : option (list Z)) : t :=
  let h := ENHMETAHEADER.ENHMETAHEADER pf description_w in
  let dev := szlDevice h in
  let mm := szlMillimeters h in
  let h' :=
    match size with
    | Some sz =>
        set_rclBounds
          (mkRECTL
             (to_LONG (Z.quot (to_LONG (left sz * cx dev)) (to_LONG (cx mm * 100))))
             (to_LONG (Z.quot (to_LONG (top sz * cy dev)) (to_LONG (cy mm * 100))))
             (to_LONG (Z.quot (to_LONG (right sz * cx dev)) (to_LONG (cx mm * 100))))
             (to_LONG (Z.quot (to_LONG (bottom sz * cy dev)) (to_LONG (cy mm * 100)))))
          (set_rclFrame (mkRECTL (left sz) (top sz) (right sz) (bottom sz)) h)
    | None =>
        let b := mkRECTL (-10) (-10) 10 10 in
        set_rclFrame
          (mkRECTL
             (to_LONG (Float.floor (frame_coord (left b) (cx mm) (cx dev))))
             (to_LONG (Float.floor (frame_coord (top b) (cy mm) (cy dev))))
             (to_LONG (Float.ceil (frame_coord (right b) (cx mm) (cx dev))))
             (to_LONG (Float.ceil (frame_coord (bottom b) (cy mm) (cy dev)))))
          (set_rclBounds b h)
    end in
  {| header := h';
     records := [TheHeader];
     resolution := mkSIZEL RESOLUTION RESOLUTION;
     viewport_ext := mkSIZEL 1 1;
     viewport_org := mkPOINT 0 0;
     window_ext := mkSIZEL 1 1;
     window_org := mkPOINT 0 0;
     update_frame := match size with Some _ => false | None => true end;
     min_device_point := mkPOINT 0 0;
     max_device_point := mkPOINT 0 0;
     handles := [true] |}.

(** The scan of [nextHandle]: [hs] are the slots from index [i] on. *)
Fixpoint first_free (hs : list bool) (i : nat) : option nat :=
  match hs with
  | [] => None
  | used :: rest => if used then first_free rest (S i) else Some i
  end.

(** [DWORD nextHandle ( void )] *)
Definition nextHandle (c : t) : nat * t :=
  match first_free (drop 1 (handles c)) 1 with
  | Some i => (i, set_handles (<[i := true]> (handles c)) c)
  | None =>
      let hs := handles c ++ [true] in
      let h := header c in
      ((length hs - 1)%nat,
       set_header
         (set_counters (nBytes h) (nRecords h) (to_WORD (Z.of_nat (length hs))) h)
         (set_handles hs c))
  end.

(** [void clearHandle ( DWORD handle )] *)
Definition clearHandle (handle : nat) (c : t) : t :=
  if (handle <? length (handles c))%nat then
    set_handles (<[handle := false]> (handles c)) c
  else c.

(** [void appendRecord ( METARECORD* record )] *)
Definition appendRecord (record : METARECORD.t) (c : t) : t :=
  let h := header c in
  set_header
    (set_counters (to_DWORD (nBytes h + METARECORD.size record))
                  (to_DWORD (nRecords h + 1)) (nHandles h) h)
    (set_records (records c ++ [Owned record]) c).

(** [void appendHandle ( METARECORD* record )] *)
Definition appendHandle (record : METARECORD.t) (c : t) : t :=
  let h := header c in
  set_header
    (set_counters (to_DWORD (nBytes h + METARECORD.size record))
                  (to_DWORD (nRecords h + 1)) (nHandles h) h)
    (set_records (records c ++ [Owned record]) c).

(** The device point computed at the top of [mergePoint]. *)
Definition device_coord (p org_w ext_w ext_v org_v : Z) : Z :=
  let window_size := if ext_w <=? 0 then 1 else ext_w in
  to_LONG
    (Float.trunc
       (Float.add
          (Float.mul
             (Float.div (Float.of_Z (to_LONG (p - org_w))) (Float.of_Z window_size))
             (Float.of_Z ext_v))
          (Float.of_Z org_v))).

Definition device_point (c : t) (p : POINT) : POINT :=
  mkPOINT
    (device_coord (x p) (x (window_org c)) (cx (window_ext c))
                  (cx (viewport_ext c)) (x (viewport_org c)))
    (device_coord (y p) (y (window_org c)) (cy (window_ext c))
                  (cy (viewport_ext c)) (y (viewport_org c))).

Definition guard (device : Z) : Z := if device <=? 0 then 1 else device.

(** The horizontal half of [mergePoint]. *)
Definition merge_x (dx : Z) (c : t) : t :=
  let h := header c in
  if dx <? x (min_device_point c) then
    let c1 := set_min (mkPOINT dx (y (min_device_point c))) c in
    if update_frame c then
      let l := to_LONG (dx - 10) in
      let device_width := guard (cx (szlDevice h)) in
      set_header
        (set_rclFrame
           (with_left
              (to_LONG (Float.floor
                 (frame_coord l (cx (szlMillimeters h)) device_width)))
              (rclFrame h))
           (set_rclBounds (with_left l (rclBounds h)) h))
        c1
    else c1
  else if x (max_device_point c) <? dx then
    let c1 := set_max (mkPOINT dx (y (max_device_point c))) c in
    if update_frame c then
      let r := to_LONG (dx + 10) in
      let device_width := guard (cx (szlDevice h)) in
      set_header
        (set_rclFrame
           (with_right
              (to_LONG (Float.ceil
                 (frame_coord r (cx (szlMillimeters h)) device_width)))
              (rclFrame h))
           (set_rclBounds (with_right r (rclBounds h)) h))
        c1
    else c1
  else c.

(** The vertical half of [mergePoint]. *)
Definition merge_y (dy : Z) (c : t) : t :=
  let h := header c in
  if dy <? y (min_device_point c) then
    let c1 := set_min (mkPOINT (x (min_device_point c)) dy) c in
    if update_frame c then
      let t' := to_LONG (dy - 10) in
      let device_height := guard (cy (szlDevice h)) in
      set_header
        (set_rclFrame
           (with_top
              (to_LONG (Float.floor
                 (frame_coord t' (cy (szlMillimeters h)) device_height)))
              (rclFrame h))
           (set_rclBounds (with_top t' (rclBounds h)) h))
        c1
    else c1
  else if y (max_device_point c) <? dy then
    let c1 := set_max (mkPOINT (x (max_device_point c)) dy) c in
    if update_frame c then
      let b := to_LONG (dy + 10) in
      let device_height := guard (cy (szlDevice h)) in
      set_header
        (set_rclFrame
           (with_bottom
              (to_LONG (Float.ceil
                 (frame_coord b (cy (szlMillimeters h)) device_height)))
              (rclFrame h))
           (set_rclBounds (with_bottom b (rclBounds h)) h))
        c1
    else c1
  else c.

(** [void mergePoint( const POINT& p )] *)
Definition mergePoint (p : POINT) (c : t) : t :=
  let d := device_point c p in
  merge_y (y d) (merge_x (x d) c).

(** [n] successive calls of [nextHandle], with the handles they return. *)
Fixpoint allocate (n : nat) (c : t) : list nat * t :=
  match n with
  | O => ([], c)
  | S n' =>
      let (h, c') := nextHandle c in
      let (hs, c'') := allocate n' c' in
      (h :: hs, c'')
  end.

(** A slot the scan of [nextHandle] can hand out. *)
Definition free_slot (c : t) (i : nat) : Prop :=
  (1 <= i)%nat /\ handles c !! i = Some false.

(** The bookkeeping operations and the contexts they lead to. *)
Inductive operation :=
| NextHandle
| ClearHandle (handle : nat)
| AppendRecord (record : METARECORD.t)
| AppendHandle (record : METARECORD.t)
| MergePoint (p : POINT).

Definition step (o : operation) (c : t) : t :=
  match o with
  | NextHandle => snd (nextHandle c)
  | ClearHandle handle => clearHandle handle c
  | AppendRecord record => appendRecord record c
  | AppendHandle record => appendHandle record c
  | MergePoint p => mergePoint p c
  end.

Inductive reachable (pf : platform) : t -> Prop :=
| reachable_init size description_w :
    reachable pf (init pf size description_w)
| reachable_step o c :
    reachable pf c -> reachable pf (step o c).


End METAFILEDEVICECONTEXT.

(** ** The transfers of the codec

    One constructor for each stream operator modelled above, so that a
    statement can range over all of them. *)

Module Transfer.

Inductive t :=
| In_BYTE | In_WORD | In_INT16 | In_DWORD | In_LONG | In_INT | In_UINT
| In_FLOAT | In_RECTL | In_SIZEL | In_EMR | In_POINTL | In_POINT16
| In_EMRTEXT
| In_WCHARSTR (length_ : nat)
| In_CHARSTR (length_ : nat)
| In_BYTEARRAY (n_ : nat)
| In_POINTLARRAY (n_ : nat)
| In_POINT16ARRAY (n_ : nat)
| In_INTARRAY (n_ : nat)
| In_DWORDARRAY (n_ : nat)
| Out_BYTE (b : byte)
| Out_WORD (v : Z) | Out_INT16 (v : Z) | Out_DWORD (v : Z) | Out_LONG (v : Z)
| Out_INT (v : Z) | Out_UINT (v : Z) | Out_FLOAT (v : Z)
| Out_PADDING (size_ : nat)
| Out_RECTL (r : RECTL) | Out_SIZEL (s : SIZEL) | Out_EMR (e : EMR)
| Out_POINTL (p : POINT) | Out_POINT16 (p : POINT) | Out_EMRTEXT (e : EMRTEXT)
| Out_WCHARSTR (string_ : list Z) (length_ : nat)
| Out_CHARSTR (string_ : list byte) (length_ : nat)
| Out_BYTEARRAY (array_ : list byte) (n_ : nat)
| Out_POINTLARRAY (points_ : list POINT) (n_ : nat)
| Out_POINT16ARRAY (points_ : list POINT) (n_ : nat)
| Out_INTARRAY (ints_ : list Z) (n_ : nat)
| Out_DWORDARRAY (dwords_ : list Z) (n_ : nat).

Definition discard {A} (m : io A) : io unit := m ;;; ret tt.

Definition perform (pf : platform) (tr : t) : io unit :=
  match tr with
  | In_BYTE => discard read_BYTE
  | In_WORD => discard (read_WORD pf)
  | In_INT16 => discard (read_INT16 pf)
  | In_DWORD => discard (read_DWORD pf)
  | In_LONG => discard (read_LONG pf)
  | In_INT => discard (read_INT pf)
  | In_UINT => discard (read_UINT pf)
  | In_FLOAT => discard (read_FLOAT pf)
  | In_RECTL => discard (read_RECTL pf)
  | In_SIZEL => discard (read_SIZEL pf)
  | In_EMR => discard (read_EMR pf)
  | In_POINTL => discard (read_POINTL pf)
  | In_POINT16 => discard (read_POINT16 pf)
  | In_EMRTEXT => discard (read_EMRTEXT pf)
  | In_WCHARSTR n => discard (read_WCHARSTR pf n)
  | In_CHARSTR n => discard (read_CHARSTR n)
  | In_BYTEARRAY n => discard (read_BYTEARRAY n)
  | In_POINTLARRAY n => discard (read_POINTLARRAY pf n)
  | In_POINT16ARRAY n => discard (read_POINT16ARRAY pf n)
  | In_INTARRAY n => discard (read_INTARRAY pf n)
  | In_DWORDARRAY n => discard (read_DWORDARRAY pf n)
  | Out_BYTE b => write_BYTE b
  | Out_WORD v => write_WORD pf v
  | Out_INT16 v => write_INT16 pf v
  | Out_DWORD v => write_DWORD pf v
  | Out_LONG v => write_LONG pf v
  | Out_INT v => write_INT pf v
  | Out_UINT v => write_UINT pf v
  | Out_FLOAT v => write_FLOAT pf v
  | Out_PADDING n => write_PADDING n
  | Out_RECTL r => write_RECTL pf r
  | Out_SIZEL s => write_SIZEL pf s
  | Out_EMR e => write_EMR pf e
  | Out_POINTL p => write_POINTL pf p
  | Out_POINT16 p => write_POINT16 pf p
  | Out_EMRTEXT e => write_EMRTEXT pf e
  | Out_WCHARSTR s n => write_WCHARSTR pf s n
  | Out_CHARSTR s n => write_CHARSTR s n
  | Out_BYTEARRAY a n => write_BYTEARRAY a n
  | Out_POINTLARRAY p n => write_POINTLARRAY pf p n
  | Out_POINT16ARRAY p n => write_POINT16ARRAY pf p n
  | Out_INTARRAY i n => write_INTARRAY pf i n
  | Out_DWORDARRAY d n => write_DWORDARRAY pf d n
  end.

(** The number of bytes the transfer asks the stream for. *)
Definition requested (tr : t) : nat :=
  match tr with
  | In_BYTE | Out_BYTE _ => 1
  | In_WORD | In_INT16 | Out_WORD _ | Out_INT16 _ => 2
  | In_DWORD | In_LONG | In_INT | In_UINT | In_FLOAT
  | Out_DWORD _ | Out_LONG _ | Out_INT _ | Out_UINT _ | Out_FLOAT _ => 4
  | In_RECTL | Out_RECTL _ => 16
  | In_SIZEL | In_EMR | In_POINTL | Out_SIZEL _ | Out_EMR _ | Out_POINTL _ => 8
  | In_POINT16 | Out_POINT16 _ => 4
  | In_EMRTEXT | Out_EMRTEXT _ => 40
  | In_WCHARSTR n => n * 2
  | In_CHARSTR n | In_BYTEARRAY n => n
  | In_POINTLARRAY n => n * 8
  | In_POINT16ARRAY n | In_INTARRAY n | In_DWORDARRAY n => n * 4
  | Out_PADDING n => n
  | Out_WCHARSTR s n => length (take n s) * 2
  | Out_CHARSTR s n | Out_BYTEARRAY s n => length (take n s)
  | Out_POINTLARRAY p n => length (take n p) * 8
  | Out_POINT16ARRAY p n => length (take n p) * 4
  | Out_INTARRAY i n | Out_DWORDARRAY i n => length (take n i) * 4
  end%nat.

Definition reading (tr : t) : bool :=
  match tr with
  | In_BYTE | In_WORD | In_INT16 | In_DWORD | In_LONG | In_INT | In_UINT
  | In_FLOAT | In_RECTL | In_SIZEL | In_EMR | In_POINTL | In_POINT16
  | In_EMRTEXT | In_WCHARSTR _ | In_CHARSTR _ | In_BYTEARRAY _
  | In_POINTLARRAY _ | In_POINT16ARRAY _ | In_INTARRAY _
  | In_DWORDARRAY _ => true
  | _ => false
  end.

(** The number of bytes the stream can still transfer in that direction. *)
Definition transferable (tr : t) (fp : FILE) : nat :=
  if reading tr then length (unread fp) else room fp.

End Transfer.

(** ** Predicates used in the statements *)

(** [rd] takes exactly [n] bytes off the stream, or fails for lack of them. *)
Definition transfers_in {A} (rd : io A) (n : nat) : Prop :=
  forall fp,
    if (length (unread fp) <? n)%nat then rd fp = Err PrematureEOF
    else exists a, rd fp = Ok (a, consume n fp).

(** [wr] puts exactly [n] bytes on the stream, or fails for lack of room. *)
Definition transfers_out (wr : io unit) (n : nat) : Prop :=
  forall fp,
    if (room fp <? n)%nat then wr fp = Err WriteError
    else exists bs, length bs = n /\ wr fp = Ok (tt, emit bs fp).

(** Two stream computations that agree on every stream. *)
Definition same_io {A} (m m' : io A) : Prop := forall fp, m fp = m' fp.

(** [wr] is one [fwrite] of the bytes [bs]. *)
Definition encodes (wr : io unit) (bs : list byte) : Prop :=
  forall fp, wr fp = fwrite bs fp.

(** [rd] reads the value [a] off the bytes [bs]. *)
Definition decodes {A} (rd : io A) (bs : list byte) (a : A) : Prop :=
  forall fp rest,
    unread fp = bs ++ rest ->
    rd fp = Ok (a, {| unread := rest; written := written fp; room := room fp |}).

(** ** Wire images

    The bytes a value occupies on the stream: little-endian fields laid
    end to end, in the order the operators transfer them. *)

Definition wire_RECTL (r : RECTL) : list byte :=
  le_bytes 4 (left r) ++ le_bytes 4 (top r) ++
  le_bytes 4 (right r) ++ le_bytes 4 (bottom r).
Definition wire_SIZEL (s : SIZEL) : list byte :=
  le_bytes 4 (cx s) ++ le_bytes 4 (cy s).
Definition wire_EMR (e : EMR) : list byte :=
  le_bytes 4 (iType e) ++ le_bytes 4 (nSize e).
Definition wire_POINTL (p : POINT) : list byte :=
  le_bytes 4 (x p) ++ le_bytes 4 (y p).
Definition wire_POINT16 (p : POINT) : list byte :=
  le_bytes 2 (x p) ++ le_bytes 2 (y p).
Definition wire_EMRTEXT (e : EMRTEXT) : list byte :=
  wire_POINTL (ptlReference e) ++ le_bytes 4 (nChars e) ++
  le_bytes 4 (offString e) ++ le_bytes 4 (fOptions e) ++
  wire_RECTL (rcl e) ++ le_bytes 4 (offDx e).
Definition wire_each {A} (wire : A -> list byte) (l : list A) : list byte :=
  concat (map wire l).

(** The fields of the header up to [szlMillimeters]: 88 bytes. *)
Definition wire_base (h : ENHMETAHEADER.t) : list byte :=
  le_bytes 4 (ENHMETAHEADER.iType h) ++ le_bytes 4 (ENHMETAHEADER.nSize h) ++
  wire_RECTL (ENHMETAHEADER.rclBounds h) ++ wire_RECTL (ENHMETAHEADER.rclFrame h) ++
  le_bytes 4 (ENHMETAHEADER.dSignature h) ++ le_bytes 4 (ENHMETAHEADER.nVersion h) ++
  le_bytes 4 (ENHMETAHEADER.nBytes h) ++ le_bytes 4 (ENHMETAHEADER.nRecords h) ++
  le_bytes 2 (ENHMETAHEADER.nHandles h) ++ le_bytes 2 (ENHMETAHEADER.sReserved h) ++
  le_bytes 4 (ENHMETAHEADER.nDescription h) ++
  le_bytes 4 (ENHMETAHEADER.offDescription h) ++
  le_bytes 4 (ENHMETAHEADER.nPalEntries h) ++
  wire_SIZEL (ENHMETAHEADER.szlDevice h) ++
  wire_SIZEL (ENHMETAHEADER.szlMillimeters h).

Definition wire_pixel (h : ENHMETAHEADER.t) : list byte :=
  le_bytes 4 (ENHMETAHEADER.cbPixelFormat h) ++
  le_bytes 4 (ENHMETAHEADER.offPixelFormat h) ++
  le_bytes 4 (ENHMETAHEADER.bOpenGL h).

Definition wire_ENHMETAHEADER (h : ENHMETAHEADER.t) : list byte :=
  wire_base h ++ wire_pixel h ++ wire_SIZEL (ENHMETAHEADER.szlMicrometers h) ++
  wire_each (le_bytes 2)
    (take (Z.to_nat (ENHMETAHEADER.description_size h))
          (ENHMETAHEADER.buffer_of (ENHMETAHEADER.description_w h))).

Definition wire_point (k : EMRPOLYPOLYGON.kind) : POINT -> list byte :=
  match k with
  | EMRPOLYPOLYGON.Points32 => wire_POINTL
  | EMRPOLYPOLYGON.Points16 => wire_POINT16
  end.

Definition wire_EMRPOLYPOLYGON (k : EMRPOLYPOLYGON.kind) (r : EMRPOLYPOLYGON.t)
    : list byte :=
  wire_EMR (EMRPOLYPOLYGON.emr r) ++ wire_RECTL (EMRPOLYPOLYGON.rclBounds r) ++
  le_bytes 4 (EMRPOLYPOLYGON.nPolys r) ++ le_bytes 4 (EMRPOLYPOLYGON.cptl r) ++
  wire_each (le_bytes 4)
    (take (Z.to_nat (EMRPOLYPOLYGON.nPolys r)) (EMRPOLYPOLYGON.lcounts r)) ++
  wire_each (wire_point k)
    (take (Z.to_nat (EMRPOLYPOLYGON.cptl r)) (EMRPOLYPOLYGON.lpoints r)).

Definition wire_EMREXTTEXTOUTA (r : EMREXTTEXTOUTA.t) : list byte :=
  wire_EMR (EMREXTTEXTOUTA.emr r) ++ wire_RECTL (EMREXTTEXTOUTA.rclBounds r) ++
  le_bytes 4 (EMREXTTEXTOUTA.iGraphicsMode r) ++
  le_bytes 4 (EMREXTTEXTOUTA.exScale r) ++ le_bytes 4 (EMREXTTEXTOUTA.eyScale r) ++
  wire_EMRTEXT (EMREXTTEXTOUTA.emrtext r) ++
  take (match EMREXTTEXTOUTA.string_size r with Some n => Z.to_nat n | None => O end)
       (match EMREXTTEXTOUTA.string_a r with Some s => s | None => [] end) ++
  match EMREXTTEXTOUTA.dx_i r with
  | Some d => wire_each (le_bytes 4)
                (take (Z.to_nat (nChars (EMREXTTEXTOUTA.emrtext r))) d)
  | None => []
  end.

Definition wire (r : METARECORD.t) : list byte :=
  match r with
  | METARECORD.Header h => wire_ENHMETAHEADER h
  | METARECORD.PolyPolygon k p => wire_EMRPOLYPOLYGON k p
  | METARECORD.ExtTextOutA e => wire_EMREXTTEXTOUTA e
  end.

(** ** Records built by the programmatic constructors *)

Definition total (l : list Z) : Z := fold_right Z.add 0 l.



(** ** Sample streams *)

(** An empty poly-polygon record that declares 36 bytes: tag 8, [nSize] 36,
    zero bounds, [nPolys] 0, [cptl] 0. *)
Definition padded_polypolygon : list byte :=
  [Byte.x08; Byte.x00; Byte.x00; Byte.x00; Byte.x24; Byte.x00; Byte.x00; Byte.x00;
   Byte.x00; Byte.x00; Byte.x00; Byte.x00; Byte.x00; Byte.x00; Byte.x00; Byte.x00;
   Byte.x00; Byte.x00; Byte.x00; Byte.x00; Byte.x00; Byte.x00; Byte.x00; Byte.x00;
   Byte.x00; Byte.x00; Byte.x00; Byte.x00; Byte.x00; Byte.x00; Byte.x00; Byte.x00].


(** A poly-polygon record that declares 8 bytes and carries one polygon of
    one point: tag 8, [nSize] 8, zero bounds, [nPolys] 1, [cptl] 1, the
    count 1 and the point (3,4). *)
Definition undersized_polypolygon : list byte :=
  [Byte.x08; Byte.x00; Byte.x00; Byte.x00; Byte.x08; Byte.x00; Byte.x00; Byte.x00;
   Byte.x00; Byte.x00; Byte.x00; Byte.x00; Byte.x00; Byte.x00; Byte.x00; Byte.x00;
   Byte.x00; Byte.x00; Byte.x00; Byte.x00; Byte.x00; Byte.x00; Byte.x00; Byte.x00;
   Byte.x01; Byte.x00; Byte.x00; Byte.x00; Byte.x01; Byte.x00; Byte.x00; Byte.x00;
   Byte.x01; Byte.x00; Byte.x00; Byte.x00; Byte.x03; Byte.x00; Byte.x00; Byte.x00;
   Byte.x04; Byte.x00; Byte.x00; Byte.x00].

(** Its 16-bit twin: tag 91, [nSize] 8, one polygon of one point (3,4). *)
Definition undersized_polypolygon16 : list byte :=
  [Byte.x5b; Byte.x00; Byte.x00; Byte.x00; Byte.x08; Byte.x00; Byte.x00; Byte.x00;
   Byte.x00; Byte.x00; Byte.x00; Byte.x00; Byte.x00; Byte.x00; Byte.x00; Byte.x00;
   Byte.x00; Byte.x00; Byte.x00; Byte.x00; Byte.x00; Byte.x00; Byte.x00; Byte.x00;
   Byte.x01; Byte.x00; Byte.x00; Byte.x00; Byte.x01; Byte.x00; Byte.x00; Byte.x00;
   Byte.x01; Byte.x00; Byte.x00; Byte.x00; Byte.x03; Byte.x00; Byte.x04; Byte.x00].

(** A text record of 76 declared bytes whose string is said to start at
    offset 100: tag 83, [nSize] 76, zero bounds, graphics mode 1, scales
    1.0, reference point (0,0), [nChars] 4, [offString] 100, no options,
    zero rectangle, [offDx] 0, and the four characters ABCD. *)
Definition text_beyond_record : list byte :=
  [Byte.x53; Byte.x00; Byte.x00; Byte.x00; Byte.x4c; Byte.x00; Byte.x00; Byte.x00;
   Byte.x00; Byte.x00; Byte.x00; Byte.x00; Byte.x00; Byte.x00; Byte.x00; Byte.x00;
   Byte.x00; Byte.x00; Byte.x00; Byte.x00; Byte.x00; Byte.x00; Byte.x00; Byte.x00;
   Byte.x01; Byte.x00; Byte.x00; Byte.x00; Byte.x00; Byte.x00; Byte.x80; Byte.x3f;
   Byte.x00; Byte.x00; Byte.x80; Byte.x3f; Byte.x00; Byte.x00; Byte.x00; Byte.x00;
   Byte.x00; Byte.x00; Byte.x00; Byte.x00; Byte.x04; Byte.x00; Byte.x00; Byte.x00;
   Byte.x64; Byte.x00; Byte.x00; Byte.x00; Byte.x00; Byte.x00; Byte.x00; Byte.x00;
   Byte.x00; Byte.x00; Byte.x00; Byte.x00; Byte.x00; Byte.x00; Byte.x00; Byte.x00;
   Byte.x00; Byte.x00; Byte.x00; Byte.x00; Byte.x00; Byte.x00; Byte.x00; Byte.x00;
   Byte.x00; Byte.x00; Byte.x00; Byte.x00; Byte.x41; Byte.x42; Byte.x43; Byte.x44].


(** ** What [unserialize] delivers

    [h1] stands for the field values the stream holds, [h0] for the header
    object before the call, [ws] for the description code units read. *)

Definition base_fields_ok (h : ENHMETAHEADER.t) : Prop :=
  is_DWORD (ENHMETAHEADER.iType h) /\ is_DWORD (ENHMETAHEADER.nSize h) /\
  is_RECTL (ENHMETAHEADER.rclBounds h) /\ is_RECTL (ENHMETAHEADER.rclFrame h) /\
  is_DWORD (ENHMETAHEADER.dSignature h) /\ is_DWORD (ENHMETAHEADER.nVersion h) /\
  is_DWORD (ENHMETAHEADER.nBytes h) /\ is_DWORD (ENHMETAHEADER.nRecords h) /\
  is_WORD (ENHMETAHEADER.nHandles h) /\ is_WORD (ENHMETAHEADER.sReserved h) /\
  is_DWORD (ENHMETAHEADER.nDescription h) /\
  is_DWORD (ENHMETAHEADER.offDescription h) /\
  is_DWORD (ENHMETAHEADER.nPalEntries h) /\
  is_SIZEL (ENHMETAHEADER.szlDevice h) /\ is_SIZEL (ENHMETAHEADER.szlMillimeters h).

Definition late_fields_ok (h : ENHMETAHEADER.t) : Prop :=
  is_DWORD (ENHMETAHEADER.cbPixelFormat h) /\
  is_DWORD (ENHMETAHEADER.offPixelFormat h) /\
  is_DWORD (ENHMETAHEADER.bOpenGL h) /\
  is_SIZEL (ENHMETAHEADER.szlMicrometers h).

Definition has_pixel (h : ENHMETAHEADER.t) : bool :=
  OffsetOf_szlMicrometers <=? ENHMETAHEADER.offDescription h.
Definition has_micrometers (h : ENHMETAHEADER.t) : bool :=
  sizeof_ENHMETAHEADER <=? ENHMETAHEADER.offDescription h.

(** The bytes [unserialize] takes off the stream. *)
Definition header_stream (h1 : ENHMETAHEADER.t) (ws : list Z) : list byte :=
  wire_base h1 ++
  (if has_pixel h1 then wire_pixel h1 else []) ++
  (if has_micrometers h1 then wire_SIZEL (ENHMETAHEADER.szlMicrometers h1) else []) ++
  wire_each (le_bytes 2) ws.

(** The header it leaves behind. *)
Definition unserialized (h0 h1 : ENHMETAHEADER.t) (ws : list Z) : ENHMETAHEADER.t :=
  let late := if has_pixel h1 then h1 else h0 in
  let size := Z.max 2 (Z.of_nat (length ws)) in
  {| ENHMETAHEADER.iType := ENHMETAHEADER.iType h1;
     ENHMETAHEADER.nSize := ENHMETAHEADER.nSize h1;
     ENHMETAHEADER.rclBounds := ENHMETAHEADER.rclBounds h1;
     ENHMETAHEADER.rclFrame := ENHMETAHEADER.rclFrame h1;
     ENHMETAHEADER.dSignature := ENHMETAHEADER.dSignature h1;
     ENHMETAHEADER.nVersion := ENHMETAHEADER.nVersion h1;
     ENHMETAHEADER.nBytes := ENHMETAHEADER.nBytes h1;
     ENHMETAHEADER.nRecords := ENHMETAHEADER.nRecords h1;
     ENHMETAHEADER.nHandles := ENHMETAHEADER.nHandles h1;
     ENHMETAHEADER.sReserved := ENHMETAHEADER.sReserved h1;
     ENHMETAHEADER.nDescription := ENHMETAHEADER.nDescription h1;
     ENHMETAHEADER.offDescription := ENHMETAHEADER.offDescription h1;
     ENHMETAHEADER.nPalEntries := ENHMETAHEADER.nPalEntries h1;
     ENHMETAHEADER.szlDevice := ENHMETAHEADER.szlDevice h1;
     ENHMETAHEADER.szlMillimeters := ENHMETAHEADER.szlMillimeters h1;
     ENHMETAHEADER.cbPixelFormat := ENHMETAHEADER.cbPixelFormat late;
     ENHMETAHEADER.offPixelFormat := ENHMETAHEADER.offPixelFormat late;
     ENHMETAHEADER.bOpenGL := ENHMETAHEADER.bOpenGL late;
     ENHMETAHEADER.szlMicrometers :=
       ENHMETAHEADER.szlMicrometers (if has_micrometers h1 then h1 else h0);
     ENHMETAHEADER.description_w :=
       Some (ENHMETAHEADER.terminate size
               (ws ++ replicate (Z.to_nat size - length ws) 0));
     ENHMETAHEADER.description_size := size |}.

(** ** Well-formed poly-polygon records

    What both constructors establish: the buffers hold as many elements
    as [nPolys] and [cptl] say, the counts sum to no more than [cptl], the
    fields fit their types and the declared size covers the payload. *)

Definition point_ok (k : EMRPOLYPOLYGON.kind) : POINT -> Prop :=
  match k with
  | EMRPOLYPOLYGON.Points32 => is_POINTL
  | EMRPOLYPOLYGON.Points16 => is_POINT16
  end.

Definition polypolygon_wf (k : EMRPOLYPOLYGON.kind) (r : EMRPOLYPOLYGON.t) : Prop :=
  is_DWORD (iType (EMRPOLYPOLYGON.emr r)) /\
  is_DWORD (nSize (EMRPOLYPOLYGON.emr r)) /\
  is_RECTL (EMRPOLYPOLYGON.rclBounds r) /\
  0 <= EMRPOLYPOLYGON.nPolys r /\ 0 <= EMRPOLYPOLYGON.cptl r /\
  length (EMRPOLYPOLYGON.lcounts r) = Z.to_nat (EMRPOLYPOLYGON.nPolys r) /\
  length (EMRPOLYPOLYGON.lpoints r) = Z.to_nat (EMRPOLYPOLYGON.cptl r) /\
  Forall (fun c => 0 <= c) (EMRPOLYPOLYGON.lcounts r) /\
  total (EMRPOLYPOLYGON.lcounts r) <= EMRPOLYPOLYGON.cptl r /\
  Forall (point_ok k) (EMRPOLYPOLYGON.lpoints r) /\
  32 + EMRPOLYPOLYGON.sizeof_point k * EMRPOLYPOLYGON.cptl r
     + sizeof_DWORD * EMRPOLYPOLYGON.nPolys r <= nSize (EMRPOLYPOLYGON.emr r).

(** ** Bookkeeping sums *)

(** The bytes an entry of the record list stands for. *)
Definition entry_size (c : METAFILEDEVICECONTEXT.t)
    (e : METAFILEDEVICECONTEXT.entry) : Z :=
  match e with
  | METAFILEDEVICECONTEXT.TheHeader =>
      ENHMETAHEADER.nSize (METAFILEDEVICECONTEXT.header c)
  | METAFILEDEVICECONTEXT.Owned r => METARECORD.size r
  end.

Definition recorded_bytes (c : METAFILEDEVICECONTEXT.t) : Z :=
  total (map (entry_size c) (METAFILEDEVICECONTEXT.records c)).

Definition is_owned (e : METAFILEDEVICECONTEXT.entry) : Prop :=
  match e with
  | METAFILEDEVICECONTEXT.TheHeader => False
  | METAFILEDEVICECONTEXT.Owned _ => True
  end.


(** The running extremes are ordered and have the origin between them. *)
Definition extremes_ordered (c : METAFILEDEVICECONTEXT.t) : Prop :=
  let lo := METAFILEDEVICECONTEXT.min_device_point c in
  let hi := METAFILEDEVICECONTEXT.max_device_point c in
  x lo <= 0 <= x hi /\ y lo <= 0 <= y hi.

(** ** Well-formed text records *)

Definition is_EMRTEXT (e : EMRTEXT) : Prop :=
  is_POINTL (ptlReference e) /\ is_DWORD (nChars e) /\ is_DWORD (offString e) /\
  is_DWORD (fOptions e) /\ is_RECTL (rcl e) /\ is_DWORD (offDx e).

(** The fixed part of an [EMREXTTEXTOUTA] record on the stream: 76 bytes. *)
Definition wire_text_fields (e : EMR) (bounds : RECTL)
    (graphicsMode xScale yScale : Z) (text : EMRTEXT) : list byte :=
  wire_EMR e ++ wire_RECTL bounds ++ le_bytes 4 graphicsMode ++
  le_bytes 4 xScale ++ le_bytes 4 yScale ++ wire_EMRTEXT text.

(** A text record whose fields are in range and whose buffers are the ones
    its offsets and counts announce. *)
Definition exttextouta_wf (r : EMREXTTEXTOUTA.t) : Prop :=
  let text := EMREXTTEXTOUTA.emrtext r in
  let R := ROUND_TO_LONG (nChars text) in
  is_DWORD (iType (EMREXTTEXTOUTA.emr r)) /\
  is_DWORD (nSize (EMREXTTEXTOUTA.emr r)) /\
  is_RECTL (EMREXTTEXTOUTA.rclBounds r) /\
  is_DWORD (EMREXTTEXTOUTA.iGraphicsMode r) /\
  is_DWORD (EMREXTTEXTOUTA.exScale r) /\ is_DWORD (EMREXTTEXTOUTA.eyScale r) /\
  is_EMRTEXT text /\
  0 < offString text <= nSize (EMREXTTEXTOUTA.emr r) /\
  nChars text <= nSize (EMREXTTEXTOUTA.emr r) - offString text /\
  R < 2 ^ 31 /\
  (exists s, EMREXTTEXTOUTA.string_a r = Some s /\ length s = Z.to_nat R) /\
  EMREXTTEXTOUTA.string_size r = Some R /\
  match EMREXTTEXTOUTA.dx_i r with
  | Some d => offDx text <> 0 /\ length d = Z.to_nat (nChars text) /\
              Forall is_LONG d
  | None => offDx text = 0
  end.

(** ** Descriptions

    The description the constructor documents: two NUL-terminated strings
    and one more NUL, as in ["application\0title\0\0"]; what lies behind the
    third NUL in the caller's memory is [beyond]. *)
Definition is_WCHAR_text (s : list Z) : Prop :=
  Forall (fun c => is_WORD c /\ c <> 0) s.

Definition description_of (application title beyond : list Z) : list Z :=
  application ++ 0 :: title ++ 0 :: 0 :: beyond.

(** A header that declares five code units of description in a record of
    108 bytes, which leaves room for none. *)
Definition overdeclared_header : ENHMETAHEADER.t :=
  ENHMETAHEADER.mk EMR_HEADER 108 (mkRECTL 0 0 0 0) (mkRECTL 0 0 0 0)
    ENHMETA_SIGNATURE 65536 108 1 0 0 5 108 0
    (mkSIZEL XMAX_PIXELS YMAX_PIXELS) (mkSIZEL XMAX_MM YMAX_MM) 0 0 0
    (mkSIZEL 320000 240000) None 0.

(** ** Single-array point records

    [EMRPOLYLINE], [EMRPOLYGON], [EMRPOLYBEZIER], [EMRPOLYBEZIERTO],
    [EMRPOLYLINETO] and their 16-bit twins are one text up to the class
    name: they differ in the record tag, in the size of the structure and
    in the width of a point.  Tags and structure sizes are declared in
    [wingdi.h], which is not among the sources; the model takes both as
    parameters, [EMR_tag] and [sizeof_struct]. *)

Module EMRPOLYLINE.

Record t := mk {
  emr : EMR;
  rclBounds : RECTL;
  cptl : Z;                 (* [cpts] in the 16-bit classes *)
  lpoints : list POINT
}.

Section PolyLine.
Variable pf : platform.
Variable k : EMRPOLYPOLYGON.kind.
Variable EMR_tag : Z.
Variable sizeof_struct : Z.

(** [EMRPOLYLINE ( const RECTL* bounds, const POINT* points, INT n )].
    The 16-bit classes store each coordinate in 16 bits ([EMRPOLYGON16]
    declares [n] as [INT16]).  The source allocates [cptl] points and fills
    the first [n]; for [0 <= n] these are the same. *)
Definition EMRPOLYLINE (bounds : RECTL) (points : list POINT) (n : Z) : t :=
  let cptl' := to_DWORD n in
  {| emr := mkEMR EMR_tag
              (to_DWORD (to_size_t pf
                 (sizeof_struct
                  + EMRPOLYPOLYGON.sizeof_point k * to_DWORD (cptl' - 1))));
     rclBounds := bounds;
     cptl := cptl';
     lpoints := map (EMRPOLYPOLYGON.store_point k) (take (Z.to_nat n) points) |}.

(** [EMRPOLYLINE ( DATASTREAM& ds )].  Both sides of the size test are
    computed in [size_t]. *)
Definition parse : io t :=
  emr' <- read_EMR pf ;; rclBounds' <- read_RECTL pf ;;
  cptl' <- read_DWORD pf ;;
  if to_size_t pf (nSize emr'
                   - to_size_t pf (sizeof_struct - EMRPOLYPOLYGON.sizeof_point k))
     <? to_size_t pf (EMRPOLYPOLYGON.sizeof_point k * cptl')
  then throw InvalidRecordSize
  else
    buffer <- EMRPOLYPOLYGON.read_points pf k (Z.to_nat cptl') ;;
    ret {| emr := emr'; rclBounds := rclBounds'; cptl := cptl';
           lpoints := buffer |}.

(** [bool serialize ( DATASTREAM ds )] *)
Definition serialize (r : t) : io unit :=
  write_EMR pf (emr r) ;;; write_RECTL pf (rclBounds r) ;;;
  write_DWORD pf (cptl r) ;;;
  EMRPOLYPOLYGON.write_points pf k (lpoints r) (Z.to_nat (cptl r)).
End PolyLine.

(** [int size ( void ) const { return emr.nSize; }] *)
Definition size (r : t) : Z := to_LONG (nSize (emr r)).

End EMRPOLYLINE.

(** ** The end-of-file record *)

Module EMREOF.

Record t := mk {
  emr : EMR;
  nPalEntries : Z;
  offPalEntries : Z;
  nSizeLast : Z
}.

Section Eof.
Variable pf : platform.

(** [EMREOF ( DATASTREAM& ds )] *)
Definition parse : io t :=
  emr' <- read_EMR pf ;; nPalEntries' <- read_DWORD pf ;;
  offPalEntries' <- read_DWORD pf ;; nSizeLast' <- read_DWORD pf ;;
  ret {| emr := emr'; nPalEntries := nPalEntries';
         offPalEntries := offPalEntries'; nSizeLast := nSizeLast' |}.

(** [bool serialize ( DATASTREAM ds )] *)
Definition serialize (r : t) : io unit :=
  write_EMR pf (emr r) ;;; write_DWORD pf (nPalEntries r) ;;;
  write_DWORD pf (offPalEntries r) ;;; write_DWORD pf (nSizeLast r).
End Eof.

(** [int size ( void ) const { return emr.nSize; }] *)
Definition size (r : t) : Z := to_LONG (nSize (emr r)).

End EMREOF.

(** ** The miter-limit record *)

Module EMRSETMITERLIMIT.

Record t := mk {
  emr : EMR;
  eMiterLimit : spec_float
}.

Section MiterLimit.
Variable pf : platform.

(** [EMRSETMITERLIMIT ( DATASTREAM& ds )]: the limit is read as an [int]
    and converted. *)
Definition parse : io t :=
  emr' <- read_EMR pf ;; miter_limit <- read_INT pf ;;
  ret {| emr := emr'; eMiterLimit := Float.of_Z miter_limit |}.

(** [bool serialize ( DATASTREAM ds )]: writes [(int)eMiterLimit].  The
    conversion is defined in the source only when the integer part fits
    an [int]. *)
Definition serialize (r : t) : io unit :=
  write_EMR pf (emr r) ;;; write_INT pf (Float.trunc (eMiterLimit r)).
End MiterLimit.

(** [int size ( void ) const { return emr.nSize; }] *)
Definition size (r : t) : Z := to_LONG (nSize (emr r)).

End EMRSETMITERLIMIT.

(** Wire images of these records. *)
Definition wire_EMRPOLYLINE (k : EMRPOLYPOLYGON.kind) (r : EMRPOLYLINE.t) : list byte :=
  wire_EMR (EMRPOLYLINE.emr r) ++ wire_RECTL (EMRPOLYLINE.rclBounds r) ++
  le_bytes 4 (EMRPOLYLINE.cptl r) ++
  wire_each (wire_point k)
    (take (Z.to_nat (EMRPOLYLINE.cptl r)) (EMRPOLYLINE.lpoints r)).

Definition wire_EMREOF (r : EMREOF.t) : list byte :=
  wire_EMR (EMREOF.emr r) ++ le_bytes 4 (EMREOF.nPalEntries r) ++
  le_bytes 4 (EMREOF.offPalEntries r) ++ le_bytes 4 (EMREOF.nSizeLast r).


(** The bytes of a point record's fixed part: 28 bytes. *)
Definition wire_poly_fields (e : EMR) (bounds : RECTL) (cp : Z) : list byte :=
  wire_EMR e ++ wire_RECTL bounds ++ le_bytes 4 cp.

Definition is_EMREOF (r : EMREOF.t) : Prop :=
  is_DWORD (iType (EMREOF.emr r)) /\ is_DWORD (nSize (EMREOF.emr r)) /\
  is_DWORD (EMREOF.nPalEntries r) /\ is_DWORD (EMREOF.offPalEntries r) /\
  is_DWORD (EMREOF.nSizeLast r).

(** ** Values as they come back from the stream *)

Definition wrap_RECTL (r : RECTL) : RECTL :=
  mkRECTL (to_LONG (left r)) (to_LONG (top r)) (to_LONG (right r)) (to_LONG (bottom r)).
Definition wrap_SIZEL (s : SIZEL) : SIZEL := mkSIZEL (to_LONG (cx s)) (to_LONG (cy s)).
Definition wrap_POINTL (p : POINT) : POINT := mkPOINT (to_LONG (x p)) (to_LONG (y p)).
Definition wrap_POINT16 (p : POINT) : POINT := mkPOINT (to_INT16 (x p)) (to_INT16 (y p)).
Definition wrap_EMR (e : EMR) : EMR := mkEMR (to_DWORD (iType e)) (to_DWORD (nSize e)).
Definition wrap_EMRTEXT (e : EMRTEXT) : EMRTEXT :=
  mkEMRTEXT (wrap_POINTL (ptlReference e)) (to_DWORD (nChars e))
    (to_DWORD (offString e)) (to_DWORD (fOptions e)) (wrap_RECTL (rcl e))
    (to_DWORD (offDx e)).

(** ** Wide text records *)

Module EMREXTTEXTOUTW.

Record t := mk {
  emr : EMR;
  rclBounds : RECTL;
  iGraphicsMode : Z;
  exScale : Z;                        (* the 32 bits of the [FLOAT] *)
  eyScale : Z;
  emrtext : EMRTEXT;
  string_a : option (list Z);         (* [None] is the null pointer *)
  string_size : option Z;             (* [None]: never assigned *)
  dx_i : option (list Z)
}.

Section ExtTextOutW.
Variable pf : platform.
(** [EMR_EXTTEXTOUTW] and [sizeof( ::EMREXTTEXTOUTW )] are declared in
    [wingdi.h], which is not among the sources. *)
Variable EMR_tag : Z.
Variable sizeof_struct : Z.

(** [EMREXTTEXTOUTW ( const RECTL* bounds, DWORD graphicsMode, FLOAT xScale,
    FLOAT yScale, const PEMRTEXT text, LPCWSTR string, const INT* dx )] *)
Definition EMREXTTEXTOUTW (bounds : RECTL) (graphicsMode xScale yScale : Z)
    (text : EMRTEXT) (string : list Z) (dx : option (list Z)) : t :=
  let n := Z.to_nat (nChars text) in
  let string_size' := to_LONG (ROUND_TO_LONG (nChars text)) in
  let buf := take n string ++ replicate (Z.to_nat string_size' - n) 0 in
  let offString' := to_DWORD (to_size_t pf sizeof_struct) in
  let nSize1 :=
    to_DWORD (to_size_t pf (offString' + to_size_t pf string_size' * sizeof_WCHAR)) in
  {| emr := mkEMR EMR_tag
              (match dx with
               | Some _ =>
                   to_DWORD (to_size_t pf (nSize1 + nChars text * sizeof_INT))
               | None => nSize1
               end);
     rclBounds := bounds;
     iGraphicsMode := graphicsMode;
     exScale := xScale;
     eyScale := yScale;
     emrtext := EMREXTTEXTOUTA.with_offsets text offString'
                  (match dx with Some _ => nSize1 | None => 0 end);
     string_a := Some buf;
     string_size := Some string_size';
     dx_i := match dx with Some d => Some (take n d) | None => None end |}.

(** [EMREXTTEXTOUTW ( DATASTREAM& ds )] *)
Definition parse : io t :=
  emr' <- read_EMR pf ;; rclBounds' <- read_RECTL pf ;;
  iGraphicsMode' <- read_DWORD pf ;;
  exScale' <- read_FLOAT pf ;; eyScale' <- read_FLOAT pf ;;
  emrtext' <- read_EMRTEXT pf ;;
  if (0 <? nChars emrtext') && (offString emrtext' =? 0) then
    throw InvalidTextSpecification
  else if to_DWORD (nSize emr' - offString emrtext') <? nChars emrtext' then
    throw InvalidTextSpecification
  else
    str <- (if negb (offString emrtext' =? 0) then
              let string_size' := to_LONG (ROUND_TO_LONG (nChars emrtext')) in
              cbuffer <- read_WCHARSTR pf (Z.to_nat string_size') ;;
              ret (Some cbuffer, Some string_size')
            else ret (None, None)) ;;
    ibuffer <- (if negb (offDx emrtext' =? 0) then
                  dx_is <- read_INTARRAY pf (Z.to_nat (nChars emrtext')) ;;
                  ret (Some dx_is)
                else ret None) ;;
    ret {| emr := emr'; rclBounds := rclBounds';
           iGraphicsMode := iGraphicsMode';
           exScale := exScale'; eyScale := eyScale';
           emrtext := emrtext';
           string_a := fst str; string_size := snd str;
           dx_i := ibuffer |}.

(** [bool serialize ( DATASTREAM ds )].  With [string_size] never assigned
    the source transfers an indeterminate number of code units; the model
    transfers none. *)
Definition serialize (r : t) : io unit :=
  write_EMR pf (emr r) ;;; write_RECTL pf (rclBounds r) ;;;
  write_DWORD pf (iGraphicsMode r) ;;;
  write_FLOAT pf (exScale r) ;;; write_FLOAT pf (eyScale r) ;;;
  write_EMRTEXT pf (emrtext r) ;;;
  write_WCHARSTR pf (match string_a r with Some s => s | None => [] end)
    (match string_size r with Some n => Z.to_nat n | None => O end) ;;;
  match dx_i r with
  | Some d => write_INTARRAY pf d (Z.to_nat (nChars (emrtext r)))
  | None => ret tt
  end.
End ExtTextOutW.

(** [int size ( void ) const { return emr.nSize; }] *)
Definition size (r : t) : Z := to_LONG (nSize (emr r)).

End EMREXTTEXTOUTW.

Definition wire_EMREXTTEXTOUTW (r : EMREXTTEXTOUTW.t) : list byte :=
  wire_text_fields (EMREXTTEXTOUTW.emr r) (EMREXTTEXTOUTW.rclBounds r)
    (EMREXTTEXTOUTW.iGraphicsMode r) (EMREXTTEXTOUTW.exScale r)
    (EMREXTTEXTOUTW.eyScale r) (EMREXTTEXTOUTW.emrtext r) ++
  wire_each (le_bytes 2)
    (take (match EMREXTTEXTOUTW.string_size r with Some n => Z.to_nat n | None => O end)
          (match EMREXTTEXTOUTW.string_a r with Some s => s | None => [] end)) ++
  match EMREXTTEXTOUTW.dx_i r with
  | Some d => wire_each (le_bytes 4)
                (take (Z.to_nat (nChars (EMREXTTEXTOUTW.emrtext r))) d)
  | None => []
  end.

(** A wide text record whose fields are in range, which passes the two
    text checks and whose buffers are the ones its offsets and counts
    announce. *)
Definition exttextoutw_wf (r : EMREXTTEXTOUTW.t) : Prop :=
  let text := EMREXTTEXTOUTW.emrtext r in
  let R := ROUND_TO_LONG (nChars text) in
  is_DWORD (iType (EMREXTTEXTOUTW.emr r)) /\
  is_DWORD (nSize (EMREXTTEXTOUTW.emr r)) /\
  is_RECTL (EMREXTTEXTOUTW.rclBounds r) /\
  is_DWORD (EMREXTTEXTOUTW.iGraphicsMode r) /\
  is_DWORD (EMREXTTEXTOUTW.exScale r) /\ is_DWORD (EMREXTTEXTOUTW.eyScale r) /\
  is_EMRTEXT text /\
  0 < offString text <= nSize (EMREXTTEXTOUTW.emr r) /\
  nChars text <= nSize (EMREXTTEXTOUTW.emr r) - offString text /\
  R < 2 ^ 31 /\
  (exists s, EMREXTTEXTOUTW.string_a r = Some s /\ length s = Z.to_nat R /\
             Forall is_WORD s) /\
  EMREXTTEXTOUTW.string_size r = Some R /\
  match EMREXTTEXTOUTW.dx_i r with
  | Some d => offDx text <> 0 /\ length d = Z.to_nat (nChars text) /\
              Forall is_LONG d
  | None => offDx text = 0
  end.

(** * Properties *)

(** ** Machine integers and bytes *)

Lemma Z_of_byte_range (b : byte) : 0 <= Z_of_byte b < 256.
Proof.
  unfold Z_of_byte. pose proof (Byte.to_N_bounded b). lia.
Qed.

Lemma byte_of_Z_of_byte (b : byte) : byte_of_Z (Z_of_byte b) = b.
Proof.
  unfold byte_of_Z, Z_of_byte. rewrite N2Z.id, Byte.of_to_N. reflexivity.
Qed.

Lemma Z_of_byte_of_Z (z : Z) : 0 <= z < 256 -> Z_of_byte (byte_of_Z z) = z.
Proof.
  intros Hz. unfold byte_of_Z, Z_of_byte.
  pose proof (Byte.to_of_N_option_map (Z.to_N z)) as H.
  destruct (Byte.of_N (Z.to_N z)) as [b|] eqn:E; simpl in H.
  - destruct (N.leb_spec (Z.to_N z) 255) as [Hle|Hgt]; [|discriminate].
    injection H as ->. lia.
  - destruct (N.leb_spec (Z.to_N z) 255) as [Hle|Hgt]; [discriminate|]. lia.
Qed.

Lemma length_le_bytes (w : nat) (v : Z) : length (le_bytes w v) = w.
Proof. revert v. induction w as [|w IH]; intros v; simpl; [|rewrite IH]; reflexivity. Qed.

Lemma le_value_le_bytes (w : nat) (v : Z) :
  le_value (le_bytes w v) = v mod 256 ^ Z.of_nat w.
Proof.
  revert v. induction w as [|w IH]; intros v.
  - simpl. rewrite Z.mod_1_r. reflexivity.
  - cbn [le_bytes le_value]. rewrite IH.
    rewrite Z_of_byte_of_Z by (apply Z.mod_pos_bound; lia).
    rewrite Nat2Z.inj_succ, Z.pow_succ_r by lia.
    rewrite Z.rem_mul_r by lia. lia.
Qed.

Lemma le_bytes_le_value (bs : list byte) :
  le_bytes (length bs) (le_value bs) = bs.
Proof.
  induction bs as [|b bs IH]; [reflexivity|].
  cbn [length le_bytes le_value].
  pose proof (Z_of_byte_range b) as Hb.
  replace (256 * le_value bs) with (le_value bs * 256) by lia.
  rewrite Z.mod_add, Z.div_add by lia.
  rewrite (Z.mod_small (Z_of_byte b)), (Z.div_small (Z_of_byte b)) by lia.
  rewrite Z.add_0_l.
  rewrite byte_of_Z_of_byte, IH. reflexivity.
Qed.

Lemma object_val_rep (pf : platform) (w : nat) (v : Z) :
  object_val pf (object_rep pf w v) = v mod 256 ^ Z.of_nat w.
Proof.
  unfold object_val, object_rep. destruct (bigEndian pf).
  - rewrite rev_involutive. apply le_value_le_bytes.
  - apply le_value_le_bytes.
Qed.

Lemma signed_wrap_id (bits v : Z) :
  0 < bits -> - 2 ^ (bits - 1) <= v < 2 ^ (bits - 1) ->
  signed bits (wrap bits v) = v.
Proof.
  intros Hb Hv. unfold signed, wrap.
  assert (H2 : 2 ^ bits = 2 * 2 ^ (bits - 1)).
  { replace bits with (Z.succ (bits - 1)) at 1 by lia.
    rewrite Z.pow_succ_r by lia. reflexivity. }
  destruct (Z.ltb_spec (v mod 2 ^ bits) (2 ^ (bits - 1))) as [Hlt|Hge].
  - destruct (Z.lt_ge_cases v 0) as [Hn|Hp].
    + rewrite <- (Z.mod_add v 1 (2 ^ bits)) in Hlt by lia.
      rewrite Z.mod_small in Hlt by lia. lia.
    + apply Z.mod_small. lia.
  - destruct (Z.lt_ge_cases v 0) as [Hn|Hp].
    + rewrite <- (Z.mod_add v 1 (2 ^ bits)) by lia.
      rewrite Z.mod_small by lia. lia.
    + rewrite Z.mod_small in Hge by lia. lia.
Qed.

Lemma to_LONG_id (v : Z) : is_LONG v -> to_LONG v = v.
Proof. intros H. apply signed_wrap_id; [lia|exact H]. Qed.

Lemma to_INT16_id (v : Z) : is_INT16 v -> to_INT16 v = v.
Proof. intros H. apply signed_wrap_id; [lia|exact H]. Qed.

Lemma to_DWORD_id (v : Z) : is_DWORD v -> to_DWORD v = v.
Proof. intros H. apply Z.mod_small. exact H. Qed.

Lemma to_WORD_id (v : Z) : is_WORD v -> to_WORD v = v.
Proof. intros H. apply Z.mod_small. exact H. Qed.

Lemma to_size_t_id (pf : platform) (v : Z) : is_DWORD v -> to_size_t pf v = v.
Proof.
  intros H. apply Z.mod_small. unfold is_DWORD in H. unfold size_t_bits.
  destruct (size_t pf); lia.
Qed.

Lemma to_DWORD_size_t (pf : platform) (v : Z) :
  to_DWORD (to_size_t pf v) = to_DWORD v.
Proof.
  unfold to_DWORD, to_size_t, wrap, size_t_bits.
  apply Z.mod_mod_divide.
  destruct (size_t pf); [exists 1 | exists (2 ^ 32)]; reflexivity.
Qed.

Lemma ROUND_TO_LONG_spec (n : Z) :
  0 <= n -> n + 3 < 2 ^ 32 ->
  ROUND_TO_LONG n = (n + 3) / 4 * 4 /\
  n <= ROUND_TO_LONG n < n + 4 /\ ROUND_TO_LONG n mod 4 = 0.
Proof.
  intros H0 H1. unfold ROUND_TO_LONG.
  rewrite (to_DWORD_id (n + 3)) by (unfold is_DWORD; lia).
  pose proof (Z.div_mod (n + 3) 4 ltac:(lia)) as Hd.
  pose proof (Z.mod_pos_bound (n + 3) 4 ltac:(lia)) as Hm.
  rewrite to_DWORD_id by (unfold is_DWORD; lia).
  split; [reflexivity|]. split; [lia|]. apply Z.mod_mul. lia.
Qed.

(** ** The stream monad *)

Lemma consume_0 (fp : FILE) : consume 0 fp = fp.
Proof. destruct fp. reflexivity. Qed.

Lemma consume_consume (n m : nat) (fp : FILE) :
  consume m (consume n fp) = consume (n + m) fp.
Proof. unfold consume. simpl. rewrite drop_drop. reflexivity. Qed.

Lemma emit_nil (fp : FILE) : emit [] fp = fp.
Proof.
  destruct fp as [u w r]. unfold emit. simpl.
  rewrite app_nil_r, Nat.sub_0_r. reflexivity.
Qed.

Lemma emit_emit (a b : list byte) (fp : FILE) :
  emit b (emit a fp) = emit (a ++ b) fp.
Proof.
  unfold emit. simpl. rewrite <- app_assoc, length_app.
  f_equal. lia.
Qed.

Lemma bind_Err {A B} (m : io A) (k : A -> io B) (fp : FILE) (e : error) :
  m fp = Err e -> bind m k fp = Err e.
Proof. intros H. unfold bind. rewrite H. reflexivity. Qed.

Lemma bind_Ok {A B} (m : io A) (k : A -> io B) (fp fp' : FILE) (a : A) :
  m fp = Ok (a, fp') -> bind m k fp = k a fp'.
Proof. intros H. unfold bind. rewrite H. reflexivity. Qed.

Section Transfers.
Context {A B : Type}.

Lemma transfers_in_ret (a : A) : transfers_in (ret a) 0.
Proof. intros fp. simpl. exists a. rewrite consume_0. reflexivity. Qed.

Lemma transfers_in_bind (m : io A) (k : A -> io B) (n n' : nat) :
  transfers_in m n -> (forall a, transfers_in (k a) n') ->
  transfers_in (bind m k) (n + n').
Proof.
  intros Hm Hk fp. specialize (Hm fp).
  destruct (Nat.ltb_spec (length (unread fp)) n) as [Hn|Hn].
  - replace (length (unread fp) <? n + n')%nat with true
      by (symmetry; apply Nat.ltb_lt; lia).
    apply bind_Err, Hm.
  - destruct Hm as [a Ha]. rewrite (bind_Ok _ _ _ _ _ Ha).
    specialize (Hk a (consume n fp)).
    assert (Hlen : length (unread (consume n fp)) = (length (unread fp) - n)%nat)
      by (simpl; apply length_drop).
    rewrite Hlen in Hk.
    destruct (Nat.ltb_spec (length (unread fp)) (n + n')) as [Hs|Hs].
    + replace (length (unread fp) - n <? n')%nat with true in Hk
        by (symmetry; apply Nat.ltb_lt; lia).
      exact Hk.
    + replace (length (unread fp) - n <? n')%nat with false in Hk
        by (symmetry; apply Nat.ltb_ge; lia).
      destruct Hk as [b Hb]. exists b. rewrite Hb, consume_consume. reflexivity.
Qed.

Lemma transfers_in_short (m : io A) (n : nat) (fp : FILE) :
  transfers_in m n -> (length (unread fp) < n)%nat -> m fp = Err PrematureEOF.
Proof.
  intros Hm Hlt. specialize (Hm fp).
  apply Nat.ltb_lt in Hlt. rewrite Hlt in Hm. exact Hm.
Qed.
End Transfers.

Lemma transfers_in_map {A B} (m : io A) (f : A -> B) (n : nat) :
  transfers_in m n -> transfers_in (x <- m ;; ret (f x)) n.
Proof.
  intros Hm. replace n with (n + 0)%nat by lia.
  apply transfers_in_bind; [exact Hm|]. intros a. apply transfers_in_ret.
Qed.

Lemma transfers_in_fread (n : nat) : transfers_in (fread n) n.
Proof.
  intros fp. unfold fread.
  destruct (length (unread fp) <? n)%nat; [reflexivity|]. eexists. reflexivity.
Qed.

Lemma transfers_in_fread1 : transfers_in fread1 1.
Proof. apply transfers_in_map, transfers_in_fread. Qed.

Lemma transfers_in_read_each {A} (rd : io A) (w n : nat) :
  transfers_in rd w -> transfers_in (read_each rd n) (n * w).
Proof.
  intros Hrd. induction n as [|n IH]; simpl.
  - apply transfers_in_ret.
  - apply transfers_in_bind; [exact Hrd|]. intros a.
    replace (n * w)%nat with (n * w + 0)%nat by lia.
    apply transfers_in_bind; [exact IH|]. intros l. apply transfers_in_ret.
Qed.

Lemma transfers_out_ret : transfers_out (ret tt) 0.
Proof.
  intros fp. simpl. exists []. split; [reflexivity|].
  rewrite emit_nil. reflexivity.
Qed.

Lemma transfers_out_fwrite (bs : list byte) : transfers_out (fwrite bs) (length bs).
Proof.
  intros fp. unfold fwrite.
  destruct (room fp <? length bs)%nat; [reflexivity|].
  exists bs. split; reflexivity.
Qed.

Lemma transfers_out_bind (m k : io unit) (n n' : nat) :
  transfers_out m n -> transfers_out k n' -> transfers_out (m ;;; k) (n + n').
Proof.
  intros Hm Hk fp. specialize (Hm fp).
  destruct (Nat.ltb_spec (room fp) n) as [Hn|Hn].
  - replace (room fp <? n + n')%nat with true
      by (symmetry; apply Nat.ltb_lt; lia).
    apply bind_Err, Hm.
  - destruct Hm as (bs & Hlen & Hbs). rewrite (bind_Ok _ _ _ _ _ Hbs).
    specialize (Hk (emit bs fp)).
    assert (Hroom : room (emit bs fp) = (room fp - n)%nat)
      by (simpl; rewrite Hlen; reflexivity).
    rewrite Hroom in Hk.
    destruct (Nat.ltb_spec (room fp) (n + n')) as [Hs|Hs].
    + replace (room fp - n <? n')%nat with true in Hk
        by (symmetry; apply Nat.ltb_lt; lia).
      exact Hk.
    + replace (room fp - n <? n')%nat with false in Hk
        by (symmetry; apply Nat.ltb_ge; lia).
      destruct Hk as (bs' & Hlen' & Hbs'). exists (bs ++ bs').
      split; [rewrite length_app; lia|].
      rewrite Hbs', emit_emit. reflexivity.
Qed.

Lemma transfers_out_short (wr : io unit) (n : nat) (fp : FILE) :
  transfers_out wr n -> (room fp < n)%nat -> wr fp = Err WriteError.
Proof.
  intros Hm Hlt. specialize (Hm fp).
  apply Nat.ltb_lt in Hlt. rewrite Hlt in Hm. exact Hm.
Qed.

Lemma transfers_out_enough (wr : io unit) (n : nat) (fp : FILE) :
  transfers_out wr n -> (n <= room fp)%nat ->
  exists bs, length bs = n /\ wr fp = Ok (tt, emit bs fp).
Proof.
  intros Hm Hle. specialize (Hm fp).
  apply Nat.ltb_ge in Hle. rewrite Hle in Hm. exact Hm.
Qed.

Lemma transfers_out_write_each {A} (wr : A -> io unit) (w : nat) (l : list A) :
  (forall a, transfers_out (wr a) w) ->
  transfers_out (write_each wr l) (length l * w).
Proof.
  intros Hwr. induction l as [|a l IH]; simpl.
  - apply transfers_out_ret.
  - apply transfers_out_bind; [apply Hwr|exact IH].
Qed.

(** ** The operators of [DATASTREAM] *)

Section Operators.
Variable pf : platform.

Lemma transfers_in_read2 : transfers_in (read2 pf) 2.
Proof.
  unfold read2, swap_. destruct (bigEndian pf).
  - change 2%nat with (1 + (1 + 0))%nat.
    repeat (apply transfers_in_bind; [apply transfers_in_fread1|intros ?]).
    apply transfers_in_ret.
  - apply transfers_in_map, transfers_in_fread.
Qed.

Lemma transfers_in_read4 : transfers_in (read4 pf) 4.
Proof.
  unfold read4, swap_. destruct (bigEndian pf).
  - change 4%nat with (1 + (1 + (1 + (1 + 0))))%nat.
    repeat (apply transfers_in_bind; [apply transfers_in_fread1|intros ?]).
    apply transfers_in_ret.
  - apply transfers_in_map, transfers_in_fread.
Qed.

Lemma length_object_rep (w : nat) (v : Z) : length (object_rep pf w v) = w.
Proof.
  unfold object_rep. destruct (bigEndian pf);
    rewrite ?length_rev; apply length_le_bytes.
Qed.

Lemma transfers_out_write2 (v : Z) : transfers_out (write2 pf v) 2.
Proof.
  unfold write2, swap_. destruct (bigEndian pf).
  - change 2%nat with (1 + 1)%nat.
    apply transfers_out_bind; apply (transfers_out_fwrite [_]).
  - rewrite <- (length_object_rep 2 v) at 2. apply transfers_out_fwrite.
Qed.

Lemma transfers_out_write4 (v : Z) : transfers_out (write4 pf v) 4.
Proof.
  unfold write4, swap_. destruct (bigEndian pf).
  - change 4%nat with (1 + (1 + (1 + 1)))%nat.
    repeat apply transfers_out_bind; apply (transfers_out_fwrite [_]).
  - rewrite <- (length_object_rep 4 v) at 2. apply transfers_out_fwrite.
Qed.
End Operators.

Lemma transfers_in_seq {A B} (m : io A) (k : A -> io B) (n n' N : nat) :
  transfers_in m n -> (forall a, transfers_in (k a) n') -> (n + n')%nat = N ->
  transfers_in (bind m k) N.
Proof. intros Hm Hk <-. apply transfers_in_bind; assumption. Qed.

Lemma transfers_out_seq (m k : io unit) (n n' N : nat) :
  transfers_out m n -> transfers_out k n' -> (n + n')%nat = N ->
  transfers_out (m ;;; k) N.
Proof. intros Hm Hk <-. apply transfers_out_bind; assumption. Qed.

Create HintDb xfer.

#[local] Hint Resolve transfers_in_ret transfers_in_fread transfers_in_fread1
  transfers_in_read2 transfers_in_read4
  transfers_out_ret transfers_out_fwrite transfers_out_write2
  transfers_out_write4 : xfer.

(** Byte counts of composite transfers: split at every bind, close the
    leaves with the hints, and add up. *)
Ltac xfer :=
  lazymatch goal with
  | |- transfers_in (bind _ _) _ =>
      eapply transfers_in_seq; [xfer | intros ?; xfer | try reflexivity; try lia]
  | |- transfers_out (bind _ _) _ =>
      eapply transfers_out_seq; [xfer | xfer | try reflexivity; try lia]
  | |- _ => solve [eauto with xfer]
  end.

Section Composite.
Variable pf : platform.

Lemma transfers_in_read_WORD : transfers_in (read_WORD pf) 2.
Proof. apply transfers_in_read2. Qed.
Lemma transfers_in_read_INT16 : transfers_in (read_INT16 pf) 2.
Proof. unfold read_INT16. xfer. Qed.
Lemma transfers_in_read_DWORD : transfers_in (read_DWORD pf) 4.
Proof. apply transfers_in_read4. Qed.
Lemma transfers_in_read_LONG : transfers_in (read_LONG pf) 4.
Proof. unfold read_LONG. xfer. Qed.
Lemma transfers_in_read_INT : transfers_in (read_INT pf) 4.
Proof. unfold read_INT. xfer. Qed.
Lemma transfers_in_read_UINT : transfers_in (read_UINT pf) 4.
Proof. apply transfers_in_read4. Qed.
Lemma transfers_in_read_FLOAT : transfers_in (read_FLOAT pf) 4.
Proof. apply transfers_in_read4. Qed.

Lemma transfers_out_write_WORD v : transfers_out (write_WORD pf v) 2.
Proof. apply transfers_out_write2. Qed.
Lemma transfers_out_write_INT16 v : transfers_out (write_INT16 pf v) 2.
Proof. apply transfers_out_write2. Qed.
Lemma transfers_out_write_DWORD v : transfers_out (write_DWORD pf v) 4.
Proof. apply transfers_out_write4. Qed.
Lemma transfers_out_write_LONG v : transfers_out (write_LONG pf v) 4.
Proof. apply transfers_out_write4. Qed.
Lemma transfers_out_write_INT v : transfers_out (write_INT pf v) 4.
Proof. apply transfers_out_write4. Qed.
Lemma transfers_out_write_UINT v : transfers_out (write_UINT pf v) 4.
Proof. apply transfers_out_write4. Qed.
Lemma transfers_out_write_FLOAT v : transfers_out (write_FLOAT pf v) 4.
Proof. apply transfers_out_write4. Qed.

Hint Resolve transfers_in_read_WORD transfers_in_read_INT16
  transfers_in_read_DWORD transfers_in_read_LONG transfers_in_read_INT
  transfers_in_read_UINT transfers_in_read_FLOAT
  transfers_out_write_WORD transfers_out_write_INT16
  transfers_out_write_DWORD transfers_out_write_LONG transfers_out_write_INT
  transfers_out_write_UINT transfers_out_write_FLOAT : xfer.

Lemma transfers_in_read_RECTL : transfers_in (read_RECTL pf) 16.
Proof. unfold read_RECTL. xfer. Qed.
Lemma transfers_in_read_SIZEL : transfers_in (read_SIZEL pf) 8.
Proof. unfold read_SIZEL. xfer. Qed.
Lemma transfers_in_read_EMR : transfers_in (read_EMR pf) 8.
Proof. unfold read_EMR. xfer. Qed.
Lemma transfers_in_read_POINTL : transfers_in (read_POINTL pf) 8.
Proof. unfold read_POINTL. xfer. Qed.
Lemma transfers_in_read_POINT16 : transfers_in (read_POINT16 pf) 4.
Proof. unfold read_POINT16. xfer. Qed.

Lemma transfers_out_write_RECTL r : transfers_out (write_RECTL pf r) 16.
Proof. unfold write_RECTL. xfer. Qed.
Lemma transfers_out_write_SIZEL s : transfers_out (write_SIZEL pf s) 8.
Proof. unfold write_SIZEL. xfer. Qed.
Lemma transfers_out_write_EMR e : transfers_out (write_EMR pf e) 8.
Proof. unfold write_EMR. xfer. Qed.
Lemma transfers_out_write_POINTL p : transfers_out (write_POINTL pf p) 8.
Proof. unfold write_POINTL. xfer. Qed.
Lemma transfers_out_write_POINT16 p : transfers_out (write_POINT16 pf p) 4.
Proof. unfold write_POINT16. xfer. Qed.

Hint Resolve transfers_in_read_RECTL transfers_in_read_SIZEL
  transfers_in_read_EMR transfers_in_read_POINTL transfers_in_read_POINT16
  transfers_out_write_RECTL transfers_out_write_SIZEL transfers_out_write_EMR
  transfers_out_write_POINTL transfers_out_write_POINT16 : xfer.

Lemma transfers_in_read_EMRTEXT : transfers_in (read_EMRTEXT pf) 40.
Proof. unfold read_EMRTEXT. xfer. Qed.
Lemma transfers_out_write_EMRTEXT e : transfers_out (write_EMRTEXT pf e) 40.
Proof. unfold write_EMRTEXT. xfer. Qed.

Lemma transfers_in_read_WCHARSTR n : transfers_in (read_WCHARSTR pf n) (n * 2).
Proof. apply transfers_in_read_each, transfers_in_read_WORD. Qed.
Lemma transfers_in_read_POINTLARRAY n : transfers_in (read_POINTLARRAY pf n) (n * 8).
Proof. apply transfers_in_read_each, transfers_in_read_POINTL. Qed.
Lemma transfers_in_read_POINT16ARRAY n : transfers_in (read_POINT16ARRAY pf n) (n * 4).
Proof. apply transfers_in_read_each, transfers_in_read_POINT16. Qed.
Lemma transfers_in_read_INTARRAY n : transfers_in (read_INTARRAY pf n) (n * 4).
Proof. apply transfers_in_read_each, transfers_in_read_INT. Qed.
Lemma transfers_in_read_DWORDARRAY n : transfers_in (read_DWORDARRAY pf n) (n * 4).
Proof. apply transfers_in_read_each, transfers_in_read_DWORD. Qed.

Lemma transfers_out_write_WCHARSTR s n :
  transfers_out (write_WCHARSTR pf s n) (length (take n s) * 2).
Proof. apply transfers_out_write_each, transfers_out_write_WORD. Qed.
Lemma transfers_out_write_POINTLARRAY p n :
  transfers_out (write_POINTLARRAY pf p n) (length (take n p) * 8).
Proof. apply transfers_out_write_each, transfers_out_write_POINTL. Qed.
Lemma transfers_out_write_POINT16ARRAY p n :
  transfers_out (write_POINT16ARRAY pf p n) (length (take n p) * 4).
Proof. apply transfers_out_write_each, transfers_out_write_POINT16. Qed.
Lemma transfers_out_write_INTARRAY l n :
  transfers_out (write_INTARRAY pf l n) (length (take n l) * 4).
Proof. apply transfers_out_write_each, transfers_out_write_INT. Qed.
Lemma transfers_out_write_DWORDARRAY l n :
  transfers_out (write_DWORDARRAY pf l n) (length (take n l) * 4).
Proof. apply transfers_out_write_each, transfers_out_write_DWORD. Qed.
End Composite.

Lemma transfers_out_write_PADDING n : transfers_out (write_PADDING n) n.
Proof.
  unfold write_PADDING. destruct n as [|n]; simpl.
  - apply transfers_out_ret.
  - pose proof (transfers_out_fwrite (replicate (S n) Byte.x00)) as H.
    rewrite length_replicate in H. exact H.
Qed.

#[local] Hint Resolve transfers_in_read_WORD transfers_in_read_INT16
  transfers_in_read_DWORD transfers_in_read_LONG transfers_in_read_INT
  transfers_in_read_UINT transfers_in_read_FLOAT
  transfers_out_write_WORD transfers_out_write_INT16
  transfers_out_write_DWORD transfers_out_write_LONG transfers_out_write_INT
  transfers_out_write_UINT transfers_out_write_FLOAT
  transfers_in_read_RECTL transfers_in_read_SIZEL
  transfers_in_read_EMR transfers_in_read_POINTL transfers_in_read_POINT16
  transfers_out_write_RECTL transfers_out_write_SIZEL transfers_out_write_EMR
  transfers_out_write_POINTL transfers_out_write_POINT16
  transfers_in_read_EMRTEXT transfers_out_write_EMRTEXT
  transfers_in_read_WCHARSTR transfers_in_read_POINTLARRAY
  transfers_in_read_POINT16ARRAY transfers_in_read_INTARRAY
  transfers_in_read_DWORDARRAY
  transfers_out_write_WCHARSTR transfers_out_write_POINTLARRAY
  transfers_out_write_POINT16ARRAY transfers_out_write_INTARRAY
  transfers_out_write_DWORDARRAY transfers_out_write_PADDING : xfer.

(** ** Short transfers *)

Lemma perform_transfers (pf : platform) (tr : Transfer.t) :
  if Transfer.reading tr
  then transfers_in (Transfer.perform pf tr) (Transfer.requested tr)
  else transfers_out (Transfer.perform pf tr) (Transfer.requested tr).
Proof.
  destruct tr; cbn [Transfer.reading Transfer.perform Transfer.requested];
    unfold Transfer.discard, read_BYTE, write_BYTE, read_CHARSTR,
      write_CHARSTR, read_BYTEARRAY, write_BYTEARRAY;
    try (apply (transfers_in_map _ (fun _ => tt)));
    try (apply (transfers_out_fwrite [_]));
    eauto with xfer.
Qed.

(** C9: every primitive or array transfer of the codec that finds fewer
    bytes available (or writable) than it asks for fails with an error of
    the [StreamError] class; the failure is the result of the whole
    operation it is part of, whatever was to follow: nothing is retried and
    no partial value is delivered. *)
Theorem short_transfer_is_fatal (pf : platform) (tr : Transfer.t) (fp : FILE) :
  (Transfer.transferable tr fp < Transfer.requested tr)%nat ->
  exists e,
    kind_of e = StreamError /\
    Transfer.perform pf tr fp = Err e /\
    forall (B : Type) (k : io B), (Transfer.perform pf tr ;;; k) fp = Err e.
Proof.
  intros Hshort. pose proof (perform_transfers pf tr) as H.
  unfold Transfer.transferable in Hshort.
  destruct (Transfer.reading tr).
  - exists PrematureEOF.
    pose proof (transfers_in_short _ _ fp H Hshort) as E.
    split; [reflexivity|]. split; [exact E|].
    intros B k. apply bind_Err, E.
  - exists WriteError.
    pose proof (transfers_out_short _ _ fp H Hshort) as E.
    split; [reflexivity|]. split; [exact E|].
    intros B k. apply bind_Err, E.
Qed.

Lemma short_transfer_is_fatal_witness :
  exists e,
    kind_of e = StreamError /\
    Transfer.perform msvc_x64 Transfer.In_DWORD
      (mkFILE [Byte.x01; Byte.x02; Byte.x03] [] 0) = Err e /\
    forall (B : Type) (k : io B),
      (Transfer.perform msvc_x64 Transfer.In_DWORD ;;; k)
        (mkFILE [Byte.x01; Byte.x02; Byte.x03] [] 0) = Err e.
Proof.
  apply (short_transfer_is_fatal msvc_x64 Transfer.In_DWORD
           (mkFILE [Byte.x01; Byte.x02; Byte.x03] [] 0)).
  unfold Transfer.transferable. simpl. lia.
Defined.

(** ** The handle table *)

Section Handles.
Import METAFILEDEVICECONTEXT.

Lemma first_free_Some (hs : list bool) (i j : nat) :
  first_free hs i = Some j ->
  exists m, j = (i + m)%nat /\ hs !! m = Some false /\
            forall m', (m' < m)%nat -> hs !! m' = Some true.
Proof.
  revert i. induction hs as [|b hs IH]; intros i H; [discriminate|].
  simpl in H. destruct b.
  - apply IH in H as (m & -> & Hm & Hlow). exists (S m).
    split; [lia|]. split; [exact Hm|].
    intros [|m'] Hlt; [reflexivity|]. apply Hlow. lia.
  - injection H as <-. exists 0%nat. split; [lia|]. split; [reflexivity|].
    intros m' Hlt. lia.
Qed.

Lemma first_free_None (hs : list bool) (i : nat) :
  first_free hs i = None -> forall m, hs !! m <> Some false.
Proof.
  revert i. induction hs as [|b hs IH]; intros i H m.
  - rewrite lookup_nil. discriminate.
  - simpl in H. destruct b; [|discriminate].
    destruct m as [|m]; [discriminate|]. apply (IH _ H).
Qed.

Lemma first_free_is_Some (hs : list bool) (i m : nat) :
  hs !! m = Some false -> exists j, first_free hs i = Some j.
Proof.
  intros Hm. destruct (first_free hs i) as [j|] eqn:E; [eauto|].
  exfalso. exact (first_free_None _ _ E m Hm).
Qed.

Lemma lookup_drop_1 (hs : list bool) (m : nat) :
  drop 1 hs !! m = hs !! S m.
Proof. rewrite lookup_drop. reflexivity. Qed.

(** The reuse branch of [nextHandle]. *)
Lemma nextHandle_reuse (c : t) (j : nat) :
  free_slot c j ->
  let h := fst (nextHandle c) in
  free_slot c h /\ (h <= j)%nat /\
  (forall i, (1 <= i < h)%nat -> handles c !! i = Some true) /\
  snd (nextHandle c) = set_handles (<[h := true]> (handles c)) c.
Proof.
  intros [Hj1 Hj]. unfold nextHandle.
  destruct j as [|j]; [lia|].
  rewrite <- lookup_drop_1 in Hj.
  destruct (first_free_is_Some _ 1 _ Hj) as [h Hh]. rewrite Hh. simpl.
  apply first_free_Some in Hh as (m & -> & Hm & Hlow).
  rewrite lookup_drop_1 in Hm. split; [split; [lia|exact Hm]|].
  split.
  - destruct (Nat.le_gt_cases (1 + m) (S j)) as [|Hgt]; [assumption|].
    assert (Hlt : (j < m)%nat) by lia.
    specialize (Hlow j Hlt). rewrite Hj in Hlow. discriminate.
  - split; [|reflexivity].
    intros [|i] Hi; [lia|]. rewrite <- lookup_drop_1. apply Hlow. lia.
Qed.

(** The extension branch of [nextHandle]. *)
Lemma nextHandle_extend (c : t) :
  (forall j, ~ free_slot c j) ->
  fst (nextHandle c) = length (handles c) /\
  handles (snd (nextHandle c)) = handles c ++ [true] /\
  ENHMETAHEADER.nHandles (header (snd (nextHandle c))) =
    to_WORD (Z.of_nat (length (handles c)) + 1).
Proof.
  intros Hfull. unfold nextHandle.
  destruct (first_free (drop 1 (handles c)) 1) as [h|] eqn:E.
  - exfalso. apply first_free_Some in E as (m & -> & Hm & _).
    rewrite lookup_drop_1 in Hm. apply (Hfull (1 + m)%nat).
    split; [lia|exact Hm].
  - simpl. rewrite length_app. simpl. split; [lia|]. split; [reflexivity|].
    f_equal. lia.
Qed.

Lemma free_slot_dec (c : t) : (exists j, free_slot c j) \/ (forall j, ~ free_slot c j).
Proof.
  unfold free_slot.
  destruct (first_free (drop 1 (handles c)) 1) as [h|] eqn:E.
  - left. apply first_free_Some in E as (m & -> & Hm & _).
    rewrite lookup_drop_1 in Hm. exists (1 + m)%nat. split; [lia|exact Hm].
  - right. intros [|j] [Hj1 Hj]; [lia|].
    rewrite <- lookup_drop_1 in Hj. exact (first_free_None _ _ E j Hj).
Qed.

Lemma nextHandle_nonzero (c : t) : handles c <> [] -> fst (nextHandle c) <> 0%nat.
Proof.
  intros Hne. destruct (free_slot_dec c) as [[j Hj]|Hfull].
  - destruct (nextHandle_reuse c j Hj) as ([H1 _] & _). lia.
  - destruct (nextHandle_extend c Hfull) as (-> & _).
    destruct (handles c); [congruence|simpl; lia].
Qed.

Lemma clearHandle_handles (g : nat) (c : t) :
  handles (clearHandle g c) = <[g := false]> (handles c).
Proof.
  unfold clearHandle. destruct (Nat.ltb_spec g (length (handles c))) as [H|H].
  - reflexivity.
  - rewrite list_insert_ge by lia. reflexivity.
Qed.

Lemma allocate_last (n : nat) (c : t) (h : nat) :
  last (fst (allocate (S n) (snd (nextHandle c)))) = Some h ->
  last (fst (allocate (S (S n)) c)) = Some h.
Proof.
  intros H. cbn [allocate] in *.
  destruct (nextHandle c) as [h0 c0]. simpl in H.
  destruct (nextHandle c0) as [h1 c1].
  destruct (allocate n c1) as [hs c2]. simpl in *. exact H.
Qed.

(** A free slot is handed out after finitely many allocations: each one
    takes the least free slot, so the distance to [g] shrinks. *)
Lemma free_slot_allocated (d : nat) :
  forall (c : t) (g : nat),
    free_slot c g -> (g - fst (nextHandle c) <= d)%nat ->
    exists n, last (fst (allocate (S n) c)) = Some g.
Proof.
  induction d as [|d IH]; intros c g Hg Hd;
    destruct (nextHandle_reuse c g Hg) as (Hh & Hle & Hlow & Hc').
  - exists 0%nat. cbn [allocate]. destruct (nextHandle c) as [h c'].
    simpl in *. f_equal. lia.
  - destruct (Nat.eq_dec (fst (nextHandle c)) g) as [Heq|Hne].
    + exists 0%nat. cbn [allocate]. destruct (nextHandle c) as [h c'].
      simpl in *. f_equal. exact Heq.
    + set (h := fst (nextHandle c)) in *.
      set (c' := snd (nextHandle c)) in *.
      assert (Hhc : handles c' = <[h := true]> (handles c))
        by (rewrite Hc'; reflexivity).
      assert (Hg' : free_slot c' g).
      { destruct Hg as [Hg1 Hg]. split; [exact Hg1|].
        rewrite Hhc, list_lookup_insert_ne by lia. exact Hg. }
      destruct (nextHandle_reuse c' g Hg') as ([Hh1 Hh'] & Hle' & _ & _).
      assert (Hgt : (h < fst (nextHandle c'))%nat).
      { destruct (Nat.lt_ge_cases h (fst (nextHandle c'))) as [|Hge]; [assumption|].
        exfalso. rewrite Hhc in Hh'.
        destruct (Nat.eq_dec h (fst (nextHandle c'))) as [E|E].
        - rewrite <- E in Hh'.
          rewrite list_lookup_insert_eq in Hh'; [discriminate|].
          destruct Hh as [_ Hh]. apply lookup_lt_Some in Hh. exact Hh.
        - rewrite list_lookup_insert_ne in Hh' by exact E.
          rewrite Hlow in Hh' by lia. discriminate. }
      destruct (IH c' g Hg') as [n Hn]; [lia|].
      exists (S n). apply allocate_last. exact Hn.
Qed.

End Handles.

Section HandleClaims.
Import METAFILEDEVICECONTEXT.

(** C5: handle allocation is first-fit over the used bits, scanned from
    index 1: [nextHandle] never returns 0; when some slot from 1 on is free
    it returns the smallest such slot and only sets its bit (the table
    keeps its length); when none is free it appends one slot and returns
    its index; a handle freed by [clearHandle] is returned again by a later
    allocation; and after allocating 1 to 5 on a fresh context and freeing
    3, the next allocation returns 3. *)
Theorem handle_allocation_first_fit (c : t) :
  handles c <> [] ->
  let h := fst (nextHandle c) in
  let c' := snd (nextHandle c) in
  h <> 0%nat /\
  (forall j, free_slot c j ->
     free_slot c h /\ (h <= j)%nat /\
     handles c' = <[h := true]> (handles c) /\
     length (handles c') = length (handles c)) /\
  ((forall j, ~ free_slot c j) ->
     h = length (handles c) /\ handles c' = handles c ++ [true]) /\
  (forall g, (1 <= g < length (handles c))%nat ->
     exists n, last (fst (allocate (S n) (clearHandle g c))) = Some g) /\
  (forall pf,
     fst (allocate 5 (init pf None None)) = [1; 2; 3; 4; 5]%nat /\
     fst (nextHandle (clearHandle 3 (snd (allocate 5 (init pf None None))))) = 3%nat).
Proof.
  intros Hne h c'. split; [apply nextHandle_nonzero, Hne|].
  split.
  { intros j Hj. destruct (nextHandle_reuse c j Hj) as (Hh & Hle & _ & Hc').
    split; [exact Hh|]. split; [exact Hle|].
    unfold c'. rewrite Hc'. simpl. split; [reflexivity|apply length_insert]. }
  split.
  { intros Hfull. destruct (nextHandle_extend c Hfull) as (Hh & Hc' & _).
    split; assumption. }
  split.
  { intros g [Hg1 Hg2].
    apply (free_slot_allocated (g - fst (nextHandle (clearHandle g c)))).
    - split; [exact Hg1|]. rewrite clearHandle_handles.
      apply list_lookup_insert_eq. exact Hg2.
    - lia. }
  intros pf. split; reflexivity.
Qed.

Lemma handle_allocation_first_fit_witness :
  fst (nextHandle (init msvc_x64 None None)) <> 0%nat.
Proof.
  apply (handle_allocation_first_fit (init msvc_x64 None None)).
  simpl. discriminate.
Defined.

Lemma appendRecord_effect (record : METARECORD.t) (c : t) :
  records (appendRecord record c) = records c ++ [Owned record] /\
  ENHMETAHEADER.nBytes (header (appendRecord record c)) =
    to_DWORD (ENHMETAHEADER.nBytes (header c) + METARECORD.size record) /\
  ENHMETAHEADER.nRecords (header (appendRecord record c)) =
    to_DWORD (ENHMETAHEADER.nRecords (header c) + 1) /\
  ENHMETAHEADER.nHandles (header (appendRecord record c)) =
    ENHMETAHEADER.nHandles (header c).
Proof. repeat split. Qed.

(** C6: [appendRecord] pushes the record at the end of the record list,
    adds its [size()] to the header's [nBytes] and one to [nRecords] (both
    are [DWORD]s); [appendHandle] does exactly the same and no more: it
    leaves [nHandles] as it was, although its documentation says it
    increments the handle count. *)
Theorem appendHandle_leaves_nHandles (record : METARECORD.t) (c : t) :
  records (appendRecord record c) = records c ++ [Owned record] /\
  ENHMETAHEADER.nBytes (header (appendRecord record c)) =
    to_DWORD (ENHMETAHEADER.nBytes (header c) + METARECORD.size record) /\
  ENHMETAHEADER.nRecords (header (appendRecord record c)) =
    to_DWORD (ENHMETAHEADER.nRecords (header c) + 1) /\
  appendHandle record c = appendRecord record c /\
  ENHMETAHEADER.nHandles (header (appendHandle record c)) =
    ENHMETAHEADER.nHandles (header c).
Proof. repeat split. Qed.













End HandleClaims.

(** ** Bounds accumulation *)

Section Bounds.
Import METAFILEDEVICECONTEXT.











End Bounds.

(** ** Wire images: what the operators write and read back *)

Lemma encodes_ret : encodes (ret tt) [].
Proof.
  intros fp. unfold fwrite, ret. simpl. rewrite emit_nil. reflexivity.
Qed.

Lemma encodes_fwrite (bs : list byte) : encodes (fwrite bs) bs.
Proof. intros fp. reflexivity. Qed.

Lemma encodes_bind (m k : io unit) (a b : list byte) :
  encodes m a -> encodes k b -> encodes (m ;;; k) (a ++ b).
Proof.
  intros Hm Hk fp. unfold bind. rewrite Hm. unfold fwrite at 1.
  destruct (Nat.ltb_spec (room fp) (length a)) as [Ha|Ha].
  - unfold fwrite. rewrite length_app.
    replace (room fp <? length a + length b)%nat with true
      by (symmetry; apply Nat.ltb_lt; lia). reflexivity.
  - rewrite Hk. unfold fwrite. simpl. rewrite length_app.
    destruct (Nat.ltb_spec (room fp - length a) (length b)) as [Hb|Hb].
    + replace (room fp <? length a + length b)%nat with true
        by (symmetry; apply Nat.ltb_lt; lia). reflexivity.
    + replace (room fp <? length a + length b)%nat with false
        by (symmetry; apply Nat.ltb_ge; lia).
      rewrite emit_emit. reflexivity.
Qed.

Lemma encodes_write_each {A} (wr : A -> io unit) (w : A -> list byte) (l : list A) :
  (forall a, encodes (wr a) (w a)) -> encodes (write_each wr l) (wire_each w l).
Proof.
  intros H. induction l as [|a l IH]; simpl.
  - apply encodes_ret.
  - apply encodes_bind; [apply H|exact IH].
Qed.

Lemma decodes_ret {A} (a : A) : decodes (ret a) [] a.
Proof. intros [u w r] rest E. simpl in E. subst u. reflexivity. Qed.

Lemma decodes_bind {A B} (m : io A) (k : A -> io B) bs bs' (a : A) (b : B) :
  decodes m bs a -> decodes (k a) bs' b -> decodes (bind m k) (bs ++ bs') b.
Proof.
  intros Hm Hk fp rest E. unfold bind.
  rewrite (Hm fp (bs' ++ rest)) by (rewrite E, app_assoc; reflexivity).
  apply (Hk {| unread := bs' ++ rest; written := written fp; room := room fp |} rest).
  reflexivity.
Qed.

Lemma decodes_map {A B} (m : io A) (f : A -> B) bs (a : A) :
  decodes m bs a -> decodes (x <- m ;; ret (f x)) bs (f a).
Proof.
  intros Hm. rewrite <- (app_nil_r bs).
  eapply decodes_bind; [exact Hm|apply decodes_ret].
Qed.

Lemma decodes_fread (bs : list byte) : decodes (fread (length bs)) bs bs.
Proof.
  intros fp rest E. unfold fread, consume. rewrite E, length_app.
  replace (length bs + length rest <? length bs)%nat with false
    by (symmetry; apply Nat.ltb_ge; lia).
  rewrite take_app_length, drop_app_length. reflexivity.
Qed.

Lemma decodes_read_each {A} (rd : io A) (w : A -> list byte) (ok : A -> Prop) :
  (forall a, ok a -> decodes rd (w a) a) ->
  forall l, Forall ok l -> decodes (read_each rd (length l)) (wire_each w l) l.
Proof.
  intros H l Hl. induction Hl as [|a l Ha Hl IH]; simpl.
  - apply decodes_ret.
  - unfold wire_each. simpl. eapply decodes_bind; [apply H, Ha|].
    rewrite <- (app_nil_r (concat _)).
    eapply decodes_bind; [exact IH|apply decodes_ret].
Qed.

Section WireOperators.
Variable pf : platform.

Lemma read2_eq (fp : FILE) :
  read2 pf fp = (bs <- fread 2 ;; ret (le_value bs)) fp.
Proof.
  unfold read2, swap_, object_val. destruct (bigEndian pf); [|reflexivity].
  destruct fp as [u w r]. destruct u as [|a [|b u]]; reflexivity.
Qed.

Lemma read4_eq (fp : FILE) :
  read4 pf fp = (bs <- fread 4 ;; ret (le_value bs)) fp.
Proof.
  unfold read4, swap_, object_val. destruct (bigEndian pf); [|reflexivity].
  destruct fp as [u w r]. destruct u as [|a [|b [|c [|d u]]]]; reflexivity.
Qed.

Lemma decodes_read2 (v : Z) : decodes (read2 pf) (le_bytes 2 v) (v mod 2 ^ 16).
Proof.
  intros fp rest E. rewrite read2_eq.
  pose proof (decodes_map (fread 2) le_value _ _ (decodes_fread (le_bytes 2 v))) as H.
  rewrite (le_value_le_bytes 2 v) in H. apply H. exact E.
Qed.

Lemma decodes_read4 (v : Z) : decodes (read4 pf) (le_bytes 4 v) (v mod 2 ^ 32).
Proof.
  intros fp rest E. rewrite read4_eq.
  pose proof (decodes_map (fread 4) le_value _ _ (decodes_fread (le_bytes 4 v))) as H.
  rewrite (le_value_le_bytes 4 v) in H. apply H. exact E.
Qed.

Lemma encodes_write2 (v : Z) : encodes (write2 pf v) (le_bytes 2 v).
Proof.
  intros fp. unfold write2, swap_, object_rep. destruct (bigEndian pf).
  - change (le_bytes 2 v) with ([byte_of_Z (v mod 256)] ++ [byte_of_Z (v / 256 mod 256)]).
    apply encodes_bind; apply encodes_fwrite.
  - reflexivity.
Qed.

Lemma encodes_write4 (v : Z) : encodes (write4 pf v) (le_bytes 4 v).
Proof.
  intros fp. unfold write4, swap_, object_rep. destruct (bigEndian pf).
  - change (le_bytes 4 v)
      with ([byte_of_Z (v mod 256)] ++ [byte_of_Z (v / 256 mod 256)] ++
            [byte_of_Z (v / 256 / 256 mod 256)] ++
            [byte_of_Z (v / 256 / 256 / 256 mod 256)]).
    repeat apply encodes_bind; apply encodes_fwrite.
  - reflexivity.
Qed.

Lemma decodes_read_DWORD (v : Z) :
  is_DWORD v -> decodes (read_DWORD pf) (le_bytes 4 v) v.
Proof.
  intros Hv. pose proof (decodes_read4 v) as H.
  rewrite Z.mod_small in H by exact Hv. exact H.
Qed.

Lemma decodes_read_WORD (v : Z) :
  is_WORD v -> decodes (read_WORD pf) (le_bytes 2 v) v.
Proof.
  intros Hv. pose proof (decodes_read2 v) as H.
  rewrite Z.mod_small in H by exact Hv. exact H.
Qed.

Lemma decodes_read_LONG (v : Z) :
  is_LONG v -> decodes (read_LONG pf) (le_bytes 4 v) v.
Proof.
  intros Hv. pose proof (decodes_map _ (signed 32) _ _ (decodes_read4 v)) as H.
  change (signed 32 (v mod 2 ^ 32)) with (to_LONG v) in H.
  rewrite to_LONG_id in H by exact Hv. exact H.
Qed.

Lemma decodes_read_INT16 (v : Z) :
  is_INT16 v -> decodes (read_INT16 pf) (le_bytes 2 v) v.
Proof.
  intros Hv. pose proof (decodes_map _ (signed 16) _ _ (decodes_read2 v)) as H.
  change (signed 16 (v mod 2 ^ 16)) with (to_INT16 v) in H.
  rewrite to_INT16_id in H by exact Hv. exact H.
Qed.

Lemma decodes_read_RECTL (r : RECTL) :
  is_RECTL r -> decodes (read_RECTL pf) (wire_RECTL r) r.
Proof.
  destruct r as [l t r b]. intros (Hl & Ht & Hr & Hb).
  unfold read_RECTL, wire_RECTL. cbn [left top right bottom] in *.
  repeat (eapply decodes_bind; [apply decodes_read_LONG; assumption|]).
  apply (decodes_map _ (fun v => mkRECTL l t r v)).
  apply decodes_read_LONG; assumption.
Qed.

Lemma decodes_read_SIZEL (s : SIZEL) :
  is_SIZEL s -> decodes (read_SIZEL pf) (wire_SIZEL s) s.
Proof.
  destruct s as [a b]. intros (Ha & Hb).
  unfold read_SIZEL, wire_SIZEL. cbn [cx cy] in *.
  eapply decodes_bind; [apply decodes_read_LONG; assumption|].
  apply (decodes_map _ (fun v => mkSIZEL a v)).
  apply decodes_read_LONG; assumption.
Qed.

Lemma decodes_read_POINTL (p : POINT) :
  is_POINTL p -> decodes (read_POINTL pf) (wire_POINTL p) p.
Proof.
  destruct p as [a b]. intros (Ha & Hb).
  unfold read_POINTL, wire_POINTL. cbn [x y] in *.
  eapply decodes_bind; [apply decodes_read_LONG; assumption|].
  apply (decodes_map _ (fun v => mkPOINT a v)).
  apply decodes_read_LONG; assumption.
Qed.

Lemma decodes_read_POINT16 (p : POINT) :
  is_POINT16 p -> decodes (read_POINT16 pf) (wire_POINT16 p) p.
Proof.
  destruct p as [a b]. intros (Ha & Hb).
  unfold read_POINT16, wire_POINT16. cbn [x y] in *.
  eapply decodes_bind; [apply decodes_read_INT16; assumption|].
  apply (decodes_map _ (fun v => mkPOINT a v)).
  apply decodes_read_INT16; assumption.
Qed.

Lemma decodes_read_EMR (e : EMR) :
  is_DWORD (iType e) -> is_DWORD (nSize e) ->
  decodes (read_EMR pf) (wire_EMR e) e.
Proof.
  destruct e as [a b]. intros Ha Hb.
  unfold read_EMR, wire_EMR. cbn [iType nSize] in *.
  eapply decodes_bind; [apply decodes_read_DWORD; assumption|].
  apply (decodes_map _ (fun v => mkEMR a v)).
  apply decodes_read_DWORD; assumption.
Qed.

Lemma encodes_write_RECTL r : encodes (write_RECTL pf r) (wire_RECTL r).
Proof. unfold write_RECTL, wire_RECTL. repeat apply encodes_bind; apply encodes_write4. Qed.
Lemma encodes_write_SIZEL s : encodes (write_SIZEL pf s) (wire_SIZEL s).
Proof. unfold write_SIZEL, wire_SIZEL. repeat apply encodes_bind; apply encodes_write4. Qed.
Lemma encodes_write_EMR e : encodes (write_EMR pf e) (wire_EMR e).
Proof. unfold write_EMR, wire_EMR. repeat apply encodes_bind; apply encodes_write4. Qed.
Lemma encodes_write_POINTL p : encodes (write_POINTL pf p) (wire_POINTL p).
Proof. unfold write_POINTL, wire_POINTL. repeat apply encodes_bind; apply encodes_write4. Qed.
Lemma encodes_write_POINT16 p : encodes (write_POINT16 pf p) (wire_POINT16 p).
Proof. unfold write_POINT16, wire_POINT16. repeat apply encodes_bind; apply encodes_write2. Qed.
Lemma encodes_write_EMRTEXT e : encodes (write_EMRTEXT pf e) (wire_EMRTEXT e).
Proof.
  unfold write_EMRTEXT, wire_EMRTEXT.
  repeat apply encodes_bind;
    first [apply encodes_write4 | apply encodes_write_POINTL | apply encodes_write_RECTL].
Qed.
End WireOperators.

(** ** What [serialize] writes *)

Ltac encodes_step :=
  lazymatch goal with
  | |- encodes (bind _ _) (_ ++ _) => apply encodes_bind; encodes_step
  | |- encodes (write_RECTL _ _) _ => apply encodes_write_RECTL
  | |- encodes (write_SIZEL _ _) _ => apply encodes_write_SIZEL
  | |- encodes (write_EMR _ _) _ => apply encodes_write_EMR
  | |- encodes (write_POINTL _ _) _ => apply encodes_write_POINTL
  | |- encodes (write_POINT16 _ _) _ => apply encodes_write_POINT16
  | |- encodes (write_EMRTEXT _ _) _ => apply encodes_write_EMRTEXT
  | |- encodes (write4 _ _) _ => apply encodes_write4
  | |- encodes (write2 _ _) _ => apply encodes_write2
  | |- encodes (fwrite _) _ => apply encodes_fwrite
  | |- encodes (ret tt) _ => apply encodes_ret
  | |- encodes (write_each _ _) _ =>
      apply encodes_write_each; intros ?; encodes_step
  end.

Section Serialize.
Variable pf : platform.

Lemma encodes_header (h : ENHMETAHEADER.t) :
  encodes (ENHMETAHEADER.serialize pf h) (wire_ENHMETAHEADER h).
Proof.
  unfold ENHMETAHEADER.serialize, wire_ENHMETAHEADER, wire_base, wire_pixel,
    write_WCHARSTR, write_DWORD, write_WORD.
  rewrite <- !app_assoc. encodes_step.
Qed.

Lemma encodes_polypolygon (k : EMRPOLYPOLYGON.kind) (r : EMRPOLYPOLYGON.t) :
  encodes (EMRPOLYPOLYGON.serialize pf k r) (wire_EMRPOLYPOLYGON k r).
Proof.
  unfold EMRPOLYPOLYGON.serialize, wire_EMRPOLYPOLYGON, EMRPOLYPOLYGON.write_points,
    write_DWORDARRAY, write_POINTLARRAY, write_POINT16ARRAY, write_DWORD.
  destruct k; cbn [wire_point]; encodes_step.
Qed.

Lemma encodes_exttextouta (r : EMREXTTEXTOUTA.t) :
  encodes (EMREXTTEXTOUTA.serialize pf r) (wire_EMREXTTEXTOUTA r).
Proof.
  unfold EMREXTTEXTOUTA.serialize, wire_EMREXTTEXTOUTA, write_CHARSTR,
    write_INTARRAY, write_DWORD, write_FLOAT, write_INT.
  destruct (EMREXTTEXTOUTA.dx_i r).
  - encodes_step.
  - rewrite <- (app_nil_r (take _ _)). encodes_step.
Qed.

(** [serialize] is one write of the record's wire image. *)
Lemma serialize_wire (r : METARECORD.t) (fp : FILE) :
  METARECORD.serialize pf r fp = fwrite (wire r) fp.
Proof.
  destruct r as [h|k p|e]; simpl.
  - apply encodes_header.
  - apply encodes_polypolygon.
  - apply encodes_exttextouta.
Qed.
End Serialize.

(** ** Sizes of wire images *)

Lemma length_wire_each {A} (w : A -> list byte) (n : nat) (l : list A) :
  (forall a, length (w a) = n) -> length (wire_each w l) = (length l * n)%nat.
Proof.
  intros H. unfold wire_each. induction l as [|a l IH]; simpl; [reflexivity|].
  rewrite length_app, H, IH. reflexivity.
Qed.

Lemma length_wire_RECTL r : length (wire_RECTL r) = 16%nat.
Proof. reflexivity. Qed.
Lemma length_wire_EMR e : length (wire_EMR e) = 8%nat.
Proof. reflexivity. Qed.
Lemma length_wire_EMRTEXT e : length (wire_EMRTEXT e) = 40%nat.
Proof. reflexivity. Qed.
Lemma length_wire_point k p :
  Z.of_nat (length (wire_point k p)) = EMRPOLYPOLYGON.sizeof_point k.
Proof. destruct k; reflexivity. Qed.



(** ** Counting in the constructors *)


Lemma count_points_from (l : list Z) (acc : Z) :
  Forall (fun c => 0 <= c) l -> 0 <= acc -> acc + total l < 2 ^ 31 ->
  fold_left (fun n c => to_LONG (n + c)) l acc = acc + total l.
Proof.
  intros Hl. revert acc. induction Hl as [|c l Hc Hl IH]; intros acc Ha Hs; simpl in *.
  - lia.
  - assert (Ht : 0 <= total l).
    { clear -Hl. induction Hl; simpl; lia. }
    rewrite to_LONG_id by (unfold is_LONG; lia).
    rewrite IH by lia. lia.
Qed.

Lemma total_nonneg (l : list Z) : Forall (fun c => 0 <= c) l -> 0 <= total l.
Proof. induction 1; simpl; lia. Qed.

Lemma count_points_total (l : list Z) :
  Forall (fun c => 0 <= c) l -> total l < 2 ^ 31 ->
  EMRPOLYPOLYGON.count_points l = total l.
Proof.
  intros Hl Hs. unfold EMRPOLYPOLYGON.count_points.
  rewrite count_points_from by (try assumption; lia). lia.
Qed.

Lemma add_counts_total (l : list Z) (n : Z) :
  Forall (fun c => 0 <= c) l -> 0 <= n -> n + total l < 2 ^ 32 ->
  EMRPOLYPOLYGON.add_counts l n = Some (n + total l).
Proof.
  intros Hl. revert n. induction Hl as [|c l Hc Hl IH]; intros n Hn Hs; simpl in *.
  - f_equal. lia.
  - pose proof (total_nonneg l Hl) as Ht.
    rewrite to_DWORD_id by (unfold is_DWORD; lia).
    destruct (Z.ltb_spec (n + c) n); [lia|].
    rewrite IH by lia. f_equal. lia.
Qed.

Lemma elem_le_total (l : list Z) :
  Forall (fun c => 0 <= c) l -> forall c, In c l -> c <= total l.
Proof.
  induction 1 as [|a l Ha Hl IH]; intros c Hin; simpl in *; [contradiction|].
  pose proof (total_nonneg l Hl). destruct Hin as [->|Hin]; [lia|].
  specialize (IH c Hin). lia.
Qed.

Lemma wrap_linear (a p b q c m : Z) :
  0 < m -> (a + p * (b mod m) + q * (c mod m)) mod m = (a + p * b + q * c) mod m.
Proof.
  intros Hm. rewrite (Z.mod_eq b m), (Z.mod_eq c m) by lia.
  replace (a + p * (b - m * (b / m)) + q * (c - m * (c / m)))
    with (a + p * b + q * c + (- (p * (b / m)) - q * (c / m)) * m) by ring.
  apply Z.mod_add. lia.
Qed.

(** ** Sizes of constructed records *)

Section ConstructedSizes.
Variable pf : platform.

Lemma header_plain_size :
  Z.of_nat (length (wire_ENHMETAHEADER (ENHMETAHEADER.ENHMETAHEADER pf None))) = 108 /\
  ENHMETAHEADER.size (ENHMETAHEADER.ENHMETAHEADER pf None) = 108.
Proof. split; reflexivity. Qed.


Lemma polypolygon_constructed_fields (k : EMRPOLYPOLYGON.kind) (bounds : RECTL)
    (points : list POINT) (counts : list Z) (polygons : Z) :
  0 <= polygons ->
  (Z.to_nat polygons <= length counts)%nat ->
  Forall (fun c => 0 <= c) (take (Z.to_nat polygons) counts) ->
  total (take (Z.to_nat polygons) counts) <= Z.of_nat (length points) ->
  32 + EMRPOLYPOLYGON.sizeof_point k * total (take (Z.to_nat polygons) counts)
     + sizeof_DWORD * polygons < 2 ^ 31 ->
  let r := EMRPOLYPOLYGON.EMRPOLYPOLYGON pf k bounds points counts polygons in
  let n := total (take (Z.to_nat polygons) counts) in
  EMRPOLYPOLYGON.nPolys r = polygons /\
  EMRPOLYPOLYGON.cptl r = n /\
  nSize (EMRPOLYPOLYGON.emr r) = 32 + EMRPOLYPOLYGON.sizeof_point k * n + 4 * polygons /\
  length (EMRPOLYPOLYGON.lcounts r) = Z.to_nat polygons /\
  length (EMRPOLYPOLYGON.lpoints r) = Z.to_nat n /\
  EMRPOLYPOLYGON.lcounts r = take (Z.to_nat polygons) counts /\
  0 <= n.
Proof.
  intros Hp Hlen Hpos Hpts Hsmall r n.
  pose proof (total_nonneg _ Hpos) as Hn. fold n in Hn, Hsmall, Hpts.
  assert (HP : EMRPOLYPOLYGON.sizeof_point k = 8 \/ EMRPOLYPOLYGON.sizeof_point k = 4)
    by (destruct k; [left|right]; reflexivity).
  assert (HS : EMRPOLYPOLYGON.sizeof_struct k = 36 + EMRPOLYPOLYGON.sizeof_point k)
    by (destruct k; reflexivity).
  unfold sizeof_DWORD in *.
  assert (Hcount : EMRPOLYPOLYGON.count_points (take (Z.to_nat polygons) counts) = n).
  { apply count_points_total; [exact Hpos|]. fold n. lia. }
  unfold r, EMRPOLYPOLYGON.EMRPOLYPOLYGON.
  cbn [EMRPOLYPOLYGON.nPolys EMRPOLYPOLYGON.cptl EMRPOLYPOLYGON.emr nSize
       EMRPOLYPOLYGON.lcounts EMRPOLYPOLYGON.lpoints].
  rewrite Hcount. rewrite (to_DWORD_id n) by (unfold is_DWORD; lia).
  split; [reflexivity|]. split; [reflexivity|].
  split.
  { rewrite to_DWORD_size_t. unfold to_DWORD, wrap, sizeof_DWORD.
    rewrite wrap_linear by lia. rewrite HS, Z.mod_small by lia. lia. }
  split; [rewrite length_map, length_take; lia|].
  split; [rewrite length_map, length_take; lia|].
  split; [|exact Hn].
  rewrite <- (map_id (take (Z.to_nat polygons) counts)) at 2.
  apply map_ext_in. intros c Hin. apply to_DWORD_id.
  pose proof (elem_le_total _ Hpos c Hin) as Hc. fold n in Hc.
  rewrite Forall_forall in Hpos. specialize (Hpos c).
  assert (0 <= c) by (apply Hpos, list_elem_of_In, Hin).
  unfold is_DWORD. lia.
Qed.
End ConstructedSizes.

Lemma length_wire_exttextouta (r : EMREXTTEXTOUTA.t) :
  length (wire_EMREXTTEXTOUTA r) =
  (76 + length (take (match EMREXTTEXTOUTA.string_size r with
                      | Some n => Z.to_nat n | None => O end)
                     (match EMREXTTEXTOUTA.string_a r with
                      | Some s => s | None => [] end))
      + match EMREXTTEXTOUTA.dx_i r with
        | Some d => 4 * length (take (Z.to_nat (nChars (EMREXTTEXTOUTA.emrtext r))) d)
        | None => 0
        end)%nat.
Proof.
  unfold wire_EMREXTTEXTOUTA.
  rewrite !length_app, length_wire_EMR, length_wire_RECTL, !length_le_bytes,
    length_wire_EMRTEXT.
  destruct (EMREXTTEXTOUTA.dx_i r).
  - rewrite (length_wire_each _ 4) by reflexivity. lia.
  - simpl. lia.
Qed.

Lemma exttextouta_constructed_size (bounds : RECTL) (graphicsMode xScale yScale : Z)
    (text : EMRTEXT) (string : list byte) (dx : option (list Z)) :
  0 <= nChars text <= Z.of_nat (length string) ->
  (forall d, dx = Some d -> nChars text <= Z.of_nat (length d)) ->
  sizeof_EMREXTTEXTOUTA + nChars text + 3 + sizeof_INT * nChars text < 2 ^ 31 ->
  let r := EMREXTTEXTOUTA.EMREXTTEXTOUTA bounds graphicsMode xScale yScale
             text string dx in
  nSize (EMREXTTEXTOUTA.emr r) =
    76 + ROUND_TO_LONG (nChars text)
       + match dx with Some _ => 4 * nChars text | None => 0 end /\
  Z.of_nat (length (wire_EMREXTTEXTOUTA r)) = EMREXTTEXTOUTA.size r /\
  EMREXTTEXTOUTA.size r mod 4 = 0.
Proof.
  intros Hn Hdx Hsmall r. unfold sizeof_EMREXTTEXTOUTA, sizeof_INT in *.
  destruct (ROUND_TO_LONG_spec (nChars text)) as (_ & HRb & HRm); [lia|lia|].
  set (R := ROUND_TO_LONG (nChars text)) in *.
  assert (HRdiv : R = 4 * (R / 4)).
  { pose proof (Z.div_mod R 4 ltac:(lia)). lia. }
  assert (Hsize : nSize (EMREXTTEXTOUTA.emr r) =
            76 + R + match dx with Some _ => 4 * nChars text | None => 0 end).
  { unfold r, EMREXTTEXTOUTA.EMREXTTEXTOUTA. cbn [EMREXTTEXTOUTA.emr nSize].
    fold R. unfold sizeof_EMREXTTEXTOUTA, sizeof_INT.
    rewrite (to_LONG_id R) by (unfold is_LONG; lia).
    rewrite (to_DWORD_id (76 + R)) by (unfold is_DWORD; lia).
    destruct dx.
    - rewrite (to_DWORD_id (nChars text * 4)) by (unfold is_DWORD; lia).
      rewrite to_DWORD_id by (unfold is_DWORD; lia). lia.
    - lia. }
  split; [exact Hsize|].
  assert (Hsz : EMREXTTEXTOUTA.size r =
            76 + R + match dx with Some _ => 4 * nChars text | None => 0 end).
  { unfold EMREXTTEXTOUTA.size. rewrite Hsize. apply to_LONG_id.
    unfold is_LONG. destruct dx; lia. }
  split.
  - rewrite Hsz, length_wire_exttextouta.
    unfold r, EMREXTTEXTOUTA.EMREXTTEXTOUTA.
    cbn [EMREXTTEXTOUTA.string_size EMREXTTEXTOUTA.string_a EMREXTTEXTOUTA.dx_i
         EMREXTTEXTOUTA.emrtext EMREXTTEXTOUTA.with_offsets nChars].
    fold R. rewrite (to_LONG_id R) by (unfold is_LONG; lia).
    rewrite take_ge
      by (rewrite length_app, length_take, length_replicate; lia).
    rewrite length_app, length_take, length_replicate.
    destruct dx as [d|].
    + specialize (Hdx d eq_refl). rewrite take_take, length_take. lia.
    + lia.
  - rewrite Hsz. destruct dx.
    + rewrite HRdiv. replace (76 + 4 * (R / 4) + 4 * nChars text)
        with ((19 + R / 4 + nChars text) * 4) by lia.
      apply Z.mod_mul. lia.
    + rewrite HRdiv. replace (76 + 4 * (R / 4) + 0)
        with ((19 + R / 4) * 4) by lia.
      apply Z.mod_mul. lia.
Qed.




(** ** Reading the header *)

Section Unserialize.
Variable pf : platform.

Lemma decodes_unserialize (h0 h1 : ENHMETAHEADER.t) (ws : list Z) :
  base_fields_ok h1 -> late_fields_ok h1 ->
  ENHMETAHEADER.offDescription h1 <= ENHMETAHEADER.nSize h1 ->
  Forall is_WORD ws ->
  Z.of_nat (length ws) =
    (ENHMETAHEADER.nSize h1 - ENHMETAHEADER.offDescription h1) / 2 ->
  to_LONG (ENHMETAHEADER.nDescription h1) <= Z.of_nat (length ws) ->
  decodes (ENHMETAHEADER.unserialize pf h0) (header_stream h1 ws)
          (unserialized h0 h1 ws).
Proof.
  intros (H1 & H2 & H3 & H4 & H5 & H6 & H7 & H8 & H9 & H10 & H11 & H12 & H13 & H14 & H15)
         (L1 & L2 & L3 & L4) Hoff Hws Hlen Hdesc.
  unfold ENHMETAHEADER.unserialize, header_stream, wire_base.
  rewrite <- !app_assoc.
  do 2 (eapply decodes_bind; [apply decodes_read_DWORD; assumption|]).
  do 2 (eapply decodes_bind; [apply decodes_read_RECTL; assumption|]).
  do 4 (eapply decodes_bind; [apply decodes_read_DWORD; assumption|]).
  do 2 (eapply decodes_bind; [apply decodes_read_WORD; assumption|]).
  do 3 (eapply decodes_bind; [apply decodes_read_DWORD; assumption|]).
  do 2 (eapply decodes_bind; [apply decodes_read_SIZEL; assumption|]).
  assert (Hread :
    to_LONG (to_size_t pf (to_DWORD (ENHMETAHEADER.nSize h1
                                     - ENHMETAHEADER.offDescription h1))
             / sizeof_WCHAR) = Z.of_nat (length ws)).
  { unfold is_DWORD in H2, H12. unfold sizeof_WCHAR.
    rewrite to_DWORD_id by (unfold is_DWORD; lia).
    rewrite to_size_t_id by (unfold is_DWORD; lia).
    rewrite <- Hlen. apply to_LONG_id. unfold is_LONG.
    pose proof (Z.div_lt_upper_bound
                  (ENHMETAHEADER.nSize h1 - ENHMETAHEADER.offDescription h1)
                  2 (2 ^ 31) ltac:(lia) ltac:(lia)).
    lia. }
  assert (Htail : forall (px : Z * Z * Z) (mic : SIZEL),
    decodes
      (let description_size_to_read :=
         to_LONG (to_size_t pf (to_DWORD (ENHMETAHEADER.nSize h1
                                          - ENHMETAHEADER.offDescription h1))
                  / sizeof_WCHAR) in
       if description_size_to_read <? to_LONG (ENHMETAHEADER.nDescription h1)
       then throw InconsistentDescription
       else
         description <-
           read_WCHARSTR pf (Z.to_nat description_size_to_read) ;;
         ret (ENHMETAHEADER.mk
                (ENHMETAHEADER.iType h1) (ENHMETAHEADER.nSize h1)
                (ENHMETAHEADER.rclBounds h1) (ENHMETAHEADER.rclFrame h1)
                (ENHMETAHEADER.dSignature h1) (ENHMETAHEADER.nVersion h1)
                (ENHMETAHEADER.nBytes h1) (ENHMETAHEADER.nRecords h1)
                (ENHMETAHEADER.nHandles h1) (ENHMETAHEADER.sReserved h1)
                (ENHMETAHEADER.nDescription h1) (ENHMETAHEADER.offDescription h1)
                (ENHMETAHEADER.nPalEntries h1)
                (ENHMETAHEADER.szlDevice h1) (ENHMETAHEADER.szlMillimeters h1)
                (fst (fst px)) (snd (fst px)) (snd px) mic
                (Some (ENHMETAHEADER.terminate
                         (Z.max 2 description_size_to_read)
                         (description ++
                          replicate (Z.to_nat (Z.max 2 description_size_to_read)
                                     - Z.to_nat description_size_to_read) 0)))
                (Z.max 2 description_size_to_read)))
      (wire_each (le_bytes 2) ws)
      (ENHMETAHEADER.mk
         (ENHMETAHEADER.iType h1) (ENHMETAHEADER.nSize h1)
         (ENHMETAHEADER.rclBounds h1) (ENHMETAHEADER.rclFrame h1)
         (ENHMETAHEADER.dSignature h1) (ENHMETAHEADER.nVersion h1)
         (ENHMETAHEADER.nBytes h1) (ENHMETAHEADER.nRecords h1)
         (ENHMETAHEADER.nHandles h1) (ENHMETAHEADER.sReserved h1)
         (ENHMETAHEADER.nDescription h1) (ENHMETAHEADER.offDescription h1)
         (ENHMETAHEADER.nPalEntries h1)
         (ENHMETAHEADER.szlDevice h1) (ENHMETAHEADER.szlMillimeters h1)
         (fst (fst px)) (snd (fst px)) (snd px) mic
         (Some (ENHMETAHEADER.terminate
                  (Z.max 2 (Z.of_nat (length ws)))
                  (ws ++ replicate (Z.to_nat (Z.max 2 (Z.of_nat (length ws)))
                                    - length ws) 0)))
         (Z.max 2 (Z.of_nat (length ws))))).
  { intros px mic. cbv zeta. rewrite Hread.
    destruct (Z.ltb_spec (Z.of_nat (length ws))
                (to_LONG (ENHMETAHEADER.nDescription h1))); [lia|].
    rewrite Nat2Z.id.
    apply (decodes_map (read_WCHARSTR pf (length ws))
             (fun description =>
                ENHMETAHEADER.mk
                  (ENHMETAHEADER.iType h1) (ENHMETAHEADER.nSize h1)
                  (ENHMETAHEADER.rclBounds h1) (ENHMETAHEADER.rclFrame h1)
                  (ENHMETAHEADER.dSignature h1) (ENHMETAHEADER.nVersion h1)
                  (ENHMETAHEADER.nBytes h1) (ENHMETAHEADER.nRecords h1)
                  (ENHMETAHEADER.nHandles h1) (ENHMETAHEADER.sReserved h1)
                  (ENHMETAHEADER.nDescription h1) (ENHMETAHEADER.offDescription h1)
                  (ENHMETAHEADER.nPalEntries h1)
                  (ENHMETAHEADER.szlDevice h1) (ENHMETAHEADER.szlMillimeters h1)
                  (fst (fst px)) (snd (fst px)) (snd px) mic
                  (Some (ENHMETAHEADER.terminate
                           (Z.max 2 (Z.of_nat (length ws)))
                           (description ++
                            replicate (Z.to_nat (Z.max 2 (Z.of_nat (length ws)))
                                       - length ws) 0)))
                  (Z.max 2 (Z.of_nat (length ws))))).
    unfold read_WCHARSTR.
    apply (decodes_read_each _ _ is_WORD); [|exact Hws].
    intros a Ha. apply decodes_read_WORD. exact Ha. }
  unfold unserialized, has_pixel, has_micrometers.
  unfold OffsetOf_szlMicrometers, sizeof_ENHMETAHEADER in *.
  destruct (Z.leb_spec 100 (ENHMETAHEADER.offDescription h1)) as [Hpx|Hpx];
    destruct (Z.leb_spec 108 (ENHMETAHEADER.offDescription h1)) as [Hmic|Hmic];
    try lia.
  - eapply decodes_bind.
    { unfold wire_pixel.
      eapply decodes_bind; [apply decodes_read_DWORD; assumption|].
      eapply decodes_bind; [apply decodes_read_DWORD; assumption|].
      apply (decodes_map _ (fun c => (ENHMETAHEADER.cbPixelFormat h1,
                                      ENHMETAHEADER.offPixelFormat h1, c))).
      apply decodes_read_DWORD; assumption. }
    eapply decodes_bind; [apply decodes_read_SIZEL; assumption|].
    apply (Htail (_, _, _)).
  - eapply decodes_bind.
    { unfold wire_pixel.
      eapply decodes_bind; [apply decodes_read_DWORD; assumption|].
      eapply decodes_bind; [apply decodes_read_DWORD; assumption|].
      apply (decodes_map _ (fun c => (ENHMETAHEADER.cbPixelFormat h1,
                                      ENHMETAHEADER.offPixelFormat h1, c))).
      apply decodes_read_DWORD; assumption. }
    change (wire_each (le_bytes 2) ws) with ([] ++ wire_each (le_bytes 2) ws) at 1.
    eapply decodes_bind; [apply decodes_ret|].
    apply (Htail (_, _, _)).
  - change (wire_each (le_bytes 2) ws)
      with ([] ++ [] ++ wire_each (le_bytes 2) ws).
    eapply decodes_bind; [apply decodes_ret|].
    eapply decodes_bind; [apply decodes_ret|].
    apply (Htail (_, _, _)).
Qed.
End Unserialize.





(** ** Defects at the bounds checks *)

(** C1: the header a context is created with when no description is given
    does not survive its own serialization: [serialize] writes the 108
    bytes of the structure with [offDescription] 0, and [unserialize],
    finding that offset below 100, skips the late fields and asks for
    [(108 - 0) / 2 = 54] description code units after the first 88 bytes;
    on the record's own bytes it fails with a premature end of file, and
    with further bytes behind the record it takes 88 of them as a
    description. *)
Theorem header_without_description_not_read_back (pf : platform)
    (h0 : ENHMETAHEADER.t) :
  let h := ENHMETAHEADER.ENHMETAHEADER pf None in
  ENHMETAHEADER.serialize pf h (mkFILE [] [] 108) =
    Ok (tt, mkFILE [] (wire_ENHMETAHEADER h) 0) /\
  length (wire_ENHMETAHEADER h) = 108%nat /\
  ENHMETAHEADER.unserialize pf h0 (mkFILE (wire_ENHMETAHEADER h) [] 0) =
    Err PrematureEOF /\
  (exists h',
     ENHMETAHEADER.unserialize pf h0
       (mkFILE (wire_ENHMETAHEADER h ++ replicate 88 Byte.x00) [] 0) =
       Ok (h', mkFILE [] [] 0) /\
     ENHMETAHEADER.description_size h' = 54).
Proof.
  destruct pf as [[|] [|]]; intros h.
  all: split; [vm_compute; reflexivity|].
  all: split; [reflexivity|].
  all: split; [vm_compute; reflexivity|].
  all: eexists; split; [vm_compute; reflexivity|reflexivity].
Qed.

(** C2: the size test of the poly-polygon parsers subtracts the fixed part
    (32 bytes) from the declared size in unsigned arithmetic; a record that
    declares fewer than 32 bytes passes the test whatever it carries.  The
    stream below declares 8 bytes, announces one polygon of one point, and
    is accepted with its counts and points read, in the 32-bit and in the
    16-bit class, on every platform. *)
Theorem undersized_polypolygon_accepted (pf : platform) :
  EMRPOLYPOLYGON.parse pf EMRPOLYPOLYGON.Points32
    (mkFILE undersized_polypolygon [] 0) =
    Ok (EMRPOLYPOLYGON.mk (mkEMR EMR_POLYPOLYGON 8) (mkRECTL 0 0 0 0) 1 1
          [1] [mkPOINT 3 4],
        mkFILE [] [] 0) /\
  EMRPOLYPOLYGON.parse pf EMRPOLYPOLYGON.Points16
    (mkFILE undersized_polypolygon16 [] 0) =
    Ok (EMRPOLYPOLYGON.mk (mkEMR EMR_POLYPOLYGON16 8) (mkRECTL 0 0 0 0) 1 1
          [1] [mkPOINT 3 4],
        mkFILE [] [] 0).
Proof.
  destruct pf as [[|] [|]]; split; vm_compute; reflexivity.
Qed.

(** C8: the second test of the text parser computes
    [nSize - offString] in unsigned 32-bit arithmetic; with the string
    offset beyond the declared size the difference wraps and the test
    passes.  The stream below declares 76 bytes, a string offset of 100 and
    four characters; it is accepted and the string is kept. *)
Theorem text_beyond_record_accepted (pf : platform) :
  exists r,
    EMREXTTEXTOUTA.parse pf (mkFILE text_beyond_record [] 0) =
      Ok (r, mkFILE [] [] 0) /\
    nSize (EMREXTTEXTOUTA.emr r) = 76 /\
    offString (EMREXTTEXTOUTA.emrtext r) = 100 /\
    nChars (EMREXTTEXTOUTA.emrtext r) = 4 /\
    EMREXTTEXTOUTA.string_a r = Some [Byte.x41; Byte.x42; Byte.x43; Byte.x44].
Proof.
  destruct pf as [[|] [|]]; eexists.
  all: split; [vm_compute; reflexivity|repeat split].
Qed.

(** * Further properties of the code *)

(** ** Rounding and byte order *)

(** X1: [ROUND_TO_LONG] rounds a byte count up to the next multiple of four as
    long as [n + 3] fits in a [DWORD]; for the three largest [DWORD]s the
    addition wraps and the result is 0. *)
Theorem ROUND_TO_LONG_rounds_up (n : Z) :
  is_DWORD n ->
  (n + 3 < 2 ^ 32 ->
   n <= ROUND_TO_LONG n < n + 4 /\ ROUND_TO_LONG n mod 4 = 0 /\
   (n mod 4 = 0 -> ROUND_TO_LONG n = n)) /\
  (2 ^ 32 <= n + 3 -> ROUND_TO_LONG n = 0).
Proof.
  intros [H0 H1]. split.
  - intros Hfit. destruct (ROUND_TO_LONG_spec n H0 Hfit) as (HR & HRb & HRm).
    split; [exact HRb|]. split; [exact HRm|].
    intros Hm. pose proof (Z.div_mod n 4 ltac:(lia)) as Hn.
    pose proof (Z.div_mod (ROUND_TO_LONG n) 4 ltac:(lia)) as Hr. lia.
  - intros Hwrap. unfold ROUND_TO_LONG, to_DWORD, wrap.
    replace ((n + 3) mod 2 ^ 32) with (n + 3 - 2 ^ 32).
    + rewrite Z.div_small by lia. reflexivity.
    + symmetry. rewrite <- (Z.mod_add _ (-1)) by lia.
      apply Z.mod_small. lia.
Qed.

Lemma ROUND_TO_LONG_rounds_up_witness :
  5 <= ROUND_TO_LONG 5 < 5 + 4 /\ ROUND_TO_LONG 5 mod 4 = 0 /\
  (5 mod 4 = 0 -> ROUND_TO_LONG 5 = 5).
Proof.
  apply (ROUND_TO_LONG_rounds_up 5).
  - unfold is_DWORD. lia.
  - lia.
Defined.

Lemma same_io_refl {A} (m : io A) : same_io m m.
Proof. intros fp. reflexivity. Qed.

Lemma same_io_bind {A B} (m m' : io A) (k k' : A -> io B) :
  same_io m m' -> (forall a, same_io (k a) (k' a)) ->
  same_io (bind m k) (bind m' k').
Proof.
  intros Hm Hk fp. unfold bind. rewrite Hm.
  destruct (m' fp) as [[a fp']|e]; [apply Hk|reflexivity].
Qed.

Lemma same_io_read_each {A} (rd rd' : io A) (n : nat) :
  same_io rd rd' -> same_io (read_each rd n) (read_each rd' n).
Proof.
  intros H. induction n as [|n IH]; simpl; [apply same_io_refl|].
  apply same_io_bind; [exact H|]. intros a.
  apply same_io_bind; [exact IH|]. intros l. apply same_io_refl.
Qed.

Lemma same_io_read4 (pf pf' : platform) : same_io (read4 pf) (read4 pf').
Proof. intros fp. rewrite !read4_eq. reflexivity. Qed.

Lemma same_io_read2 (pf pf' : platform) : same_io (read2 pf) (read2 pf').
Proof. intros fp. rewrite !read2_eq. reflexivity. Qed.

Ltac same_io_step pf pf' :=
  lazymatch goal with
  | |- same_io (bind _ _) (bind _ _) =>
      apply same_io_bind; [same_io_step pf pf' | intros ?; same_io_step pf pf']
  | |- same_io (read4 _) (read4 _) => apply (same_io_read4 pf pf')
  | |- same_io (read2 _) (read2 _) => apply (same_io_read2 pf pf')
  | |- same_io (read_each _ _) (read_each _ _) =>
      apply same_io_read_each; same_io_step pf pf'
  | |- same_io (if ?b then _ else _) (if ?b then _ else _) =>
      destruct b; same_io_step pf pf'
  | |- same_io (match ?o with Some n => @?f n | None => _ end) _ =>
      destruct o; same_io_step pf pf'
  | |- same_io ?m ?m => apply same_io_refl
  end.

Ltac unfold_readers :=
  unfold read_WCHARSTR, read_POINTLARRAY, read_POINT16ARRAY,
    read_INTARRAY, read_DWORDARRAY, read_CHARSTR,
    read_EMRTEXT, read_RECTL, read_SIZEL, read_EMR, read_POINTL,
    read_POINT16, read_DWORD, read_LONG, read_INT, read_UINT, read_FLOAT, read_WORD,
    read_INT16.

(** X2: The byte order of the machine does not show: what [serialize] writes
    for a record is the same on every platform, and on two platforms with
    the same [size_t] the three stream constructors give the same result
    (record or error, and rest of the stream) on every stream. *)
Theorem byte_order_independence (pf pf' : platform) :
  (forall r fp, METARECORD.serialize pf r fp = METARECORD.serialize pf' r fp) /\
  (size_t pf = size_t pf' ->
   (forall h0 fp,
      ENHMETAHEADER.unserialize pf h0 fp = ENHMETAHEADER.unserialize pf' h0 fp) /\
   (forall k fp, EMRPOLYPOLYGON.parse pf k fp = EMRPOLYPOLYGON.parse pf' k fp) /\
   (forall fp, EMREXTTEXTOUTA.parse pf fp = EMREXTTEXTOUTA.parse pf' fp)).
Proof.
  split; [intros r fp; rewrite !serialize_wire; reflexivity|].
  intros Hsz.
  assert (Ht : forall v, to_size_t pf v = to_size_t pf' v).
  { intros v. unfold to_size_t, size_t_bits. rewrite Hsz. reflexivity. }
  split; [|split].
  - intros h0. change (same_io (ENHMETAHEADER.unserialize pf h0)
                               (ENHMETAHEADER.unserialize pf' h0)).
    unfold ENHMETAHEADER.unserialize. unfold_readers.
    repeat (apply same_io_bind; [same_io_step pf pf'|intros ?]).
    rewrite !Ht. same_io_step pf pf'.
  - intros k. change (same_io (EMRPOLYPOLYGON.parse pf k) (EMRPOLYPOLYGON.parse pf' k)).
    unfold EMRPOLYPOLYGON.parse, EMRPOLYPOLYGON.read_points. unfold_readers.
    repeat (apply same_io_bind; [same_io_step pf pf'|intros ?]).
    rewrite !Ht. destruct k; same_io_step pf pf'.
  - change (same_io (EMREXTTEXTOUTA.parse pf) (EMREXTTEXTOUTA.parse pf')).
    unfold EMREXTTEXTOUTA.parse. unfold_readers.
    same_io_step pf pf'.
Qed.

Lemma byte_order_independence_witness :
  EMRPOLYPOLYGON.parse msvc_x64 EMRPOLYPOLYGON.Points32
    (mkFILE undersized_polypolygon [] 0) =
  EMRPOLYPOLYGON.parse {| bigEndian := true; size_t := SIZE_T_64 |}
    EMRPOLYPOLYGON.Points32 (mkFILE undersized_polypolygon [] 0).
Proof.
  apply (byte_order_independence msvc_x64 {| bigEndian := true; size_t := SIZE_T_64 |}).
  reflexivity.
Defined.

(** ** Running a parser over a known prefix *)

Lemma bind_decodes {A B} (m : io A) (k : A -> io B) bs (a : A) fp rest :
  decodes m bs a -> unread fp = bs ++ rest ->
  bind m k fp = k a {| unread := rest; written := written fp; room := room fp |}.
Proof. intros Hm E. unfold bind. rewrite (Hm fp rest E). reflexivity. Qed.

Lemma bind_inv {A B} (m : io A) (k : A -> io B) fp fp' (b : B) :
  bind m k fp = Ok (b, fp') ->
  exists a fp1, m fp = Ok (a, fp1) /\ k a fp1 = Ok (b, fp').
Proof.
  unfold bind. destruct (m fp) as [[a fp1]|e]; [|discriminate].
  intros H. exists a, fp1. split; [reflexivity|exact H].
Qed.

Lemma read_each_length {A} (rd : io A) (n : nat) fp fp' (l : list A) :
  read_each rd n fp = Ok (l, fp') -> length l = n.
Proof.
  revert fp fp' l. induction n as [|n IH]; intros fp fp' l H; simpl in H.
  - injection H as <- _. reflexivity.
  - apply bind_inv in H as (a & fp1 & _ & H).
    apply bind_inv in H as (l' & fp2 & Hl & H).
    injection H as <- _. simpl. f_equal. exact (IH _ _ _ Hl).
Qed.

Lemma add_counts_spec (l : list Z) (n : Z) :
  Forall is_DWORD l -> is_DWORD n ->
  EMRPOLYPOLYGON.add_counts l n =
    if n + total l <? 2 ^ 32 then Some (n + total l) else None.
Proof.
  intros Hl. revert n. induction Hl as [|c l Hc Hl IH]; intros n Hn; simpl.
  - rewrite Z.add_0_r. destruct (Z.ltb_spec n (2 ^ 32)); [reflexivity|].
    unfold is_DWORD in Hn. lia.
  - assert (Ht : 0 <= total l).
    { clear -Hl. induction Hl as [|a l Ha Hl IH]; simpl; unfold is_DWORD in *; lia. }
    unfold is_DWORD in Hc, Hn. unfold to_DWORD, wrap.
    destruct (Z.lt_ge_cases (n + c) (2 ^ 32)) as [Hfit|Hover].
    + rewrite Z.mod_small by lia.
      destruct (Z.ltb_spec (n + c) n); [lia|].
      rewrite IH by (unfold is_DWORD; lia).
      replace (n + c + total l) with (n + (c + total l)) by lia. reflexivity.
    + replace ((n + c) mod 2 ^ 32) with (n + c - 2 ^ 32)
        by (symmetry; rewrite <- (Z.mod_add _ (-1)) by lia; apply Z.mod_small; lia).
      destruct (Z.ltb_spec (n + c - 2 ^ 32) n); [|lia].
      destruct (Z.ltb_spec (n + (c + total l)) (2 ^ 32)); [lia|reflexivity].
Qed.

Lemma decodes_point (pf : platform) (k : EMRPOLYPOLYGON.kind) (p : POINT) :
  point_ok k p ->
  decodes (match k with
           | EMRPOLYPOLYGON.Points32 => read_POINTL pf
           | EMRPOLYPOLYGON.Points16 => read_POINT16 pf
           end) (wire_point k p) p.
Proof.
  destruct k; simpl; intros H;
    [apply decodes_read_POINTL|apply decodes_read_POINT16]; exact H.
Qed.

Lemma read_points_each (pf : platform) (k : EMRPOLYPOLYGON.kind) (n : nat) :
  EMRPOLYPOLYGON.read_points pf k n =
  read_each (match k with
             | EMRPOLYPOLYGON.Points32 => read_POINTL pf
             | EMRPOLYPOLYGON.Points16 => read_POINT16 pf
             end) n.
Proof. destruct k; reflexivity. Qed.

Lemma Forall_nonneg_DWORD (l : list Z) (b : Z) :
  Forall (fun c => 0 <= c) l -> total l <= b -> b < 2 ^ 32 -> Forall is_DWORD l.
Proof.
  intros Hl Ht Hb. rewrite Forall_forall. intros c Hc.
  apply list_elem_of_In in Hc.
  pose proof (elem_le_total l Hl c Hc).
  rewrite Forall_forall in Hl. specialize (Hl c (proj2 (list_elem_of_In _ _) Hc)).
  unfold is_DWORD. lia.
Qed.

(** ** Poly-polygon records *)

Section PolyPolygonRecords.
Variable pf : platform.
Variable k : EMRPOLYPOLYGON.kind.

Lemma sizeof_point_cases :
  EMRPOLYPOLYGON.sizeof_point k = 8 \/ EMRPOLYPOLYGON.sizeof_point k = 4.
Proof. destruct k; [left|right]; reflexivity. Qed.

Lemma sizeof_fixed_part :
  EMRPOLYPOLYGON.sizeof_struct k - EMRPOLYPOLYGON.sizeof_point k - sizeof_DWORD = 32.
Proof. destruct k; reflexivity. Qed.

(** On a stream that starts with the wire image of a well-formed record
    the stream constructor returns that record and leaves the rest. *)
Lemma decodes_polypolygon (r : EMRPOLYPOLYGON.t) (fp : FILE)
    (rest : list byte) :
  polypolygon_wf k r ->
  unread fp = wire_EMRPOLYPOLYGON k r ++ rest ->
  EMRPOLYPOLYGON.parse pf k fp =
    Ok (r, {| unread := rest; written := written fp; room := room fp |}).
Proof.
  intros (Ht & Hs & Hb & Hp0 & Hc0 & Hlc & Hlp & Hpos & Hsum & Hpts & Hsize) E.
  destruct r as [[ty sz] bounds np cp lc lp].
  cbn [EMRPOLYPOLYGON.emr EMRPOLYPOLYGON.rclBounds EMRPOLYPOLYGON.nPolys
       EMRPOLYPOLYGON.cptl EMRPOLYPOLYGON.lcounts EMRPOLYPOLYGON.lpoints
       iType nSize] in *.
  pose proof sizeof_point_cases as HP. unfold sizeof_DWORD in *.
  assert (Hnp : is_DWORD np) by (unfold is_DWORD in *; lia).
  assert (Hcp : is_DWORD cp) by (unfold is_DWORD in *; lia).
  revert E. unfold wire_EMRPOLYPOLYGON.
  cbn [EMRPOLYPOLYGON.emr EMRPOLYPOLYGON.rclBounds EMRPOLYPOLYGON.nPolys
       EMRPOLYPOLYGON.cptl EMRPOLYPOLYGON.lcounts EMRPOLYPOLYGON.lpoints].
  rewrite (take_ge lc) by lia. rewrite (take_ge lp) by lia.
  rewrite <- !app_assoc. intros E.
  unfold EMRPOLYPOLYGON.parse.
  erewrite bind_decodes; [|apply (decodes_read_EMR pf (mkEMR ty sz)); assumption|exact E].
  erewrite bind_decodes; [|apply decodes_read_RECTL; exact Hb|reflexivity].
  erewrite bind_decodes; [|apply decodes_read_DWORD; exact Hnp|reflexivity].
  erewrite bind_decodes; [|apply decodes_read_DWORD; exact Hcp|reflexivity].
  cbn [nSize]. rewrite sizeof_fixed_part. unfold sizeof_DWORD.
  rewrite (to_size_t_id pf 32) by (unfold is_DWORD; lia).
  rewrite (to_size_t_id pf (sz - 32)) by (unfold is_DWORD in *; lia).
  rewrite (to_size_t_id pf (EMRPOLYPOLYGON.sizeof_point k * cp + 4 * np))
    by (unfold is_DWORD in *; lia).
  destruct (Z.ltb_spec (sz - 32) (EMRPOLYPOLYGON.sizeof_point k * cp + 4 * np)); [lia|].
  assert (Hlcd : Forall is_DWORD lc)
    by (apply (Forall_nonneg_DWORD lc cp); unfold is_DWORD in *; try assumption; lia).
  rewrite <- Hlc.
  erewrite bind_decodes;
    [|apply (decodes_read_each _ (le_bytes 4) is_DWORD);
      [intros a Ha; apply decodes_read_DWORD; exact Ha|exact Hlcd]
     |reflexivity].
  rewrite add_counts_spec by (try assumption; unfold is_DWORD; lia).
  pose proof (total_nonneg lc Hpos) as Htot.
  destruct (Z.ltb_spec (0 + total lc) (2 ^ 32)); [|unfold is_DWORD in *; lia].
  destruct (Z.ltb_spec cp (0 + total lc)); [lia|].
  rewrite read_points_each, <- Hlp.
  erewrite bind_decodes;
    [|apply (decodes_read_each _ (wire_point k) (point_ok k));
      [intros a Ha; apply decodes_point; exact Ha|exact Hpts]
     |reflexivity].
  reflexivity.
Qed.
End PolyPolygonRecords.

Lemma le_value_bound (bs : list byte) : 0 <= le_value bs < 256 ^ Z.of_nat (length bs).
Proof.
  induction bs as [|b bs IH]; [simpl; lia|].
  cbn [le_value length]. rewrite Nat2Z.inj_succ, Z.pow_succ_r by lia.
  pose proof (Z_of_byte_range b). lia.
Qed.

Lemma fread_Ok_inv (n : nat) fp fp' (bs : list byte) :
  fread n fp = Ok (bs, fp') ->
  length bs = n /\ unread fp = bs ++ unread fp' /\
  written fp' = written fp /\ room fp' = room fp.
Proof.
  unfold fread. destruct (Nat.ltb_spec (length (unread fp)) n) as [|Hge]; [discriminate|].
  intros H. injection H as <- <-. simpl.
  rewrite length_take, take_drop. repeat split. lia.
Qed.

Lemma read4_Ok_inv (pf : platform) fp fp' (v : Z) :
  read4 pf fp = Ok (v, fp') ->
  is_DWORD v /\ unread fp = le_bytes 4 v ++ unread fp' /\
  written fp' = written fp /\ room fp' = room fp.
Proof.
  rewrite read4_eq. intros H. apply bind_inv in H as (bs & fp1 & Hbs & H).
  injection H as <- <-. apply fread_Ok_inv in Hbs as (Hlen & Hu & Hw & Hr).
  pose proof (le_value_bound bs) as Hb. rewrite Hlen in Hb.
  split; [exact Hb|]. split; [|split; assumption].
  rewrite <- Hlen at 1. rewrite le_bytes_le_value. exact Hu.
Qed.

Lemma read_each_Forall {A} (rd : io A) (P : A -> Prop) :
  (forall fp a fp', rd fp = Ok (a, fp') -> P a) ->
  forall n fp l fp', read_each rd n fp = Ok (l, fp') -> Forall P l.
Proof.
  intros Hrd. induction n as [|n IH]; intros fp l fp' H; simpl in H.
  - injection H as <- _. constructor.
  - apply bind_inv in H as (a & fp1 & Ha & H).
    apply bind_inv in H as (l' & fp2 & Hl & H).
    injection H as <- _. constructor; [exact (Hrd _ _ _ Ha)|exact (IH _ _ _ Hl)].
Qed.

Section PolyPolygonChecks.
Variable pf : platform.
Variable k : EMRPOLYPOLYGON.kind.

(** X7: What a poly-polygon record accepted from a stream is known to satisfy:
    the count and point buffers have exactly [nPolys] and [cptl] elements,
    every count is a [DWORD], and the counts add up, without wrapping, to
    at most [cptl]; with a 64-bit [size_t] and a declared size of at least
    the fixed 32 bytes, the declared size covers counts and points. *)
Theorem polypolygon_parse_accepts_only (fp fp' : FILE) (r : EMRPOLYPOLYGON.t) :
  EMRPOLYPOLYGON.parse pf k fp = Ok (r, fp') ->
  is_DWORD (EMRPOLYPOLYGON.nPolys r) /\ is_DWORD (EMRPOLYPOLYGON.cptl r) /\
  length (EMRPOLYPOLYGON.lcounts r) = Z.to_nat (EMRPOLYPOLYGON.nPolys r) /\
  length (EMRPOLYPOLYGON.lpoints r) = Z.to_nat (EMRPOLYPOLYGON.cptl r) /\
  Forall is_DWORD (EMRPOLYPOLYGON.lcounts r) /\
  total (EMRPOLYPOLYGON.lcounts r) <= EMRPOLYPOLYGON.cptl r /\
  (size_t pf = SIZE_T_64 -> 32 <= nSize (EMRPOLYPOLYGON.emr r) ->
   32 + EMRPOLYPOLYGON.sizeof_point k * EMRPOLYPOLYGON.cptl r
      + sizeof_DWORD * EMRPOLYPOLYGON.nPolys r <= nSize (EMRPOLYPOLYGON.emr r)).
Proof.
  unfold EMRPOLYPOLYGON.parse. intros H.
  apply bind_inv in H as (e & f1 & He & H).
  apply bind_inv in H as (b & f2 & _ & H).
  apply bind_inv in H as (np & f3 & Hnp & H).
  apply bind_inv in H as (cp & f4 & Hcp & H).
  apply read4_Ok_inv in Hnp as (Hnp & _). apply read4_Ok_inv in Hcp as (Hcp & _).
  assert (Hsz : is_DWORD (nSize e)).
  { unfold read_EMR in He. apply bind_inv in He as (t & g1 & _ & He).
    apply bind_inv in He as (n & g2 & Hn & He). injection He as <- _.
    apply read4_Ok_inv in Hn as (Hn & _). exact Hn. }
  destruct (_ <? _) eqn:Hcheck in H; [discriminate|].
  apply bind_inv in H as (cb & f5 & Hcb & H).
  pose proof (read_each_length _ _ _ _ _ Hcb) as Hlc.
  assert (Hcd : Forall is_DWORD cb).
  { apply (read_each_Forall (read_DWORD pf) is_DWORD) in Hcb; [exact Hcb|].
    intros g a g' Ha. apply read4_Ok_inv in Ha as (Ha & _). exact Ha. }
  rewrite add_counts_spec in H by (try assumption; unfold is_DWORD; lia).
  destruct (Z.ltb_spec (0 + total cb) (2 ^ 32)) as [Hfit|]; [|discriminate].
  destruct (Z.ltb_spec cp (0 + total cb)) as [|Hle]; [discriminate|].
  apply bind_inv in H as (pb & f6 & Hpb & H).
  rewrite read_points_each in Hpb.
  pose proof (read_each_length _ _ _ _ _ Hpb) as Hlp.
  injection H as <- _.
  cbn [EMRPOLYPOLYGON.nPolys EMRPOLYPOLYGON.cptl EMRPOLYPOLYGON.lcounts
       EMRPOLYPOLYGON.lpoints EMRPOLYPOLYGON.emr].
  repeat (split; [first [assumption | lia]|]).
  intros H64 H32. apply Z.ltb_ge in Hcheck.
  rewrite (sizeof_fixed_part k) in Hcheck.
  pose proof (sizeof_point_cases k) as HP. unfold sizeof_DWORD in *.
  unfold to_size_t, wrap, size_t_bits in Hcheck. rewrite H64 in Hcheck.
  unfold is_DWORD in *.
  rewrite (Z.mod_small 32) in Hcheck by lia.
  rewrite (Z.mod_small (nSize e - 32)) in Hcheck by lia.
  rewrite Z.mod_small in Hcheck by (destruct HP as [-> | ->]; lia).
  lia.
Qed.

(** X8: The rejections of the poly-polygon stream constructor, in the order
    the code makes them.  The stream holds the fixed fields; if the size
    test fires (as computed in [size_t]; with a 64-bit [size_t] and a
    declared size of at least 32 that is when the declared size does not
    cover counts and points) the result is "Invalid record size" whatever
    follows; otherwise, with the [nPolys] counts on the stream, a sum of
    2^32 or more gives "Unsigned overflow" and a sum above [cptl] gives
    "Too few points".  In each case no point is read and no record is
    produced; all three errors are of the malformed-record class. *)
Theorem polypolygon_parse_rejects (e : EMR) (bounds : RECTL) (np cp : Z)
    (fp : FILE) (tail : list byte) :
  is_DWORD (iType e) -> is_DWORD (nSize e) -> is_RECTL bounds ->
  is_DWORD np -> is_DWORD cp ->
  unread fp = wire_EMR e ++ wire_RECTL bounds ++ le_bytes 4 np ++ le_bytes 4 cp ++ tail ->
  let undersized :=
    to_size_t pf (nSize e - to_size_t pf 32)
      <? to_size_t pf (EMRPOLYPOLYGON.sizeof_point k * cp + sizeof_DWORD * np) in
  (undersized = true -> EMRPOLYPOLYGON.parse pf k fp = Err InvalidRecordSize) /\
  (size_t pf = SIZE_T_64 -> 32 <= nSize e ->
   (undersized = true <->
    nSize e < 32 + EMRPOLYPOLYGON.sizeof_point k * cp + sizeof_DWORD * np)) /\
  (forall counts rest,
     undersized = false ->
     Forall is_DWORD counts -> length counts = Z.to_nat np ->
     tail = wire_each (le_bytes 4) counts ++ rest ->
     (2 ^ 32 <= total counts ->
      EMRPOLYPOLYGON.parse pf k fp = Err UnsignedOverflow) /\
     (total counts < 2 ^ 32 -> cp < total counts ->
      EMRPOLYPOLYGON.parse pf k fp = Err TooFewPoints)) /\
  kind_of InvalidRecordSize = MalformedRecordError /\
  kind_of UnsignedOverflow = MalformedRecordError /\
  kind_of TooFewPoints = MalformedRecordError.
Proof.
  intros Ht Hs Hb Hnp Hcp E undersized.
  assert (Hrun : forall B (K : EMR -> RECTL -> Z -> Z -> io B),
    (emr' <- read_EMR pf ;; rclBounds' <- read_RECTL pf ;;
     nPolys' <- read_DWORD pf ;; cptl' <- read_DWORD pf ;;
     K emr' rclBounds' nPolys' cptl') fp =
    K e bounds np cp {| unread := tail; written := written fp; room := room fp |}).
  { intros B K.
    erewrite bind_decodes; [|apply (decodes_read_EMR pf e); assumption|exact E].
    erewrite bind_decodes; [|apply decodes_read_RECTL; exact Hb|reflexivity].
    erewrite bind_decodes; [|apply decodes_read_DWORD; exact Hnp|reflexivity].
    erewrite bind_decodes; [|apply decodes_read_DWORD; exact Hcp|reflexivity].
    reflexivity. }
  assert (Hcond : undersized =
            (to_size_t pf (nSize e - to_size_t pf
               (EMRPOLYPOLYGON.sizeof_struct k - EMRPOLYPOLYGON.sizeof_point k
                - sizeof_DWORD))
             <? to_size_t pf (EMRPOLYPOLYGON.sizeof_point k * cp + sizeof_DWORD * np)))
    by (rewrite sizeof_fixed_part; reflexivity).
  split; [|split; [|split]].
  - intros Hu. unfold EMRPOLYPOLYGON.parse. rewrite Hrun, <- Hcond, Hu. reflexivity.
  - intros H64 H32. unfold undersized.
    pose proof (sizeof_point_cases k) as HP. unfold sizeof_DWORD.
    unfold to_size_t, wrap, size_t_bits. rewrite H64. unfold is_DWORD in *.
    rewrite (Z.mod_small 32) by lia.
    rewrite (Z.mod_small (nSize e - 32)) by lia.
    rewrite Z.mod_small by (destruct HP as [-> | ->]; lia).
    rewrite Z.ltb_lt. lia.
  - intros counts rest Hu Hcd Hlen ->.
    assert (Hgo : EMRPOLYPOLYGON.parse pf k fp =
              match EMRPOLYPOLYGON.add_counts counts 0 with
              | Some n =>
                  if cp <? n then Err TooFewPoints
                  else (pbuffer <- EMRPOLYPOLYGON.read_points pf k (Z.to_nat cp) ;;
                        ret (EMRPOLYPOLYGON.mk e bounds np cp counts pbuffer))
                         {| unread := rest; written := written fp; room := room fp |}
              | None => Err UnsignedOverflow
              end).
    { unfold EMRPOLYPOLYGON.parse. rewrite Hrun, <- Hcond, Hu, <- Hlen.
      erewrite bind_decodes;
        [|apply (decodes_read_each _ (le_bytes 4) is_DWORD);
          [intros a Ha; apply decodes_read_DWORD; exact Ha|exact Hcd]
         |reflexivity].
      destruct (EMRPOLYPOLYGON.add_counts counts 0) as [n|]; [|reflexivity].
      simpl. destruct (cp <? n); reflexivity. }
    rewrite Hgo, add_counts_spec by (try assumption; unfold is_DWORD; lia).
    split.
    + intros Hover. destruct (Z.ltb_spec (0 + total counts) (2 ^ 32)); [lia|reflexivity].
    + intros Hfit Hmany.
      destruct (Z.ltb_spec (0 + total counts) (2 ^ 32)); [|lia].
      destruct (Z.ltb_spec cp (0 + total counts)); [reflexivity|lia].
  - repeat split.
Qed.
End PolyPolygonChecks.

Lemma signed_range (bits v : Z) :
  0 < bits -> 0 <= v < 2 ^ bits ->
  - 2 ^ (bits - 1) <= signed bits v < 2 ^ (bits - 1).
Proof.
  intros Hb Hv. unfold signed.
  assert (H2 : 2 ^ bits = 2 * 2 ^ (bits - 1)).
  { replace bits with (Z.succ (bits - 1)) at 1 by lia.
    rewrite Z.pow_succ_r by lia. reflexivity. }
  destruct (Z.ltb_spec v (2 ^ (bits - 1))); lia.
Qed.

Lemma to_INT16_range (v : Z) : is_INT16 (to_INT16 v).
Proof.
  unfold to_INT16, is_INT16. apply (signed_range 16); [lia|].
  apply Z.mod_pos_bound. lia.
Qed.

Lemma to_LONG_range (v : Z) : is_LONG (to_LONG v).
Proof.
  unfold to_LONG, is_LONG. apply (signed_range 32); [lia|].
  apply Z.mod_pos_bound. lia.
Qed.

Lemma store_point_ok (k : EMRPOLYPOLYGON.kind) (p : POINT) :
  is_POINTL p -> point_ok k (EMRPOLYPOLYGON.store_point k p).
Proof.
  destruct k; simpl; intros H; [exact H|].
  split; apply to_INT16_range.
Qed.

Section PolyPolygonRoundTrip.
Variable pf : platform.
Variable k : EMRPOLYPOLYGON.kind.

Lemma constructed_polypolygon_wf (bounds : RECTL) (points : list POINT)
    (counts : list Z) (polygons : Z) :
  is_RECTL bounds -> Forall is_POINTL points ->
  0 <= polygons ->
  (Z.to_nat polygons <= length counts)%nat ->
  Forall (fun c => 0 <= c) (take (Z.to_nat polygons) counts) ->
  total (take (Z.to_nat polygons) counts) <= Z.of_nat (length points) ->
  32 + EMRPOLYPOLYGON.sizeof_point k * total (take (Z.to_nat polygons) counts)
     + sizeof_DWORD * polygons < 2 ^ 31 ->
  polypolygon_wf k (EMRPOLYPOLYGON.EMRPOLYPOLYGON pf k bounds points counts polygons).
Proof.
  intros Hb Hpts Hp Hlen Hpos Hsum Hsmall.
  destruct (polypolygon_constructed_fields pf k bounds points counts polygons
              Hp Hlen Hpos Hsum Hsmall)
    as (HnP & Hcptl & Hsize & Hlc & Hlp & Hlceq & Hn0).
  set (r := EMRPOLYPOLYGON.EMRPOLYPOLYGON pf k bounds points counts polygons) in *.
  pose proof (sizeof_point_cases k) as HP. unfold sizeof_DWORD in *.
  unfold polypolygon_wf. rewrite Hsize, HnP, Hcptl, Hlc, Hlp, Hlceq.
  split; [unfold r; destruct k; cbn;
          unfold is_DWORD, EMR_POLYPOLYGON, EMR_POLYPOLYGON16; lia|].
  split; [unfold is_DWORD; lia|].
  split; [exact Hb|].
  repeat (split; [first [assumption | reflexivity | lia]|]).
  split.
  - unfold r, EMRPOLYPOLYGON.EMRPOLYPOLYGON. cbn [EMRPOLYPOLYGON.lpoints].
    apply Forall_map. apply Forall_take. eapply Forall_impl; [exact Hpts|].
    intros p Hp'. apply store_point_ok. exact Hp'.
  - unfold sizeof_DWORD. lia.
Qed.

(** X6: Round trip of a constructed poly-polygon record (32-bit or 16-bit
    points) built from well-formed arguments: [serialize] writes its wire
    image when the stream has room for it, and the stream constructor run
    on those bytes (followed by anything) gives back the same record, field
    for field, and leaves what followed. *)
Theorem polypolygon_round_trip (bounds : RECTL) (points : list POINT)
    (counts : list Z) (polygons : Z) :
  is_RECTL bounds -> Forall is_POINTL points ->
  0 <= polygons ->
  (Z.to_nat polygons <= length counts)%nat ->
  Forall (fun c => 0 <= c) (take (Z.to_nat polygons) counts) ->
  total (take (Z.to_nat polygons) counts) <= Z.of_nat (length points) ->
  32 + EMRPOLYPOLYGON.sizeof_point k * total (take (Z.to_nat polygons) counts)
     + sizeof_DWORD * polygons < 2 ^ 31 ->
  let r := EMRPOLYPOLYGON.EMRPOLYPOLYGON pf k bounds points counts polygons in
  (forall out, (length (wire_EMRPOLYPOLYGON k r) <= room out)%nat ->
     EMRPOLYPOLYGON.serialize pf k r out =
       Ok (tt, emit (wire_EMRPOLYPOLYGON k r) out)) /\
  (forall fp rest, unread fp = wire_EMRPOLYPOLYGON k r ++ rest ->
     EMRPOLYPOLYGON.parse pf k fp =
       Ok (r, {| unread := rest; written := written fp; room := room fp |})).
Proof.
  intros Hb Hpts Hp Hlen Hpos Hsum Hsmall r. split.
  - intros out Hroom. rewrite (encodes_polypolygon pf k r out). unfold fwrite.
    apply Nat.ltb_ge in Hroom. rewrite Hroom. reflexivity.
  - intros fp rest E. apply decodes_polypolygon; [|exact E].
    apply constructed_polypolygon_wf; assumption.
Qed.
End PolyPolygonRoundTrip.

Lemma polypolygon_round_trip_witness :
  let r := EMRPOLYPOLYGON.EMRPOLYPOLYGON msvc_x64 EMRPOLYPOLYGON.Points16
             (mkRECTL 0 0 9 9)
             [mkPOINT 0 0; mkPOINT 9 0; mkPOINT 9 9; mkPOINT 1 1; mkPOINT 70000 2]
             [3; 2] 2 in
  EMRPOLYPOLYGON.parse msvc_x64 EMRPOLYPOLYGON.Points16
    (mkFILE (wire_EMRPOLYPOLYGON EMRPOLYPOLYGON.Points16 r ++ [Byte.xff]) [] 0) =
  Ok (r, mkFILE [Byte.xff] [] 0).
Proof.
  intros r.
  apply (polypolygon_round_trip msvc_x64 EMRPOLYPOLYGON.Points16
           (mkRECTL 0 0 9 9)
           [mkPOINT 0 0; mkPOINT 9 0; mkPOINT 9 9; mkPOINT 1 1; mkPOINT 70000 2]
           [3; 2] 2).
  - vm_compute. repeat split; discriminate || reflexivity.
  - repeat constructor; vm_compute; discriminate || reflexivity.
  - lia.
  - simpl. lia.
  - repeat constructor; lia.
  - vm_compute. discriminate.
  - vm_compute. reflexivity.
  - reflexivity.
Defined.

Lemma polypolygon_parse_accepts_only_witness :
  total [1] <= 1.
Proof.
  apply (polypolygon_parse_accepts_only msvc_x64 EMRPOLYPOLYGON.Points32
           (mkFILE undersized_polypolygon [] 0) (mkFILE [] [] 0)
           (EMRPOLYPOLYGON.mk (mkEMR EMR_POLYPOLYGON 8) (mkRECTL 0 0 0 0) 1 1
              [1] [mkPOINT 3 4])).
  vm_compute. reflexivity.
Defined.

Lemma polypolygon_parse_rejects_witness :
  EMRPOLYPOLYGON.parse msvc_x64 EMRPOLYPOLYGON.Points32
    (mkFILE (wire_EMR (mkEMR EMR_POLYPOLYGON 44) ++ wire_RECTL (mkRECTL 0 0 0 0) ++
             le_bytes 4 2 ++ le_bytes 4 1 ++ []) [] 0) = Err InvalidRecordSize.
Proof.
  apply (polypolygon_parse_rejects msvc_x64 EMRPOLYPOLYGON.Points32
           (mkEMR EMR_POLYPOLYGON 44) (mkRECTL 0 0 0 0) 2 1
           (mkFILE (wire_EMR (mkEMR EMR_POLYPOLYGON 44) ++ wire_RECTL (mkRECTL 0 0 0 0) ++
                    le_bytes 4 2 ++ le_bytes 4 1 ++ []) [] 0) []).
  - vm_compute. split; discriminate || reflexivity.
  - vm_compute. split; discriminate || reflexivity.
  - vm_compute. repeat split; discriminate || reflexivity.
  - vm_compute. split; discriminate || reflexivity.
  - vm_compute. split; discriminate || reflexivity.
  - reflexivity.
  - vm_compute. reflexivity.
Defined.

(** ** The device context as a whole *)

Section ContextInvariants.
Import METAFILEDEVICECONTEXT.

Lemma to_DWORD_idem (v : Z) : to_DWORD (to_DWORD v) = to_DWORD v.
Proof. unfold to_DWORD, wrap. apply Z.mod_mod. lia. Qed.

Lemma to_DWORD_add_l (a b : Z) : to_DWORD (to_DWORD a + b) = to_DWORD (a + b).
Proof. unfold to_DWORD, wrap. apply Z.add_mod_idemp_l. lia. Qed.

Lemma total_app (l1 l2 : list Z) : total (l1 ++ l2) = total l1 + total l2.
Proof. induction l1 as [|a l1 IH]; simpl; [reflexivity|]. rewrite IH. lia. Qed.

Lemma merge_x_counters (dx : Z) (c : t) :
  ENHMETAHEADER.nSize (header (merge_x dx c)) = ENHMETAHEADER.nSize (header c) /\
  ENHMETAHEADER.nBytes (header (merge_x dx c)) = ENHMETAHEADER.nBytes (header c) /\
  ENHMETAHEADER.nRecords (header (merge_x dx c)) = ENHMETAHEADER.nRecords (header c) /\
  records (merge_x dx c) = records c.
Proof.
  unfold merge_x.
  repeat match goal with |- context [if ?b then _ else _] => destruct b end;
    repeat split.
Qed.

Lemma merge_y_counters (dy : Z) (c : t) :
  ENHMETAHEADER.nSize (header (merge_y dy c)) = ENHMETAHEADER.nSize (header c) /\
  ENHMETAHEADER.nBytes (header (merge_y dy c)) = ENHMETAHEADER.nBytes (header c) /\
  ENHMETAHEADER.nRecords (header (merge_y dy c)) = ENHMETAHEADER.nRecords (header c) /\
  records (merge_y dy c) = records c.
Proof.
  unfold merge_y.
  repeat match goal with |- context [if ?b then _ else _] => destruct b end;
    repeat split.
Qed.

Lemma nextHandle_counters (c : t) :
  ENHMETAHEADER.nSize (header (snd (nextHandle c))) = ENHMETAHEADER.nSize (header c) /\
  ENHMETAHEADER.nBytes (header (snd (nextHandle c))) = ENHMETAHEADER.nBytes (header c) /\
  ENHMETAHEADER.nRecords (header (snd (nextHandle c))) = ENHMETAHEADER.nRecords (header c) /\
  records (snd (nextHandle c)) = records c.
Proof. unfold nextHandle. destruct (first_free _ _); repeat split. Qed.

(** What an operation does to the counters and to the record list. *)
Lemma step_counters (o : operation) (c : t) :
  ENHMETAHEADER.nSize (header (step o c)) = ENHMETAHEADER.nSize (header c) /\
  ((records (step o c) = records c /\
    ENHMETAHEADER.nBytes (header (step o c)) = ENHMETAHEADER.nBytes (header c) /\
    ENHMETAHEADER.nRecords (header (step o c)) = ENHMETAHEADER.nRecords (header c)) \/
   (exists r,
      records (step o c) = records c ++ [Owned r] /\
      ENHMETAHEADER.nBytes (header (step o c)) =
        to_DWORD (ENHMETAHEADER.nBytes (header c) + METARECORD.size r) /\
      ENHMETAHEADER.nRecords (header (step o c)) =
        to_DWORD (ENHMETAHEADER.nRecords (header c) + 1))).
Proof.
  destruct o as [|g|r|r|p]; simpl.
  - destruct (nextHandle_counters c) as (H1 & H2 & H3 & H4).
    split; [exact H1|]. left. repeat split; assumption.
  - unfold clearHandle. destruct (_ <? _)%nat; (split; [reflexivity|left; repeat split]).
  - split; [reflexivity|]. right. exists r. repeat split.
  - split; [reflexivity|]. right. exists r. repeat split.
  - unfold mergePoint.
    destruct (merge_y_counters (y (device_point c p)) (merge_x (x (device_point c p)) c))
      as (-> & -> & -> & ->).
    destruct (merge_x_counters (x (device_point c p)) c) as (-> & -> & -> & ->).
    split; [reflexivity|]. left. repeat split.
Qed.

Lemma recorded_bytes_same (c c' : t) :
  ENHMETAHEADER.nSize (header c') = ENHMETAHEADER.nSize (header c) ->
  forall l, map (entry_size c') l = map (entry_size c) l.
Proof.
  intros H l. apply map_ext. intros [|r]; simpl; [exact H|reflexivity].
Qed.

(** X15: The header's running totals are exact at every moment: in every
    context reached from [init] by the bookkeeping operations, the record
    list is the header followed by the appended records in order,
    [nRecords] is the length of that list and [nBytes] is the sum of the
    sizes of its records, the header's own [nSize] included (both as
    [DWORD]s, that is modulo 2^32). *)
Theorem header_totals_are_exact (pf : platform) (c : t) :
  reachable pf c ->
  (exists rs, records c = TheHeader :: rs /\ Forall is_owned rs) /\
  ENHMETAHEADER.nRecords (header c) = to_DWORD (Z.of_nat (length (records c))) /\
  ENHMETAHEADER.nBytes (header c) = to_DWORD (recorded_bytes c).
Proof.
  induction 1 as [size d|o c Hc IH].
  2: destruct IH as ((rs & Hrs & Hown) & Hn & Hb).
  - split; [exists []; split; [reflexivity|constructor]|].
    destruct size, d; (split; [reflexivity|]);
      unfold recorded_bytes; cbn; rewrite Z.add_0_r;
      rewrite ?to_DWORD_idem; reflexivity.
  - destruct (step_counters o c) as (Hsize & [(Hr & HB & HN)|(r & Hr & HB & HN)]).
    + split; [exists rs; rewrite Hr; split; assumption|].
      rewrite HN, HB, Hr. split; [exact Hn|].
      unfold recorded_bytes. rewrite Hr, (recorded_bytes_same c _ Hsize). exact Hb.
    + split.
      { exists (rs ++ [Owned r]). rewrite Hr, Hrs. split; [reflexivity|].
        apply Forall_app. split; [exact Hown|]. repeat constructor. }
      rewrite HN, HB, Hr, Hn, Hb, !to_DWORD_add_l. split.
      * rewrite length_app. simpl. f_equal. lia.
      * unfold recorded_bytes. rewrite Hr, (recorded_bytes_same c _ Hsize).
        rewrite map_app, total_app. simpl. f_equal. lia.
Qed.

Lemma header_totals_are_exact_witness :
  ENHMETAHEADER.nRecords
    (header (step (AppendRecord
                     (METARECORD.Header (ENHMETAHEADER.ENHMETAHEADER msvc_x64 None)))
               (init msvc_x64 None None)))
  = to_DWORD 2.
Proof.
  apply (header_totals_are_exact msvc_x64
           (step (AppendRecord
                    (METARECORD.Header (ENHMETAHEADER.ENHMETAHEADER msvc_x64 None)))
              (init msvc_x64 None None))).
  apply reachable_step, reachable_init.
Defined.

Lemma nextHandle_slots (c : t) :
  let h := fst (nextHandle c) in
  let c' := snd (nextHandle c) in
  handles c !! h <> Some true /\
  handles c' !! h = Some true /\
  (forall i, i <> h -> handles c' !! i = handles c !! i).
Proof.
  destruct (free_slot_dec c) as [[j Hj]|Hfull].
  - destruct (nextHandle_reuse c j Hj) as ([_ Hh] & _ & _ & Hc').
    cbv zeta. rewrite Hc'. cbn [handles set_handles].
    split; [rewrite Hh; discriminate|]. split.
    + apply list_lookup_insert_eq. apply lookup_lt_Some in Hh. exact Hh.
    + intros i Hi. apply list_lookup_insert_ne. congruence.
  - destruct (nextHandle_extend c Hfull) as (Hh & Hc' & _).
    cbv zeta. rewrite Hh, Hc'. split.
    + rewrite lookup_ge_None_2 by lia. discriminate.
    + split.
      * rewrite lookup_app_r by lia. rewrite Nat.sub_diag. reflexivity.
      * intros i Hi. destruct (Nat.lt_ge_cases i (length (handles c))) as [Hlt|Hge].
        -- apply lookup_app_l. exact Hlt.
        -- rewrite !lookup_ge_None_2; [reflexivity|lia|].
           rewrite length_app. simpl. lia.
Qed.

Lemma nextHandle_nonempty (c : t) :
  handles c <> [] -> handles (snd (nextHandle c)) <> [].
Proof.
  intros Hne. destruct (nextHandle_slots c) as (_ & H & _).
  intros E. rewrite E in H. discriminate.
Qed.

(** X16: No handle is handed out twice: the handles that [n] successive calls
    of [nextHandle] return are pairwise distinct, none of them is 0 (the
    slot of the stock objects), none was in use before the calls, all of
    them are in use afterwards, and every slot that was in use stays so. *)
Theorem handles_never_shared (n : nat) (c : t) :
  handles c <> [] ->
  NoDup (fst (allocate n c)) /\
  Forall (fun h => (1 <= h)%nat /\ handles c !! h <> Some true /\
                   handles (snd (allocate n c)) !! h = Some true)
         (fst (allocate n c)) /\
  (forall i, handles c !! i = Some true ->
             handles (snd (allocate n c)) !! i = Some true).
Proof.
  revert c. induction n as [|n IH]; intros c Hne.
  - simpl. split; [constructor|]. split; [constructor|]. auto.
  - cbn [allocate].
    pose proof (nextHandle_slots c) as (Hfree & Hused & Hsame).
    pose proof (nextHandle_nonzero c Hne) as Hnz.
    pose proof (nextHandle_nonempty c Hne) as Hne'.
    destruct (nextHandle c) as [h c']. cbn [fst snd] in *.
    specialize (IH c' Hne') as (Hnd & Hall & Hkeep).
    destruct (allocate n c') as [hs c'']. cbn [fst snd] in *.
    split; [|split].
    + constructor; [|exact Hnd].
      intros Hin. rewrite Forall_forall in Hall.
      destruct (Hall h Hin) as (_ & Hn & _). exact (Hn Hused).
    + constructor.
      * split; [lia|]. split; [exact Hfree|]. apply Hkeep. exact Hused.
      * rewrite Forall_forall in Hall |- *. intros g Hg.
        destruct (Hall g Hg) as (H1 & H2 & H3).
        split; [exact H1|]. split; [|exact H3].
        destruct (Nat.eq_dec g h) as [->|Hgh]; [exact Hfree|].
        rewrite <- (Hsame g Hgh). exact H2.
    + intros i Hi. apply Hkeep.
      destruct (Nat.eq_dec i h) as [->|Hih]; [exact Hused|].
      rewrite (Hsame i Hih). exact Hi.
Qed.

Lemma handles_never_shared_witness :
  NoDup (fst (allocate 3 (clearHandle 1 (snd (allocate 2 (init msvc_x64 None None)))))).
Proof.
  apply (handles_never_shared 3
           (clearHandle 1 (snd (allocate 2 (init msvc_x64 None None))))).
  vm_compute. discriminate.
Defined.

(** *** The running extremes *)

Lemma merge_x_frame (dx : Z) (c : t) :
  update_frame (merge_x dx c) = update_frame c /\
  window_org (merge_x dx c) = window_org c /\
  window_ext (merge_x dx c) = window_ext c /\
  viewport_org (merge_x dx c) = viewport_org c /\
  viewport_ext (merge_x dx c) = viewport_ext c.
Proof.
  unfold merge_x.
  repeat match goal with |- context [if ?b then _ else _] => destruct b eqn:? end;
    repeat split; try reflexivity; cbn; assumption.
Qed.

Lemma merge_y_frame (dy : Z) (c : t) :
  update_frame (merge_y dy c) = update_frame c /\
  window_org (merge_y dy c) = window_org c /\
  window_ext (merge_y dy c) = window_ext c /\
  viewport_org (merge_y dy c) = viewport_org c /\
  viewport_ext (merge_y dy c) = viewport_ext c.
Proof.
  unfold merge_y.
  repeat match goal with |- context [if ?b then _ else _] => destruct b eqn:? end;
    repeat split; try reflexivity; cbn; assumption.
Qed.

Lemma merge_x_extremes (dx : Z) (c : t) :
  x (min_device_point c) <= x (max_device_point c) ->
  x (min_device_point (merge_x dx c)) = Z.min dx (x (min_device_point c)) /\
  x (max_device_point (merge_x dx c)) = Z.max dx (x (max_device_point c)) /\
  y (min_device_point (merge_x dx c)) = y (min_device_point c) /\
  y (max_device_point (merge_x dx c)) = y (max_device_point c).
Proof.
  intros Hle. unfold merge_x.
  destruct (Z.ltb_spec dx (x (min_device_point c))) as [H1|H1];
    [|destruct (Z.ltb_spec (x (max_device_point c)) dx) as [H2|H2]];
    destruct (update_frame c); cbn; repeat split; lia.
Qed.

Lemma merge_y_extremes (dy : Z) (c : t) :
  y (min_device_point c) <= y (max_device_point c) ->
  y (min_device_point (merge_y dy c)) = Z.min dy (y (min_device_point c)) /\
  y (max_device_point (merge_y dy c)) = Z.max dy (y (max_device_point c)) /\
  x (min_device_point (merge_y dy c)) = x (min_device_point c) /\
  x (max_device_point (merge_y dy c)) = x (max_device_point c).
Proof.
  intros Hle. unfold merge_y.
  destruct (Z.ltb_spec dy (y (min_device_point c))) as [H1|H1];
    [|destruct (Z.ltb_spec (y (max_device_point c)) dy) as [H2|H2]];
    destruct (update_frame c); cbn; repeat split; lia.
Qed.



Lemma step_extremes (o : operation) (c : t) :
  extremes_ordered c -> extremes_ordered (step o c).
Proof.
  unfold extremes_ordered. cbv zeta. intros (Hx & Hy).
  destruct o as [|g|r|r|p]; simpl.
  - unfold nextHandle. destruct (first_free _ _); simpl; split; assumption.
  - unfold clearHandle. destruct (_ <? _)%nat; simpl; split; assumption.
  - split; assumption.
  - split; assumption.
  - unfold mergePoint.
    destruct (merge_x_extremes (x (device_point c p)) c) as (X1 & X2 & X3 & X4); [lia|].
    destruct (merge_y_extremes (y (device_point c p))
                (merge_x (x (device_point c p)) c)) as (Y1 & Y2 & Y3 & Y4); [lia|].
    rewrite Y1, Y2, Y3, Y4, X1, X2, X3, X4. lia.
Qed.

Lemma reachable_extremes (pf : platform) (c : t) :
  reachable pf c -> extremes_ordered c.
Proof.
  induction 1 as [size d|o c Hc IH].
  - unfold extremes_ordered. simpl. lia.
  - apply step_extremes. exact IH.
Qed.




(** X18: Merging the same point twice changes nothing the second time: in every
    reachable context [mergePoint p] is idempotent. *)
Theorem mergePoint_idempotent (pf : platform) (c : t) (p : POINT) :
  reachable pf c -> mergePoint p (mergePoint p c) = mergePoint p c.
Proof.
  intros Hr. destruct (reachable_extremes pf c Hr) as (Hx & Hy).
  assert (Hd : device_point (mergePoint p c) p = device_point c p).
  { unfold mergePoint.
    destruct (merge_x_frame (x (device_point c p)) c) as (_ & A1 & A2 & A3 & A4).
    destruct (merge_y_frame (y (device_point c p))
                (merge_x (x (device_point c p)) c)) as (_ & B1 & B2 & B3 & B4).
    unfold device_point at 1. rewrite B1, B2, B3, B4, A1, A2, A3, A4. reflexivity. }
  unfold mergePoint at 1. rewrite Hd. unfold mergePoint.
  set (dx := x (device_point c p)). set (dy := y (device_point c p)).
  destruct (merge_x_extremes dx c) as (X1 & X2 & X3 & X4); [lia|].
  destruct (merge_y_extremes dy (merge_x dx c)) as (Y1 & Y2 & Y3 & Y4); [lia|].
  set (c' := merge_y dy (merge_x dx c)) in *.
  assert (E1 : merge_x dx c' = c').
  { unfold merge_x.
    destruct (Z.ltb_spec dx (x (min_device_point c'))) as [H|H]; [lia|].
    destruct (Z.ltb_spec (x (max_device_point c')) dx) as [H'|H']; [lia|reflexivity]. }
  rewrite E1. unfold merge_y.
  destruct (Z.ltb_spec dy (y (min_device_point c'))) as [H|H]; [lia|].
  destruct (Z.ltb_spec (y (max_device_point c')) dy) as [H'|H']; [lia|reflexivity].
Qed.

Lemma mergePoint_idempotent_witness :
  mergePoint (mkPOINT 7 (-3)) (mergePoint (mkPOINT 7 (-3)) (init msvc_x64 None None))
  = mergePoint (mkPOINT 7 (-3)) (init msvc_x64 None None).
Proof.
  apply (mergePoint_idempotent msvc_x64 (init msvc_x64 None None) (mkPOINT 7 (-3))).
  apply reachable_init.
Defined.
End ContextInvariants.

(** ** Text records read from a stream *)

Section TextRecords.
Variable pf : platform.

Lemma decodes_read_INT (v : Z) :
  is_LONG v -> decodes (read_INT pf) (le_bytes 4 v) v.
Proof. exact (decodes_read_LONG pf v). Qed.

Lemma decodes_read_FLOAT (v : Z) :
  is_DWORD v -> decodes (read_FLOAT pf) (le_bytes 4 v) v.
Proof. exact (decodes_read_DWORD pf v). Qed.

Lemma decodes_read_EMRTEXT (e : EMRTEXT) :
  is_EMRTEXT e -> decodes (read_EMRTEXT pf) (wire_EMRTEXT e) e.
Proof.
  destruct e as [p n o f r d]. intros (Hp & Hn & Ho & Hf & Hr & Hd).
  unfold read_EMRTEXT, wire_EMRTEXT.
  cbn [ptlReference nChars offString fOptions rcl offDx] in *.
  eapply decodes_bind; [apply decodes_read_POINTL; exact Hp|].
  eapply decodes_bind; [apply decodes_read_DWORD; exact Hn|].
  eapply decodes_bind; [apply decodes_read_DWORD; exact Ho|].
  eapply decodes_bind; [apply decodes_read_DWORD; exact Hf|].
  eapply decodes_bind; [apply decodes_read_RECTL; exact Hr|].
  apply (decodes_map _ (fun v => mkEMRTEXT p n o f r v)).
  apply decodes_read_DWORD; exact Hd.
Qed.

(** The stream constructor run over the fixed fields of a record. *)
Lemma exttextouta_fixed_fields (e : EMR) (bounds : RECTL)
    (graphicsMode xScale yScale : Z) (text : EMRTEXT) (fp : FILE)
    (tail : list byte) :
  is_DWORD (iType e) -> is_DWORD (nSize e) -> is_RECTL bounds ->
  is_DWORD graphicsMode -> is_DWORD xScale -> is_DWORD yScale ->
  is_EMRTEXT text ->
  unread fp = wire_text_fields e bounds graphicsMode xScale yScale text ++ tail ->
  forall B (K : EMR -> RECTL -> Z -> Z -> Z -> EMRTEXT -> io B),
    (emr' <- read_EMR pf ;; rclBounds' <- read_RECTL pf ;;
     iGraphicsMode' <- read_DWORD pf ;;
     exScale' <- read_FLOAT pf ;; eyScale' <- read_FLOAT pf ;;
     emrtext' <- read_EMRTEXT pf ;;
     K emr' rclBounds' iGraphicsMode' exScale' eyScale' emrtext') fp =
    K e bounds graphicsMode xScale yScale text
      {| unread := tail; written := written fp; room := room fp |}.
Proof.
  intros Ht Hs Hb Hg Hx Hy Htext E B K.
  unfold wire_text_fields in E. rewrite <- !app_assoc in E.
  erewrite bind_decodes; [|apply (decodes_read_EMR pf e); assumption|exact E].
  erewrite bind_decodes; [|apply decodes_read_RECTL; exact Hb|reflexivity].
  erewrite bind_decodes; [|apply decodes_read_DWORD; exact Hg|reflexivity].
  erewrite bind_decodes; [|apply decodes_read_FLOAT; exact Hx|reflexivity].
  erewrite bind_decodes; [|apply decodes_read_FLOAT; exact Hy|reflexivity].
  erewrite bind_decodes; [|apply decodes_read_EMRTEXT; exact Htext|reflexivity].
  reflexivity.
Qed.

(** X11: The two text checks of the stream constructor.  A record whose fixed
    fields announce characters but no string offset is refused, and so is
    one that announces more characters than [nSize - offString] (an
    unsigned 32-bit difference); when [offString <= nSize] the second
    test is the plain comparison.  Both failures are of the
    invalid-text-specification kind, and neither depends on what follows
    the fixed fields. *)
Theorem exttextouta_parse_rejects (e : EMR) (bounds : RECTL)
    (graphicsMode xScale yScale : Z) (text : EMRTEXT) (fp : FILE)
    (tail : list byte) :
  is_DWORD (iType e) -> is_DWORD (nSize e) -> is_RECTL bounds ->
  is_DWORD graphicsMode -> is_DWORD xScale -> is_DWORD yScale ->
  is_EMRTEXT text ->
  unread fp = wire_text_fields e bounds graphicsMode xScale yScale text ++ tail ->
  (0 < nChars text -> offString text = 0 ->
   EMREXTTEXTOUTA.parse pf fp = Err InvalidTextSpecification) /\
  (to_DWORD (nSize e - offString text) < nChars text ->
   EMREXTTEXTOUTA.parse pf fp = Err InvalidTextSpecification) /\
  (offString text <= nSize e ->
   (to_DWORD (nSize e - offString text) < nChars text <->
    nSize e - offString text < nChars text)) /\
  kind_of InvalidTextSpecification = InvalidTextSpecificationError.
Proof.
  intros Ht Hs Hb Hg Hx Hy Htext E.
  pose proof (exttextouta_fixed_fields e bounds graphicsMode xScale yScale text
                fp tail Ht Hs Hb Hg Hx Hy Htext E) as Hrun.
  split; [|split; [|split]].
  - intros Hn Ho. unfold EMREXTTEXTOUTA.parse. rewrite Hrun.
    destruct (Z.ltb_spec 0 (nChars text)); [|lia].
    rewrite Ho. reflexivity.
  - intros Hlt. unfold EMREXTTEXTOUTA.parse. rewrite Hrun.
    destruct ((0 <? nChars text) && (offString text =? 0)); [reflexivity|].
    destruct (Z.ltb_spec (to_DWORD (nSize e - offString text)) (nChars text));
      [reflexivity|lia].
  - intros Hle. destruct Htext as (_ & _ & Ho & _).
    rewrite to_DWORD_id by (unfold is_DWORD in *; lia). reflexivity.
  - reflexivity.
Qed.

End TextRecords.

Section TextRoundTrip.
Variable pf : platform.

Lemma ROUND_TO_LONG_DWORD (n : Z) : is_DWORD (ROUND_TO_LONG n).
Proof. unfold ROUND_TO_LONG, to_DWORD, wrap, is_DWORD. apply Z.mod_pos_bound. lia. Qed.

(** On a stream that starts with the wire image of a well-formed text
    record the stream constructor returns that record and leaves the
    rest. *)
Lemma decodes_exttextouta (r : EMREXTTEXTOUTA.t) (fp : FILE) (rest : list byte) :
  exttextouta_wf r ->
  unread fp = wire_EMREXTTEXTOUTA r ++ rest ->
  EMREXTTEXTOUTA.parse pf fp =
    Ok (r, {| unread := rest; written := written fp; room := room fp |}).
Proof.
  destruct r as [e bounds g xs ys text sa ss dx].
  unfold exttextouta_wf.
  cbn [EMREXTTEXTOUTA.emr EMREXTTEXTOUTA.rclBounds EMREXTTEXTOUTA.iGraphicsMode
       EMREXTTEXTOUTA.exScale EMREXTTEXTOUTA.eyScale EMREXTTEXTOUTA.emrtext
       EMREXTTEXTOUTA.string_a EMREXTTEXTOUTA.string_size EMREXTTEXTOUTA.dx_i].
  cbv zeta.
  intros (Ht & Hs & Hb & Hg & Hx & Hy & Htext & Hoff & Hn & HR & (s & -> & Hlen)
          & -> & Hdx) E.
  pose proof (ROUND_TO_LONG_DWORD (nChars text)) as HRd.
  set (R := ROUND_TO_LONG (nChars text)) in *.
  assert (Hnc : is_DWORD (nChars text)) by apply Htext.
  assert (E' : unread fp =
            wire_text_fields e bounds g xs ys text ++
            (s ++ match dx with
                  | Some d => wire_each (le_bytes 4) d
                  | None => []
                  end ++ rest)).
  { rewrite E. unfold wire_EMREXTTEXTOUTA, wire_text_fields.
    cbn [EMREXTTEXTOUTA.emr EMREXTTEXTOUTA.rclBounds EMREXTTEXTOUTA.iGraphicsMode
         EMREXTTEXTOUTA.exScale EMREXTTEXTOUTA.eyScale EMREXTTEXTOUTA.emrtext
         EMREXTTEXTOUTA.string_a EMREXTTEXTOUTA.string_size EMREXTTEXTOUTA.dx_i].
    rewrite (take_ge s) by lia.
    destruct dx as [d|].
    - destruct Hdx as (_ & Hd & _). rewrite (take_ge d) by lia.
      rewrite <- !app_assoc. reflexivity.
    - rewrite <- !app_assoc. reflexivity. }
  unfold EMREXTTEXTOUTA.parse.
  rewrite (exttextouta_fixed_fields pf e bounds g xs ys text fp _
             Ht Hs Hb Hg Hx Hy Htext E').
  destruct (Z.eqb_spec (offString text) 0) as [Hz|Hz]; [lia|].
  rewrite andb_false_r.
  rewrite (to_DWORD_id (nSize e - offString text)) by (unfold is_DWORD in *; lia).
  destruct (Z.ltb_spec (nSize e - offString text) (nChars text)); [lia|].
  cbn [negb]. fold R.
  rewrite (to_LONG_id R) by (unfold is_LONG, is_DWORD in *; lia).
  rewrite <- Hlen. unfold read_CHARSTR.
  erewrite bind_decodes;
    [|apply (decodes_map _ (fun c => (Some c, Some R))); apply decodes_fread
     |reflexivity].
  destruct dx as [d|].
  - destruct Hdx as (Hod & Hd & Hall).
    destruct (Z.eqb_spec (offDx text) 0) as [Hz'|Hz']; [contradiction|].
    cbn [negb]. rewrite <- Hd. unfold read_INTARRAY.
    erewrite bind_decodes;
      [|apply (decodes_map _ (fun l => Some l));
        apply (decodes_read_each _ (le_bytes 4) is_LONG);
        [intros a Ha; apply decodes_read_INT; exact Ha|exact Hall]
       |reflexivity].
    reflexivity.
  - rewrite Hdx. cbn [Z.eqb negb]. reflexivity.
Qed.

Lemma constructed_exttextouta_wf (bounds : RECTL) (graphicsMode xScale yScale : Z)
    (text : EMRTEXT) (string : list byte) (dx : option (list Z)) :
  is_RECTL bounds -> is_DWORD graphicsMode -> is_DWORD xScale -> is_DWORD yScale ->
  is_POINTL (ptlReference text) -> is_DWORD (fOptions text) -> is_RECTL (rcl text) ->
  0 <= nChars text <= Z.of_nat (length string) ->
  (forall d, dx = Some d ->
     nChars text <= Z.of_nat (length d) /\
     Forall is_LONG (take (Z.to_nat (nChars text)) d)) ->
  sizeof_EMREXTTEXTOUTA + nChars text + 3 + sizeof_INT * nChars text < 2 ^ 31 ->
  exttextouta_wf
    (EMREXTTEXTOUTA.EMREXTTEXTOUTA bounds graphicsMode xScale yScale text string dx).
Proof.
  intros Hb Hg Hx Hy Hp Hf Hrc Hn Hdx Hsmall.
  destruct (exttextouta_constructed_size bounds graphicsMode xScale yScale
              text string dx Hn (fun d Hd => proj1 (Hdx d Hd)) Hsmall)
    as (Hsize & _ & _).
  unfold sizeof_EMREXTTEXTOUTA, sizeof_INT in *.
  destruct (ROUND_TO_LONG_spec (nChars text)) as (_ & HRb & _); [lia|lia|].
  revert Hsize.
  unfold exttextouta_wf, EMREXTTEXTOUTA.EMREXTTEXTOUTA.
  cbn [EMREXTTEXTOUTA.emr EMREXTTEXTOUTA.rclBounds EMREXTTEXTOUTA.iGraphicsMode
       EMREXTTEXTOUTA.exScale EMREXTTEXTOUTA.eyScale EMREXTTEXTOUTA.emrtext
       EMREXTTEXTOUTA.string_a EMREXTTEXTOUTA.string_size EMREXTTEXTOUTA.dx_i
       EMREXTTEXTOUTA.with_offsets nChars offString offDx ptlReference fOptions rcl
       iType nSize].
  cbv zeta. unfold sizeof_EMREXTTEXTOUTA, sizeof_INT.
  set (R := ROUND_TO_LONG (nChars text)) in *.
  rewrite (to_LONG_id R) by (unfold is_LONG; lia).
  rewrite (to_DWORD_id (76 + R)) by (unfold is_DWORD; lia).
  intros Hsize. rewrite Hsize.
  split; [unfold is_DWORD, EMR_EXTTEXTOUTA; lia|].
  split; [unfold is_DWORD; destruct dx; lia|].
  split; [exact Hb|]. split; [exact Hg|]. split; [exact Hx|]. split; [exact Hy|].
  split.
  { unfold is_EMRTEXT.
    cbn [EMREXTTEXTOUTA.with_offsets nChars offString offDx ptlReference fOptions rcl].
    split; [exact Hp|]. split; [unfold is_DWORD; lia|].
    split; [unfold is_DWORD; lia|]. split; [exact Hf|]. split; [exact Hrc|].
    unfold is_DWORD; destruct dx; lia. }
  split; [destruct dx; lia|]. split; [destruct dx; lia|]. split; [lia|].
  split.
  { eexists. split; [reflexivity|].
    rewrite length_app, length_take, length_replicate. lia. }
  split; [reflexivity|].
  destruct dx as [d|]; [|reflexivity].
  destruct (Hdx d eq_refl) as (Hlen & Hall).
  split; [lia|]. split; [rewrite length_take; lia|exact Hall].
Qed.

(** X9: Round trip of a constructed text record built from well-formed
    arguments (with or without a spacing array): [serialize] writes its
    wire image when the stream has room for it, and the stream constructor
    run on those bytes (followed by anything) gives back the same record,
    field for field, and leaves what followed. *)
Theorem exttextouta_round_trip (bounds : RECTL) (graphicsMode xScale yScale : Z)
    (text : EMRTEXT) (string : list byte) (dx : option (list Z)) :
  is_RECTL bounds -> is_DWORD graphicsMode -> is_DWORD xScale -> is_DWORD yScale ->
  is_POINTL (ptlReference text) -> is_DWORD (fOptions text) -> is_RECTL (rcl text) ->
  0 <= nChars text <= Z.of_nat (length string) ->
  (forall d, dx = Some d ->
     nChars text <= Z.of_nat (length d) /\
     Forall is_LONG (take (Z.to_nat (nChars text)) d)) ->
  sizeof_EMREXTTEXTOUTA + nChars text + 3 + sizeof_INT * nChars text < 2 ^ 31 ->
  let r := EMREXTTEXTOUTA.EMREXTTEXTOUTA bounds graphicsMode xScale yScale
             text string dx in
  (forall out, (length (wire_EMREXTTEXTOUTA r) <= room out)%nat ->
     EMREXTTEXTOUTA.serialize pf r out = Ok (tt, emit (wire_EMREXTTEXTOUTA r) out)) /\
  (forall fp rest, unread fp = wire_EMREXTTEXTOUTA r ++ rest ->
     EMREXTTEXTOUTA.parse pf fp =
       Ok (r, {| unread := rest; written := written fp; room := room fp |})).
Proof.
  intros Hb Hg Hx Hy Hp Hf Hrc Hn Hdx Hsmall r. split.
  - intros out Hroom. rewrite (encodes_exttextouta pf r out). unfold fwrite.
    apply Nat.ltb_ge in Hroom. rewrite Hroom. reflexivity.
  - intros fp rest E. apply decodes_exttextouta; [|exact E].
    apply constructed_exttextouta_wf; assumption.
Qed.
End TextRoundTrip.

Lemma exttextouta_parse_rejects_witness :
  EMREXTTEXTOUTA.parse msvc_x64
    (mkFILE (wire_text_fields (mkEMR EMR_EXTTEXTOUTA 84) (mkRECTL 0 0 0 0) 1 0 0
               (mkEMRTEXT (mkPOINT 0 0) 5 80 0 (mkRECTL 0 0 0 0) 0) ++ []) [] 0)
  = Err InvalidTextSpecification.
Proof.
  apply (exttextouta_parse_rejects msvc_x64 (mkEMR EMR_EXTTEXTOUTA 84)
           (mkRECTL 0 0 0 0) 1 0 0
           (mkEMRTEXT (mkPOINT 0 0) 5 80 0 (mkRECTL 0 0 0 0) 0)
           (mkFILE (wire_text_fields (mkEMR EMR_EXTTEXTOUTA 84) (mkRECTL 0 0 0 0) 1 0 0
                      (mkEMRTEXT (mkPOINT 0 0) 5 80 0 (mkRECTL 0 0 0 0) 0) ++ []) [] 0)
           []).
  - vm_compute. split; discriminate || reflexivity.
  - vm_compute. split; discriminate || reflexivity.
  - vm_compute. repeat split; discriminate || reflexivity.
  - vm_compute. split; discriminate || reflexivity.
  - vm_compute. split; discriminate || reflexivity.
  - vm_compute. split; discriminate || reflexivity.
  - vm_compute. repeat split; discriminate || reflexivity.
  - reflexivity.
  - vm_compute. reflexivity.
Defined.


Lemma exttextouta_round_trip_witness :
  let r := EMREXTTEXTOUTA.EMREXTTEXTOUTA (mkRECTL 0 0 9 9) 1 0 0
             (mkEMRTEXT (mkPOINT 1 2) 5 0 0 (mkRECTL 0 0 0 0) 0)
             [Byte.x68; Byte.x65; Byte.x6c; Byte.x6c; Byte.x6f; Byte.x21]
             (Some [7; 7; 7; 7; -1; 99]) in
  EMREXTTEXTOUTA.parse msvc_x64 (mkFILE (wire_EMREXTTEXTOUTA r ++ [Byte.xff]) [] 0) =
  Ok (r, mkFILE [Byte.xff] [] 0).
Proof.
  intros r.
  apply (exttextouta_round_trip msvc_x64 (mkRECTL 0 0 9 9) 1 0 0
           (mkEMRTEXT (mkPOINT 1 2) 5 0 0 (mkRECTL 0 0 0 0) 0)
           [Byte.x68; Byte.x65; Byte.x6c; Byte.x6c; Byte.x6f; Byte.x21]
           (Some [7; 7; 7; 7; -1; 99])).
  - vm_compute. repeat split; discriminate || reflexivity.
  - vm_compute. split; discriminate || reflexivity.
  - vm_compute. split; discriminate || reflexivity.
  - vm_compute. split; discriminate || reflexivity.
  - vm_compute. repeat split; discriminate || reflexivity.
  - vm_compute. split; discriminate || reflexivity.
  - vm_compute. repeat split; discriminate || reflexivity.
  - simpl. lia.
  - intros d Hd. injection Hd as <-. split; [simpl; lia|].
    repeat constructor; vm_compute; discriminate || reflexivity.
  - vm_compute. reflexivity.
  - reflexivity.
Defined.

(** ** Headers with a description *)

Section DescribedHeaders.
Variable pf : platform.

Lemma description_count_skip (a rest : list Z) (n : nat) :
  is_WCHAR_text a -> (n < 3)%nat ->
  ENHMETAHEADER.description_count (a ++ rest) n =
    Z.of_nat (length a) + ENHMETAHEADER.description_count rest n.
Proof.
  intros Ha Hn. induction Ha as [|c a [_ Hc] Ha IH]; [reflexivity|].
  cbn [app ENHMETAHEADER.description_count length].
  destruct (Z.eqb_spec c 0) as [|_]; [contradiction|].
  destruct (Nat.ltb_spec n 3); [|lia]. rewrite IH. lia.
Qed.

Lemma description_count_documented (a b beyond : list Z) :
  is_WCHAR_text a -> is_WCHAR_text b ->
  ENHMETAHEADER.description_count (description_of a b beyond) 0 =
    Z.of_nat (length a) + Z.of_nat (length b) + 3.
Proof.
  intros Ha Hb. unfold description_of.
  rewrite description_count_skip by (assumption || lia).
  cbn [ENHMETAHEADER.description_count Z.eqb Nat.ltb Nat.leb].
  rewrite description_count_skip by (assumption || lia).
  cbn [ENHMETAHEADER.description_count Z.eqb Nat.ltb Nat.leb]. lia.
Qed.

Lemma terminate_terminated (pre : list Z) (k : nat) :
  ENHMETAHEADER.terminate (Z.of_nat (length (pre ++ replicate (2 + k) 0)))
    (pre ++ replicate (2 + k) 0) = pre ++ replicate (2 + k) 0.
Proof.
  unfold ENHMETAHEADER.terminate.
  assert (Hl : length (pre ++ replicate (2 + k) 0) = (length pre + (2 + k))%nat)
    by (rewrite length_app, length_replicate; reflexivity).
  rewrite Hl.
  replace (Z.to_nat (Z.of_nat (length pre + (2 + k)) - 1))
    with (length pre + (1 + k))%nat by lia.
  replace (Z.to_nat (Z.of_nat (length pre + (2 + k)) - 2))
    with (length pre + k)%nat by lia.
  rewrite (list_insert_id _ (length pre + (1 + k))).
  - apply list_insert_id. rewrite lookup_app_r by lia.
    apply lookup_replicate_2. lia.
  - rewrite lookup_app_r by lia. apply lookup_replicate_2. lia.
Qed.

Lemma Forall_WORD_text (a : list Z) : is_WCHAR_text a -> Forall is_WORD a.
Proof. intros H. eapply Forall_impl; [exact H|]. intros c Hc. apply Hc. Qed.

(** The fields of a header constructed with a documented description. *)
Lemma described_header_fields (a b beyond : list Z) :
  is_WCHAR_text a -> is_WCHAR_text b ->
  sizeof_ENHMETAHEADER
    + sizeof_WCHAR * (Z.of_nat (length a) + Z.of_nat (length b) + 3) + 3 < 2 ^ 31 ->
  let h := ENHMETAHEADER.ENHMETAHEADER pf (Some (description_of a b beyond)) in
  let count := Z.of_nat (length a) + Z.of_nat (length b) + 3 in
  exists k : nat,
    (k <= 1)%nat /\
    count + Z.of_nat k = 2 * ((count + 1) / 2) /\
    ENHMETAHEADER.nSize h = 108 + 2 * (count + Z.of_nat k) /\
    ENHMETAHEADER.nBytes h = ENHMETAHEADER.nSize h /\
    ENHMETAHEADER.nDescription h = count /\
    ENHMETAHEADER.offDescription h = 108 /\
    ENHMETAHEADER.description_size h = count + Z.of_nat k /\
    ENHMETAHEADER.description_w h = Some ((a ++ 0 :: b) ++ replicate (2 + k) 0).
Proof.
  intros Ha Hb Hsmall h count.
  pose proof (description_count_documented a b beyond Ha Hb) as Hc. fold count in Hc.
  unfold sizeof_ENHMETAHEADER, sizeof_WCHAR in *.
  destruct (ROUND_TO_LONG_spec (108 + 2 * count)) as (HR & HRb & HRm); [lia|lia|].
  set (R := ROUND_TO_LONG (108 + 2 * count)) in *.
  assert (Hk : exists k : nat,
            (k <= 1)%nat /\ count + Z.of_nat k = 2 * ((count + 1) / 2) /\
            R = 108 + 2 * (count + Z.of_nat k)).
  { pose proof (Z.div_mod R 4 ltac:(lia)) as Hd. rewrite HRm in Hd.
    pose proof (Z.div_mod (count + 1) 2 ltac:(lia)) as Hd2.
    pose proof (Z.mod_pos_bound (count + 1) 2 ltac:(lia)) as Hm2.
    destruct (Z.even count) eqn:Hev.
    - exists 0%nat. split; [lia|].
      apply Z.even_spec in Hev as [q Hq]. lia.
    - exists 1%nat. split; [lia|].
      assert (Hodd : Z.odd count = true) by (rewrite <- Z.negb_even, Hev; reflexivity).
      apply Z.odd_spec in Hodd as [q Hq]. lia. }
  destruct Hk as (k & Hk1 & Hpar & HRk). exists k. split; [exact Hk1|].
  split; [exact Hpar|].
  unfold h, ENHMETAHEADER.ENHMETAHEADER.
  cbn [ENHMETAHEADER.nSize ENHMETAHEADER.nBytes ENHMETAHEADER.nDescription
       ENHMETAHEADER.offDescription ENHMETAHEADER.description_size
       ENHMETAHEADER.description_w].
  rewrite Hc. unfold sizeof_ENHMETAHEADER, sizeof_WCHAR.
  rewrite (to_size_t_id pf (108 + 2 * count)) by (unfold is_DWORD; lia).
  fold R. rewrite (to_LONG_id R) by (unfold is_LONG; lia).
  rewrite (to_DWORD_id R) by (unfold is_DWORD; lia).
  rewrite (to_size_t_id pf (R - 108)) by (unfold is_DWORD; lia).
  assert (Hdiv : (R - 108) / 2 = count + Z.of_nat k).
  { rewrite HRk. replace (108 + 2 * (count + Z.of_nat k) - 108)
      with ((count + Z.of_nat k) * 2) by lia.
    apply Z.div_mul. lia. }
  rewrite Hdiv, (to_LONG_id (count + Z.of_nat k)) by (unfold is_LONG; lia).
  rewrite (to_DWORD_id count) by (unfold is_DWORD; lia).
  repeat (split; [first [reflexivity | lia]|]).
  f_equal. unfold description_of.
  replace (a ++ 0 :: b ++ 0 :: 0 :: beyond)
    with ((a ++ 0 :: b ++ [0; 0]) ++ beyond)
    by (rewrite <- !app_assoc; simpl; rewrite <- !app_assoc; reflexivity).
  rewrite take_app_length'
    by (rewrite !length_app; simpl; rewrite length_app; simpl; lia).
  replace (Z.to_nat (count + Z.of_nat k) - Z.to_nat count)%nat with k by lia.
  change (replicate (2 + k) 0) with (0 :: 0 :: replicate k 0).
  rewrite <- !app_assoc. simpl. rewrite <- !app_assoc. reflexivity.
Qed.

Lemma unserialized_self (h0 h : ENHMETAHEADER.t) (ws : list Z) :
  has_pixel h = true -> has_micrometers h = true ->
  ENHMETAHEADER.description_w h = Some ws ->
  ENHMETAHEADER.description_size h = Z.of_nat (length ws) ->
  (2 <= length ws)%nat ->
  ENHMETAHEADER.terminate (Z.of_nat (length ws)) ws = ws ->
  unserialized h0 h ws = h.
Proof.
  intros Hp Hm Hw Hs Hlen Hterm. unfold unserialized. rewrite Hp, Hm.
  replace (Z.max 2 (Z.of_nat (length ws))) with (Z.of_nat (length ws)) by lia.
  rewrite Nat2Z.id, Nat.sub_diag. cbn [replicate]. rewrite app_nil_r, Hterm.
  destruct h. cbn in *. subst. reflexivity.
Qed.

(** X12: Round trip of a header constructed with a documented description
    ([application], NUL, [title], NUL, NUL): the constructor counts the
    code units through the third NUL, pads the copy to an even number of
    units so that the record length is a multiple of 4, [serialize] writes
    the wire image, and [unserialize] run on those bytes (followed by
    anything, into any header object) gives back the same header, field
    for field, and leaves what followed. *)
Theorem described_header_round_trip (application title beyond : list Z) :
  is_WCHAR_text application -> is_WCHAR_text title ->
  sizeof_ENHMETAHEADER
    + sizeof_WCHAR * (Z.of_nat (length application) + Z.of_nat (length title) + 3)
    + 3 < 2 ^ 31 ->
  let h := ENHMETAHEADER.ENHMETAHEADER pf
             (Some (description_of application title beyond)) in
  ENHMETAHEADER.nDescription h =
    Z.of_nat (length application) + Z.of_nat (length title) + 3 /\
  ENHMETAHEADER.description_size h =
    2 * ((ENHMETAHEADER.nDescription h + 1) / 2) /\
  ENHMETAHEADER.nSize h = 108 + 2 * ENHMETAHEADER.description_size h /\
  (forall out, (length (wire_ENHMETAHEADER h) <= room out)%nat ->
     ENHMETAHEADER.serialize pf h out = Ok (tt, emit (wire_ENHMETAHEADER h) out)) /\
  (forall h0 fp rest, unread fp = wire_ENHMETAHEADER h ++ rest ->
     ENHMETAHEADER.unserialize pf h0 fp =
       Ok (h, {| unread := rest; written := written fp; room := room fp |})).
Proof.
  intros Ha Hb Hsmall h.
  destruct (described_header_fields application title beyond Ha Hb Hsmall)
    as (k & Hk & Hpar & Hsize & Hbytes & Hdesc & Hoff & Hdsize & Hw).
  fold h in Hsize, Hbytes, Hdesc, Hoff, Hdsize, Hw. cbv zeta in Hpar.
  unfold sizeof_ENHMETAHEADER, sizeof_WCHAR in *.
  set (count := Z.of_nat (length application) + Z.of_nat (length title) + 3) in *.
  set (buf := (application ++ 0 :: title) ++ replicate (2 + k) 0) in *.
  assert (Hbuf : Z.of_nat (length buf) = count + Z.of_nat k).
  { unfold buf, count. rewrite !length_app, length_replicate. simpl. lia. }
  split; [exact Hdesc|]. split; [rewrite Hdsize, Hdesc; exact Hpar|].
  split; [rewrite Hsize, Hdsize; reflexivity|].
  split.
  - intros out Hroom. rewrite (encodes_header pf h out). unfold fwrite.
    apply Nat.ltb_ge in Hroom. rewrite Hroom. reflexivity.
  - intros h0 fp rest E.
    assert (Hp : has_pixel h = true)
      by (unfold has_pixel; rewrite Hoff; reflexivity).
    assert (Hm : has_micrometers h = true)
      by (unfold has_micrometers; rewrite Hoff; reflexivity).
    assert (Hwire : wire_ENHMETAHEADER h = header_stream h buf).
    { unfold wire_ENHMETAHEADER, header_stream. rewrite Hp, Hm, Hw, Hdsize.
      cbn [ENHMETAHEADER.buffer_of]. rewrite take_ge by lia. reflexivity. }
    rewrite Hwire in E.
    rewrite (decodes_unserialize pf h0 h buf) with (rest := rest); [| | | | | | |exact E].
    + f_equal. f_equal. apply unserialized_self; try assumption.
      * rewrite Hdsize. lia.
      * unfold buf. rewrite length_app, length_replicate. lia.
      * apply terminate_terminated.
    + unfold base_fields_ok. rewrite Hbytes, Hsize, Hdesc, Hoff.
      unfold h, ENHMETAHEADER.ENHMETAHEADER.
      cbn [ENHMETAHEADER.iType ENHMETAHEADER.rclBounds ENHMETAHEADER.rclFrame
           ENHMETAHEADER.dSignature ENHMETAHEADER.nVersion ENHMETAHEADER.nBytes
           ENHMETAHEADER.nRecords ENHMETAHEADER.nHandles ENHMETAHEADER.sReserved
           ENHMETAHEADER.nPalEntries ENHMETAHEADER.szlDevice
           ENHMETAHEADER.szlMillimeters].
      repeat split; first [lia | vm_compute; (discriminate || reflexivity)].
    + unfold late_fields_ok, h, ENHMETAHEADER.ENHMETAHEADER.
      cbn [ENHMETAHEADER.cbPixelFormat ENHMETAHEADER.offPixelFormat
           ENHMETAHEADER.bOpenGL ENHMETAHEADER.szlMicrometers].
      vm_compute. repeat split; discriminate || reflexivity.
    + rewrite Hoff, Hsize. lia.
    + unfold buf. apply Forall_app. split.
      * apply Forall_app. split; [apply Forall_WORD_text; exact Ha|].
        constructor; [unfold is_WORD; lia|apply Forall_WORD_text; exact Hb].
      * apply Forall_replicate. unfold is_WORD. lia.
    + rewrite Hbuf, Hsize, Hoff.
      replace (108 + 2 * (count + Z.of_nat k) - 108)
        with ((count + Z.of_nat k) * 2) by lia.
      rewrite Z.div_mul by lia. reflexivity.
    + rewrite Hdesc, Hbuf, to_LONG_id by (unfold is_LONG; lia). lia.
Qed.
End DescribedHeaders.

Lemma described_header_round_trip_witness :
  let h := ENHMETAHEADER.ENHMETAHEADER msvc_x64
             (Some (description_of [97; 98] [99] [55; 0])) in
  ENHMETAHEADER.nDescription h = 6 /\
  ENHMETAHEADER.unserialize msvc_x64 (ENHMETAHEADER.ENHMETAHEADER msvc_x64 None)
    (mkFILE (wire_ENHMETAHEADER h ++ [Byte.xff]) [] 0) =
  Ok (h, mkFILE [Byte.xff] [] 0).
Proof.
  intros h.
  assert (Ha : is_WCHAR_text [97; 98])
    by (repeat constructor; vm_compute; discriminate || reflexivity).
  assert (Hb : is_WCHAR_text [99])
    by (repeat constructor; vm_compute; discriminate || reflexivity).
  assert (Hs : sizeof_ENHMETAHEADER
               + sizeof_WCHAR * (Z.of_nat (length [97; 98]) + Z.of_nat (length [99]) + 3)
               + 3 < 2 ^ 31) by (vm_compute; reflexivity).
  destruct (described_header_round_trip msvc_x64 [97; 98] [99] [55; 0] Ha Hb Hs)
    as (Hn & _ & _ & _ & Hrt).
  split; [exact Hn|].
  apply (Hrt (ENHMETAHEADER.ENHMETAHEADER msvc_x64 None)
             (mkFILE (wire_ENHMETAHEADER h ++ [Byte.xff]) [] 0) [Byte.xff]).
  reflexivity.
Defined.

(** ** Headers read from a stream *)

Section HeaderChecks.
Variable pf : platform.

Lemma description_size_to_read_range (v : Z) :
  0 <= to_LONG (to_size_t pf (to_DWORD v) / sizeof_WCHAR) < 2 ^ 31 /\
  to_LONG (to_size_t pf (to_DWORD v) / sizeof_WCHAR) = to_DWORD v / 2.
Proof.
  assert (Hd : is_DWORD (to_DWORD v))
    by (unfold to_DWORD, wrap, is_DWORD; apply Z.mod_pos_bound; lia).
  rewrite (to_size_t_id pf _ Hd). unfold sizeof_WCHAR. unfold is_DWORD in Hd.
  assert (Hq : 0 <= to_DWORD v / 2 < 2 ^ 31).
  { split; [apply Z.div_pos; lia|].
    apply Z.div_lt_upper_bound; lia. }
  rewrite to_LONG_id by (unfold is_LONG; lia). split; [exact Hq|reflexivity].
Qed.

Lemma decodes_pixel (h1 : ENHMETAHEADER.t) :
  late_fields_ok h1 ->
  decodes (a <- read_DWORD pf ;; b <- read_DWORD pf ;; c <- read_DWORD pf ;;
           ret (a, b, c))
          (wire_pixel h1)
          (ENHMETAHEADER.cbPixelFormat h1, ENHMETAHEADER.offPixelFormat h1,
           ENHMETAHEADER.bOpenGL h1).
Proof.
  intros (L1 & L2 & L3 & _). unfold wire_pixel.
  eapply decodes_bind; [apply decodes_read_DWORD; exact L1|].
  eapply decodes_bind; [apply decodes_read_DWORD; exact L2|].
  apply (decodes_map _ (fun c => (ENHMETAHEADER.cbPixelFormat h1,
                                  ENHMETAHEADER.offPixelFormat h1, c))).
  apply decodes_read_DWORD; exact L3.
Qed.

(** X13: The consistency check of [unserialize].  On a stream that holds the
    fixed fields of a header (and the late fields its description offset
    calls for), the call fails as a malformed record, whatever follows,
    when the number of code units left in the record,
    [(nSize - offDescription) / 2] with the difference taken as an unsigned
    32-bit number, is less than [nDescription] read as a signed [int].
    With [offDescription <= nSize] that number is the plain quotient; and a
    header that declares 2^31 code units or more is never refused, because
    the declared count is compared as a negative number. *)
Theorem header_unserialize_rejects (h0 h1 : ENHMETAHEADER.t) (fp : FILE)
    (tail : list byte) :
  base_fields_ok h1 -> late_fields_ok h1 ->
  unread fp = header_stream h1 [] ++ tail ->
  let to_read :=
    to_DWORD (ENHMETAHEADER.nSize h1 - ENHMETAHEADER.offDescription h1) / 2 in
  (to_read < to_LONG (ENHMETAHEADER.nDescription h1) ->
   ENHMETAHEADER.unserialize pf h0 fp = Err InconsistentDescription) /\
  (ENHMETAHEADER.offDescription h1 <= ENHMETAHEADER.nSize h1 ->
   to_read = (ENHMETAHEADER.nSize h1 - ENHMETAHEADER.offDescription h1) / 2) /\
  (2 ^ 31 <= ENHMETAHEADER.nDescription h1 ->
   to_LONG (ENHMETAHEADER.nDescription h1) < 0 <= to_read) /\
  kind_of InconsistentDescription = MalformedRecordError.
Proof.
  intros (H1 & H2 & H3 & H4 & H5 & H6 & H7 & H8 & H9 & H10 & H11 & H12 & H13 & H14 & H15)
         HL E to_read.
  pose proof (decodes_pixel h1 HL) as Hpx. destruct HL as (L1 & L2 & L3 & L4).
  destruct (description_size_to_read_range
              (ENHMETAHEADER.nSize h1 - ENHMETAHEADER.offDescription h1))
    as (Hrange & Hval).
  split; [|split; [|split]].
  - intros Hlt. revert E.
    unfold ENHMETAHEADER.unserialize, header_stream, wire_base.
    rewrite <- !app_assoc. intros E.
    erewrite bind_decodes; [|apply decodes_read_DWORD; exact H1|exact E]. cbn [written room].
    erewrite bind_decodes; [|apply decodes_read_DWORD; exact H2|reflexivity]. cbn [written room].
    erewrite bind_decodes; [|apply decodes_read_RECTL; exact H3|reflexivity]. cbn [written room].
    erewrite bind_decodes; [|apply decodes_read_RECTL; exact H4|reflexivity]. cbn [written room].
    erewrite bind_decodes; [|apply decodes_read_DWORD; exact H5|reflexivity]. cbn [written room].
    erewrite bind_decodes; [|apply decodes_read_DWORD; exact H6|reflexivity]. cbn [written room].
    erewrite bind_decodes; [|apply decodes_read_DWORD; exact H7|reflexivity]. cbn [written room].
    erewrite bind_decodes; [|apply decodes_read_DWORD; exact H8|reflexivity]. cbn [written room].
    erewrite bind_decodes; [|apply decodes_read_WORD; exact H9|reflexivity]. cbn [written room].
    erewrite bind_decodes; [|apply decodes_read_WORD; exact H10|reflexivity]. cbn [written room].
    erewrite bind_decodes; [|apply decodes_read_DWORD; exact H11|reflexivity]. cbn [written room].
    erewrite bind_decodes; [|apply decodes_read_DWORD; exact H12|reflexivity]. cbn [written room].
    erewrite bind_decodes; [|apply decodes_read_DWORD; exact H13|reflexivity]. cbn [written room].
    erewrite bind_decodes; [|apply decodes_read_SIZEL; exact H14|reflexivity]. cbn [written room].
    erewrite bind_decodes; [|apply decodes_read_SIZEL; exact H15|reflexivity]. cbn [written room].
    assert (Hcond :
      (to_LONG (to_size_t pf (to_DWORD (ENHMETAHEADER.nSize h1
                                        - ENHMETAHEADER.offDescription h1))
                / sizeof_WCHAR) <? to_LONG (ENHMETAHEADER.nDescription h1)) = true).
    { apply Z.ltb_lt. rewrite Hval. exact Hlt. }
    unfold has_pixel, has_micrometers.
    destruct (OffsetOf_szlMicrometers <=? ENHMETAHEADER.offDescription h1);
      destruct (sizeof_ENHMETAHEADER <=? ENHMETAHEADER.offDescription h1);
      cbv iota.
    + erewrite bind_decodes; [|exact Hpx|reflexivity]. cbn [written room].
      erewrite bind_decodes; [|apply decodes_read_SIZEL; exact L4|reflexivity]. cbn [written room].
      cbv zeta. rewrite Hcond. reflexivity.
    + erewrite bind_decodes; [|exact Hpx|reflexivity]. cbn [written room].
      erewrite bind_decodes; [|apply decodes_ret|reflexivity]. cbn [written room].
      cbv zeta. rewrite Hcond. reflexivity.
    + erewrite bind_decodes; [|apply decodes_ret|reflexivity]. cbn [written room].
      erewrite bind_decodes; [|apply decodes_read_SIZEL; exact L4|reflexivity]. cbn [written room].
      cbv zeta. rewrite Hcond. reflexivity.
    + erewrite bind_decodes; [|apply decodes_ret|reflexivity]. cbn [written room].
      erewrite bind_decodes; [|apply decodes_ret|reflexivity]. cbn [written room].
      cbv zeta. rewrite Hcond. reflexivity.
  - intros Hle. unfold to_read. rewrite to_DWORD_id; [reflexivity|].
    unfold is_DWORD in *. lia.
  - intros Hbig. split.
    + unfold to_LONG, signed, wrap. unfold is_DWORD in H11.
      rewrite Z.mod_small by lia.
      destruct (Z.ltb_spec (ENHMETAHEADER.nDescription h1) (2 ^ (32 - 1))) as [Hs|Hs].
      * change (2 ^ (32 - 1)) with (2 ^ 31) in Hs. lia.
      * lia.
    + unfold to_read. rewrite <- Hval. apply Hrange.
  - reflexivity.
Qed.

(** X14: Whatever [unserialize] returns is terminated: after every successful
    call the header owns a description buffer of [description_size] code
    units, [description_size] is [(nSize - offDescription) / 2] (the
    difference as an unsigned 32-bit number) but at least 2, it is not
    less than the declared [nDescription] read as an [int], and the last
    two code units of the buffer are NUL. *)
Theorem unserialize_terminates_description (h0 h : ENHMETAHEADER.t) (fp fp' : FILE) :
  ENHMETAHEADER.unserialize pf h0 fp = Ok (h, fp') ->
  exists buffer,
    ENHMETAHEADER.description_w h = Some buffer /\
    Z.of_nat (length buffer) = ENHMETAHEADER.description_size h /\
    ENHMETAHEADER.description_size h =
      Z.max 2 (to_DWORD (ENHMETAHEADER.nSize h - ENHMETAHEADER.offDescription h) / 2) /\
    to_LONG (ENHMETAHEADER.nDescription h) <= ENHMETAHEADER.description_size h /\
    buffer !! Z.to_nat (ENHMETAHEADER.description_size h - 1) = Some 0 /\
    buffer !! Z.to_nat (ENHMETAHEADER.description_size h - 2) = Some 0.
Proof.
  unfold ENHMETAHEADER.unserialize. intros H.
  do 17 (let a := fresh "a" in let f := fresh "f" in let Ha := fresh "Ha" in
         apply bind_inv in H as (a & f & Ha & H)).
  cbv zeta in H.
  destruct (description_size_to_read_range (a0 - a10)) as (Hrange & Hval).
  rewrite Hval in H, Hrange.
  destruct (Z.ltb_spec (to_DWORD (a0 - a10) / 2) (to_LONG a9)) as [Hlt|Hge];
    [discriminate|].
  apply bind_inv in H as (description & f' & Hd & H).
  injection H as <- _.
  apply read_each_length in Hd.
  cbn [ENHMETAHEADER.description_w ENHMETAHEADER.description_size
       ENHMETAHEADER.nSize ENHMETAHEADER.offDescription ENHMETAHEADER.nDescription].
  set (n := to_DWORD (a0 - a10) / 2) in *.
  set (buf := description ++ replicate (Z.to_nat (Z.max 2 n) - Z.to_nat n) 0).
  assert (Hlen : length buf = Z.to_nat (Z.max 2 n)).
  { unfold buf. rewrite length_app, length_replicate, Hd. lia. }
  exists (ENHMETAHEADER.terminate (Z.max 2 n) buf).
  unfold ENHMETAHEADER.terminate.
  split; [reflexivity|]. split; [rewrite !length_insert, Hlen; lia|].
  split; [reflexivity|]. split; [lia|]. split.
  - rewrite list_lookup_insert_ne by lia.
    apply list_lookup_insert_eq. rewrite Hlen. lia.
  - apply list_lookup_insert_eq. rewrite length_insert, Hlen. lia.
Qed.
End HeaderChecks.

Lemma header_unserialize_rejects_witness :
  ENHMETAHEADER.unserialize msvc_x64 (ENHMETAHEADER.ENHMETAHEADER msvc_x64 None)
    (mkFILE (header_stream overdeclared_header [] ++ [Byte.x00; Byte.x00]) [] 0)
  = Err InconsistentDescription.
Proof.
  apply (header_unserialize_rejects msvc_x64
           (ENHMETAHEADER.ENHMETAHEADER msvc_x64 None) overdeclared_header
           (mkFILE (header_stream overdeclared_header [] ++ [Byte.x00; Byte.x00]) [] 0)
           [Byte.x00; Byte.x00]).
  - vm_compute. repeat split; discriminate || reflexivity.
  - vm_compute. repeat split; discriminate || reflexivity.
  - reflexivity.
  - vm_compute. reflexivity.
Defined.

Lemma unserialize_terminates_description_witness :
  let h := ENHMETAHEADER.ENHMETAHEADER msvc_x64
             (Some (description_of [97; 98] [99] [])) in
  exists buffer,
    ENHMETAHEADER.description_w h = Some buffer /\
    Z.of_nat (length buffer) = ENHMETAHEADER.description_size h /\
    ENHMETAHEADER.description_size h =
      Z.max 2 (to_DWORD (ENHMETAHEADER.nSize h - ENHMETAHEADER.offDescription h) / 2) /\
    to_LONG (ENHMETAHEADER.nDescription h) <= ENHMETAHEADER.description_size h /\
    buffer !! Z.to_nat (ENHMETAHEADER.description_size h - 1) = Some 0 /\
    buffer !! Z.to_nat (ENHMETAHEADER.description_size h - 2) = Some 0.
Proof.
  intros h.
  apply (unserialize_terminates_description msvc_x64
           (ENHMETAHEADER.ENHMETAHEADER msvc_x64 None) h
           (mkFILE (wire_ENHMETAHEADER h) [] 0) (mkFILE [] [] 0)).
  vm_compute. reflexivity.
Defined.

(** ** Scalars on the stream *)

(** X3: The stream is little-endian on every platform, and integers wrap: on
    either byte order an integer written as a 32-bit (16-bit) quantity
    occupies its four (two) little-endian bytes, and reading those bytes
    back gives the value modulo 2^32 (2^16), as a two's-complement number
    for the signed types. *)
Theorem scalar_round_trip (pf : platform) (v : Z) :
  (encodes (write_DWORD pf v) (le_bytes 4 v) /\
   decodes (read_DWORD pf) (le_bytes 4 v) (to_DWORD v)) /\
  (encodes (write_LONG pf v) (le_bytes 4 v) /\
   decodes (read_LONG pf) (le_bytes 4 v) (to_LONG v)) /\
  (encodes (write_WORD pf v) (le_bytes 2 v) /\
   decodes (read_WORD pf) (le_bytes 2 v) (to_WORD v)) /\
  (encodes (write_INT16 pf v) (le_bytes 2 v) /\
   decodes (read_INT16 pf) (le_bytes 2 v) (to_INT16 v)) /\
  le_value (le_bytes 4 v) = to_DWORD v /\ le_value (le_bytes 2 v) = to_WORD v.
Proof.
  repeat split.
  - apply encodes_write4.
  - apply decodes_read4.
  - apply encodes_write4.
  - exact (decodes_map _ (signed 32) _ _ (decodes_read4 pf v)).
  - apply encodes_write2.
  - apply decodes_read2.
  - apply encodes_write2.
  - exact (decodes_map _ (signed 16) _ _ (decodes_read2 pf v)).
  - apply (le_value_le_bytes 4).
  - apply (le_value_le_bytes 2).
Qed.

(** ** Single-array point records *)

Section PolyLineRecords.
Variable pf : platform.
Variable k : EMRPOLYPOLYGON.kind.
Variable EMR_tag : Z.
Variable sizeof_struct : Z.

Lemma encodes_polyline (r : EMRPOLYLINE.t) :
  encodes (EMRPOLYLINE.serialize pf k r) (wire_EMRPOLYLINE k r).
Proof.
  unfold EMRPOLYLINE.serialize, wire_EMRPOLYLINE, EMRPOLYPOLYGON.write_points,
    write_POINTLARRAY, write_POINT16ARRAY, write_DWORD.
  destruct k; cbn [wire_point]; encodes_step.
Qed.

(** The stream constructor run over the fixed fields of a record. *)
Lemma polyline_fixed_fields (e : EMR) (bounds : RECTL) (cp : Z) (fp : FILE)
    (tail : list byte) :
  is_DWORD (iType e) -> is_DWORD (nSize e) -> is_RECTL bounds -> is_DWORD cp ->
  unread fp = wire_poly_fields e bounds cp ++ tail ->
  EMRPOLYLINE.parse pf k sizeof_struct fp =
    (if to_size_t pf (nSize e
                      - to_size_t pf (sizeof_struct - EMRPOLYPOLYGON.sizeof_point k))
        <? to_size_t pf (EMRPOLYPOLYGON.sizeof_point k * cp)
     then throw InvalidRecordSize
     else
       buffer <- EMRPOLYPOLYGON.read_points pf k (Z.to_nat cp) ;;
       ret (EMRPOLYLINE.mk e bounds cp buffer))
      {| unread := tail; written := written fp; room := room fp |}.
Proof.
  intros Ht Hs Hb Hcp E. unfold wire_poly_fields in E. rewrite <- !app_assoc in E.
  unfold EMRPOLYLINE.parse.
  erewrite bind_decodes; [|apply (decodes_read_EMR pf e); assumption|exact E].
  erewrite bind_decodes; [|apply decodes_read_RECTL; exact Hb|reflexivity].
  erewrite bind_decodes; [|apply decodes_read_DWORD; exact Hcp|reflexivity].
  reflexivity.
Qed.


(** The fields a point-record constructor computes. *)
Lemma polyline_constructed_fields (bounds : RECTL) (points : list POINT) (n : Z) :
  0 <= n <= Z.of_nat (length points) ->
  0 <= sizeof_struct - EMRPOLYPOLYGON.sizeof_point k ->
  sizeof_struct + EMRPOLYPOLYGON.sizeof_point k * n < 2 ^ 31 ->
  let r := EMRPOLYLINE.EMRPOLYLINE pf k EMR_tag sizeof_struct bounds points n in
  EMRPOLYLINE.cptl r = n /\
  nSize (EMRPOLYLINE.emr r) =
    sizeof_struct - EMRPOLYPOLYGON.sizeof_point k + EMRPOLYPOLYGON.sizeof_point k * n /\
  length (EMRPOLYLINE.lpoints r) = Z.to_nat n.
Proof.
  intros Hn Hfix Hsmall r. pose proof (sizeof_point_cases k) as HP.
  assert (Hc : to_DWORD n = n) by (apply to_DWORD_id; unfold is_DWORD; lia).
  unfold r, EMRPOLYLINE.EMRPOLYLINE.
  cbn [EMRPOLYLINE.cptl EMRPOLYLINE.emr EMRPOLYLINE.lpoints nSize].
  rewrite Hc. split; [reflexivity|]. split.
  - set (P := EMRPOLYPOLYGON.sizeof_point k) in *.
    assert (Hq : to_DWORD (to_size_t pf (sizeof_struct + P * to_DWORD (n - 1))) =
                 to_DWORD (sizeof_struct - P + P * n)).
    { rewrite to_DWORD_size_t. destruct (Z.eq_dec n 0) as [->|Hn0].
      - change (to_DWORD (0 - 1)) with (2 ^ 32 - 1). unfold to_DWORD, wrap.
        replace (sizeof_struct + P * (2 ^ 32 - 1))
          with (sizeof_struct - P + P * 0 + P * 2 ^ 32) by lia.
        apply Z.mod_add. lia.
      - rewrite (to_DWORD_id (n - 1)) by (unfold is_DWORD; lia). f_equal. lia. }
    rewrite Hq. apply to_DWORD_id. unfold is_DWORD. lia.
  - rewrite length_map, length_take. lia.
Qed.

(** X19: Round trip of the point records (all five, 32-bit or 16-bit points),
    whatever the tag and the structure size are: for a record built from
    [n] points, [size()] is the structure size plus [n - 1] points,
    [serialize] writes the 28 bytes of fixed fields and the [n] points,
    and the stream constructor run on those bytes (followed by anything)
    gives back the same record, field for field, and leaves what
    followed.  The encoded length equals [size()] exactly when the
    structure is the fixed fields and one point. *)
Theorem polyline_round_trip (bounds : RECTL) (points : list POINT) (n : Z) :
  is_DWORD EMR_tag -> is_RECTL bounds -> Forall is_POINTL points ->
  0 <= n <= Z.of_nat (length points) ->
  0 <= sizeof_struct - EMRPOLYPOLYGON.sizeof_point k ->
  sizeof_struct + EMRPOLYPOLYGON.sizeof_point k * n < 2 ^ 31 ->
  let r := EMRPOLYLINE.EMRPOLYLINE pf k EMR_tag sizeof_struct bounds points n in
  EMRPOLYLINE.size r = sizeof_struct + EMRPOLYPOLYGON.sizeof_point k * (n - 1) /\
  Z.of_nat (length (wire_EMRPOLYLINE k r)) = 28 + EMRPOLYPOLYGON.sizeof_point k * n /\
  (forall out, (length (wire_EMRPOLYLINE k r) <= room out)%nat ->
     EMRPOLYLINE.serialize pf k r out = Ok (tt, emit (wire_EMRPOLYLINE k r) out)) /\
  (forall fp rest, unread fp = wire_EMRPOLYLINE k r ++ rest ->
     EMRPOLYLINE.parse pf k sizeof_struct fp =
       Ok (r, {| unread := rest; written := written fp; room := room fp |})).
Proof.
  intros Htag Hb Hpts Hn Hfix Hsmall r.
  destruct (polyline_constructed_fields bounds points n Hn Hfix Hsmall)
    as (Hc & Hsize & Hlen).
  fold r in Hc, Hsize, Hlen.
  pose proof (sizeof_point_cases k) as HP.
  set (P := EMRPOLYPOLYGON.sizeof_point k) in *.
  assert (Hok : Forall (point_ok k) (EMRPOLYLINE.lpoints r)).
  { unfold r, EMRPOLYLINE.EMRPOLYLINE. cbn [EMRPOLYLINE.lpoints].
    apply Forall_map. apply Forall_take. eapply Forall_impl; [exact Hpts|].
    intros p Hp'. apply store_point_ok. exact Hp'. }
  assert (Hwire : wire_EMRPOLYLINE k r =
            wire_poly_fields (EMRPOLYLINE.emr r) bounds n ++
            wire_each (wire_point k) (EMRPOLYLINE.lpoints r)).
  { unfold wire_EMRPOLYLINE, wire_poly_fields. rewrite Hc.
    rewrite take_ge by lia. rewrite <- !app_assoc. reflexivity. }
  split; [|split; [|split]].
  - unfold EMRPOLYLINE.size. rewrite Hsize, to_LONG_id by (unfold is_LONG; lia). lia.
  - rewrite Hwire. unfold wire_poly_fields.
    rewrite !length_app, length_wire_EMR, length_wire_RECTL, length_le_bytes.
    rewrite (length_wire_each _ (Z.to_nat P)), Hlen
      by (intros p; pose proof (length_wire_point k p); fold P in H; lia).
    destruct HP as [HP | HP]; rewrite HP; lia.
  - intros out Hroom. rewrite (encodes_polyline r out). unfold fwrite.
    apply Nat.ltb_ge in Hroom. rewrite Hroom. reflexivity.
  - intros fp rest E. rewrite Hwire, <- app_assoc in E.
    rewrite (polyline_fixed_fields (EMRPOLYLINE.emr r) bounds n fp
               (wire_each (wire_point k) (EMRPOLYLINE.lpoints r) ++ rest));
      [| | | | |exact E].
    + fold P. rewrite Hsize.
      rewrite (to_size_t_id pf (sizeof_struct - P)) by (unfold is_DWORD; lia).
      rewrite (to_size_t_id pf _) by (unfold is_DWORD; lia).
      rewrite (to_size_t_id pf (P * n)) by (unfold is_DWORD; lia).
      destruct (Z.ltb_spec (sizeof_struct - P + P * n - (sizeof_struct - P)) (P * n));
        [lia|].
      rewrite read_points_each, <- Hlen.
      erewrite bind_decodes;
        [|apply (decodes_read_each _ (wire_point k) (point_ok k));
          [intros a Ha; apply decodes_point; exact Ha|exact Hok]
         |reflexivity].
      unfold ret. f_equal. f_equal. unfold r, EMRPOLYLINE.EMRPOLYLINE.
      cbn [EMRPOLYLINE.emr EMRPOLYLINE.lpoints]. f_equal.
      symmetry. apply to_DWORD_id. unfold is_DWORD. lia.
    + exact Htag.
    + rewrite Hsize. unfold is_DWORD. lia.
    + exact Hb.
    + unfold is_DWORD. lia.
Qed.
End PolyLineRecords.


Lemma polyline_round_trip_witness :
  let r := EMRPOLYLINE.EMRPOLYLINE msvc_x64 EMRPOLYPOLYGON.Points16 87 32
             (mkRECTL 0 0 9 9) [mkPOINT 0 0; mkPOINT 70000 (-3); mkPOINT 9 9] 2 in
  EMRPOLYLINE.parse msvc_x64 EMRPOLYPOLYGON.Points16 32
    (mkFILE (wire_EMRPOLYLINE EMRPOLYPOLYGON.Points16 r ++ [Byte.xff]) [] 0) =
  Ok (r, mkFILE [Byte.xff] [] 0).
Proof.
  intros r.
  apply (polyline_round_trip msvc_x64 EMRPOLYPOLYGON.Points16 87 32
           (mkRECTL 0 0 9 9) [mkPOINT 0 0; mkPOINT 70000 (-3); mkPOINT 9 9] 2).
  - vm_compute. split; discriminate || reflexivity.
  - vm_compute. repeat split; discriminate || reflexivity.
  - repeat constructor; vm_compute; discriminate || reflexivity.
  - simpl. lia.
  - vm_compute. discriminate.
  - vm_compute. reflexivity.
  - reflexivity.
Defined.

(** ** The end-of-file and miter-limit records *)

Section FixedRecords.
Variable pf : platform.

Lemma read_EMR_Ok_inv (fp fp' : FILE) (e : EMR) :
  read_EMR pf fp = Ok (e, fp') ->
  is_DWORD (iType e) /\ is_DWORD (nSize e) /\
  unread fp = wire_EMR e ++ unread fp' /\
  written fp' = written fp /\ room fp' = room fp.
Proof.
  unfold read_EMR. intros H.
  apply bind_inv in H as (a & f1 & Ha & H).
  apply bind_inv in H as (b & f2 & Hb & H).
  injection H as <- <-.
  apply read4_Ok_inv in Ha as (Ha & Ua & Wa & Ra).
  apply read4_Ok_inv in Hb as (Hb & Ub & Wb & Rb).
  unfold wire_EMR. cbn [iType nSize].
  split; [exact Ha|]. split; [exact Hb|].
  split; [rewrite Ua, Ub, <- app_assoc; reflexivity|].
  split; congruence.
Qed.

(** X21: The end-of-file record and its 20 bytes stand in one-to-one
    correspondence.  [serialize] writes exactly 20 bytes for every record,
    whatever [nSize] it carries; the stream constructor run on them gives
    the record back; and conversely whatever the stream constructor
    returns is a record with all fields in range whose [serialize] output
    is exactly the 20 bytes it consumed, the stream being otherwise
    untouched. *)
Theorem eof_round_trip (r : EMREOF.t) (fp fp' : FILE) :
  (is_EMREOF r ->
   length (wire_EMREOF r) = 20%nat /\
   (forall out, (20 <= room out)%nat ->
      EMREOF.serialize pf r out = Ok (tt, emit (wire_EMREOF r) out)) /\
   (forall rest, unread fp = wire_EMREOF r ++ rest ->
      EMREOF.parse pf fp =
        Ok (r, {| unread := rest; written := written fp; room := room fp |}))) /\
  (EMREOF.parse pf fp = Ok (r, fp') ->
   is_EMREOF r /\ unread fp = wire_EMREOF r ++ unread fp' /\
   written fp' = written fp /\ room fp' = room fp).
Proof.
  split.
  - intros (Ht & Hs & Hn & Ho & Hl). split; [reflexivity|]. split.
    + intros out Hroom.
      assert (Henc : encodes (EMREOF.serialize pf r) (wire_EMREOF r)).
      { unfold EMREOF.serialize, wire_EMREOF, write_DWORD. encodes_step. }
      rewrite (Henc out). unfold fwrite.
      change (length (wire_EMREOF r)) with 20%nat.
      apply Nat.ltb_ge in Hroom. rewrite Hroom. reflexivity.
    + intros rest E. destruct r as [e n o l].
      unfold wire_EMREOF in E.
      cbn [EMREOF.emr EMREOF.nPalEntries EMREOF.offPalEntries EMREOF.nSizeLast] in *.
      rewrite <- !app_assoc in E. unfold EMREOF.parse.
      erewrite bind_decodes; [|apply (decodes_read_EMR pf e); assumption|exact E].
      erewrite bind_decodes; [|apply decodes_read_DWORD; exact Hn|reflexivity].
      erewrite bind_decodes; [|apply decodes_read_DWORD; exact Ho|reflexivity].
      erewrite bind_decodes; [|apply decodes_read_DWORD; exact Hl|reflexivity].
      reflexivity.
  - unfold EMREOF.parse. intros H.
    apply bind_inv in H as (e & f1 & He & H).
    apply bind_inv in H as (n & f2 & Hn & H).
    apply bind_inv in H as (o & f3 & Ho & H).
    apply bind_inv in H as (l & f4 & Hl & H).
    injection H as <- <-.
    apply read_EMR_Ok_inv in He as (Ht & Hs & Ue & We & Re).
    apply read4_Ok_inv in Hn as (Hn & Un & Wn & Rn).
    apply read4_Ok_inv in Ho as (Ho & Uo & Wo & Ro).
    apply read4_Ok_inv in Hl as (Hl & Ul & Wl & Rl).
    unfold is_EMREOF, wire_EMREOF.
    cbn [EMREOF.emr EMREOF.nPalEntries EMREOF.offPalEntries EMREOF.nSizeLast].
    split; [exact (conj Ht (conj Hs (conj Hn (conj Ho Hl))))|].
    split; [rewrite Ue, Un, Uo, Ul, <- !app_assoc; reflexivity|].
    split; congruence.
Qed.

End FixedRecords.

Lemma eof_round_trip_witness :
  EMREOF.parse msvc_x64
    (mkFILE (wire_EMREOF (EMREOF.mk (mkEMR 14 20) 0 0 20) ++ [Byte.xff]) [] 0) =
  Ok (EMREOF.mk (mkEMR 14 20) 0 0 20, mkFILE [Byte.xff] [] 0).
Proof.
  refine (proj2 (proj2 (proj1 (eof_round_trip msvc_x64 (EMREOF.mk (mkEMR 14 20) 0 0 20)
           (mkFILE (wire_EMREOF (EMREOF.mk (mkEMR 14 20) 0 0 20) ++ [Byte.xff]) [] 0)
           (mkFILE [] [] 0)) _)) [Byte.xff] _).
  - vm_compute. repeat split; discriminate || reflexivity.
  - reflexivity.
Defined.


(** ** Structures and arrays on the stream *)

Section StructureCodec.
Variable pf : platform.

Lemma decodes_LONG_wrap (v : Z) : decodes (read_LONG pf) (le_bytes 4 v) (to_LONG v).
Proof. exact (decodes_map _ (signed 32) _ _ (decodes_read4 pf v)). Qed.

Lemma decodes_INT16_wrap (v : Z) : decodes (read_INT16 pf) (le_bytes 2 v) (to_INT16 v).
Proof. exact (decodes_map _ (signed 16) _ _ (decodes_read2 pf v)). Qed.

Lemma decodes_DWORD_wrap (v : Z) : decodes (read_DWORD pf) (le_bytes 4 v) (to_DWORD v).
Proof. apply decodes_read4. Qed.

Lemma decodes_RECTL_wrap (r : RECTL) :
  decodes (read_RECTL pf) (wire_RECTL r) (wrap_RECTL r).
Proof.
  unfold read_RECTL, wire_RECTL, wrap_RECTL.
  repeat (eapply decodes_bind; [apply decodes_LONG_wrap|]).
  apply (decodes_map _ (fun v => mkRECTL (to_LONG (left r)) (to_LONG (top r))
                                   (to_LONG (right r)) v)).
  apply decodes_LONG_wrap.
Qed.

Lemma decodes_SIZEL_wrap (s : SIZEL) :
  decodes (read_SIZEL pf) (wire_SIZEL s) (wrap_SIZEL s).
Proof.
  unfold read_SIZEL, wire_SIZEL, wrap_SIZEL.
  eapply decodes_bind; [apply decodes_LONG_wrap|].
  apply (decodes_map _ (fun v => mkSIZEL (to_LONG (cx s)) v)).
  apply decodes_LONG_wrap.
Qed.

Lemma decodes_POINTL_wrap (p : POINT) :
  decodes (read_POINTL pf) (wire_POINTL p) (wrap_POINTL p).
Proof.
  unfold read_POINTL, wire_POINTL, wrap_POINTL.
  eapply decodes_bind; [apply decodes_LONG_wrap|].
  apply (decodes_map _ (fun v => mkPOINT (to_LONG (x p)) v)).
  apply decodes_LONG_wrap.
Qed.

Lemma decodes_POINT16_wrap (p : POINT) :
  decodes (read_POINT16 pf) (wire_POINT16 p) (wrap_POINT16 p).
Proof.
  unfold read_POINT16, wire_POINT16, wrap_POINT16.
  eapply decodes_bind; [apply decodes_INT16_wrap|].
  apply (decodes_map _ (fun v => mkPOINT (to_INT16 (x p)) v)).
  apply decodes_INT16_wrap.
Qed.

Lemma decodes_EMR_wrap (e : EMR) :
  decodes (read_EMR pf) (wire_EMR e) (wrap_EMR e).
Proof.
  unfold read_EMR, wire_EMR, wrap_EMR.
  eapply decodes_bind; [apply decodes_DWORD_wrap|].
  apply (decodes_map _ (fun v => mkEMR (to_DWORD (iType e)) v)).
  apply decodes_DWORD_wrap.
Qed.

Lemma decodes_EMRTEXT_wrap (e : EMRTEXT) :
  decodes (read_EMRTEXT pf) (wire_EMRTEXT e) (wrap_EMRTEXT e).
Proof.
  unfold read_EMRTEXT, wire_EMRTEXT, wrap_EMRTEXT.
  eapply decodes_bind; [apply decodes_POINTL_wrap|].
  eapply decodes_bind; [apply decodes_DWORD_wrap|].
  eapply decodes_bind; [apply decodes_DWORD_wrap|].
  eapply decodes_bind; [apply decodes_DWORD_wrap|].
  eapply decodes_bind; [apply decodes_RECTL_wrap|].
  apply (decodes_map _ (fun v => mkEMRTEXT (wrap_POINTL (ptlReference e))
                                   (to_DWORD (nChars e)) (to_DWORD (offString e))
                                   (to_DWORD (fOptions e)) (wrap_RECTL (rcl e)) v)).
  apply decodes_DWORD_wrap.
Qed.

Lemma decodes_read_each_map {A} (rd : io A) (w : A -> list byte) (f : A -> A) :
  (forall a, decodes rd (w a) (f a)) ->
  forall l, decodes (read_each rd (length l)) (wire_each w l) (map f l).
Proof.
  intros H l. induction l as [|a l IH]; simpl.
  - apply decodes_ret.
  - unfold wire_each. simpl. eapply decodes_bind; [apply H|].
    rewrite <- (app_nil_r (concat _)).
    eapply decodes_bind; [exact IH|apply decodes_ret].
Qed.

(** X4: The structure operators are inverse to each other up to wrapping.
    Whatever the byte order, a rectangle, size, point, 16-bit point,
    record frame or text descriptor is written as its fields in order,
    little-endian (16, 8, 8, 4, 8 and 40 bytes), and reading those bytes
    back gives the structure with every field wrapped to its type: a
    32-bit point keeps coordinates within [LONG], a 16-bit point keeps only
    the low 16 bits of each coordinate. *)
Theorem structure_round_trip (r : RECTL) (s : SIZEL) (p : POINT) (e : EMR)
    (t : EMRTEXT) :
  (encodes (write_RECTL pf r) (wire_RECTL r) /\
   decodes (read_RECTL pf) (wire_RECTL r) (wrap_RECTL r) /\
   length (wire_RECTL r) = 16%nat) /\
  (encodes (write_SIZEL pf s) (wire_SIZEL s) /\
   decodes (read_SIZEL pf) (wire_SIZEL s) (wrap_SIZEL s) /\
   length (wire_SIZEL s) = 8%nat) /\
  (encodes (write_POINTL pf p) (wire_POINTL p) /\
   decodes (read_POINTL pf) (wire_POINTL p) (wrap_POINTL p) /\
   length (wire_POINTL p) = 8%nat) /\
  (encodes (write_POINT16 pf p) (wire_POINT16 p) /\
   decodes (read_POINT16 pf) (wire_POINT16 p) (wrap_POINT16 p) /\
   length (wire_POINT16 p) = 4%nat) /\
  (encodes (write_EMR pf e) (wire_EMR e) /\
   decodes (read_EMR pf) (wire_EMR e) (wrap_EMR e) /\
   length (wire_EMR e) = 8%nat) /\
  (encodes (write_EMRTEXT pf t) (wire_EMRTEXT t) /\
   decodes (read_EMRTEXT pf) (wire_EMRTEXT t) (wrap_EMRTEXT t) /\
   length (wire_EMRTEXT t) = 40%nat).
Proof.
  repeat match goal with |- _ /\ _ => split end; try reflexivity.
  - apply encodes_write_RECTL.
  - apply decodes_RECTL_wrap.
  - apply encodes_write_SIZEL.
  - apply decodes_SIZEL_wrap.
  - apply encodes_write_POINTL.
  - apply decodes_POINTL_wrap.
  - apply encodes_write_POINT16.
  - apply decodes_POINT16_wrap.
  - apply encodes_write_EMR.
  - apply decodes_EMR_wrap.
  - apply encodes_write_EMRTEXT.
  - apply decodes_EMRTEXT_wrap.
Qed.

(** X5: The array operators transfer the first [n] elements, one after the
    other.  For a buffer that holds at least [n] elements, writing [n] of
    them emits the elements' bytes in order, and reading [n] elements from
    those bytes gives the same elements wrapped to the element type; bytes
    and characters come back unchanged. *)
Theorem array_round_trip (n : nat) (dwords ints wchars : list Z)
    (points : list POINT) (chars : list byte) :
  (n <= length dwords)%nat -> (n <= length ints)%nat -> (n <= length wchars)%nat ->
  (n <= length points)%nat -> (n <= length chars)%nat ->
  (encodes (write_DWORDARRAY pf dwords n) (wire_each (le_bytes 4) (take n dwords)) /\
   decodes (read_DWORDARRAY pf n) (wire_each (le_bytes 4) (take n dwords))
           (map to_DWORD (take n dwords))) /\
  (encodes (write_INTARRAY pf ints n) (wire_each (le_bytes 4) (take n ints)) /\
   decodes (read_INTARRAY pf n) (wire_each (le_bytes 4) (take n ints))
           (map to_LONG (take n ints))) /\
  (encodes (write_WCHARSTR pf wchars n) (wire_each (le_bytes 2) (take n wchars)) /\
   decodes (read_WCHARSTR pf n) (wire_each (le_bytes 2) (take n wchars))
           (map to_WORD (take n wchars))) /\
  (encodes (write_POINTLARRAY pf points n) (wire_each wire_POINTL (take n points)) /\
   decodes (read_POINTLARRAY pf n) (wire_each wire_POINTL (take n points))
           (map wrap_POINTL (take n points))) /\
  (encodes (write_POINT16ARRAY pf points n) (wire_each wire_POINT16 (take n points)) /\
   decodes (read_POINT16ARRAY pf n) (wire_each wire_POINT16 (take n points))
           (map wrap_POINT16 (take n points))) /\
  (encodes (write_CHARSTR chars n) (take n chars) /\
   decodes (read_CHARSTR n) (take n chars) (take n chars)) /\
  (encodes (write_BYTEARRAY chars n) (take n chars) /\
   decodes (read_BYTEARRAY n) (take n chars) (take n chars)).
Proof.
  intros Hd Hi Hw Hp Hc.
  assert (Ld : length (take n dwords) = n) by (rewrite length_take; lia).
  assert (Li : length (take n ints) = n) by (rewrite length_take; lia).
  assert (Lw : length (take n wchars) = n) by (rewrite length_take; lia).
  assert (Lp : length (take n points) = n) by (rewrite length_take; lia).
  assert (Lc : length (take n chars) = n) by (rewrite length_take; lia).
  repeat match goal with |- _ /\ _ => split end.
  - unfold write_DWORDARRAY, write_DWORD. encodes_step.
  - unfold read_DWORDARRAY. rewrite <- Ld at 1.
    apply decodes_read_each_map. apply decodes_DWORD_wrap.
  - unfold write_INTARRAY, write_INT. encodes_step.
  - unfold read_INTARRAY. rewrite <- Li at 1.
    apply decodes_read_each_map. apply decodes_LONG_wrap.
  - unfold write_WCHARSTR, write_WORD. encodes_step.
  - unfold read_WCHARSTR. rewrite <- Lw at 1.
    apply decodes_read_each_map. apply decodes_read2.
  - unfold write_POINTLARRAY. encodes_step.
  - unfold read_POINTLARRAY. rewrite <- Lp at 1.
    apply decodes_read_each_map. apply decodes_POINTL_wrap.
  - unfold write_POINT16ARRAY. encodes_step.
  - unfold read_POINT16ARRAY. rewrite <- Lp at 1.
    apply decodes_read_each_map. apply decodes_POINT16_wrap.
  - unfold write_CHARSTR. apply encodes_fwrite.
  - unfold read_CHARSTR. rewrite <- Lc at 1. apply decodes_fread.
  - unfold write_BYTEARRAY. apply encodes_fwrite.
  - unfold read_BYTEARRAY. rewrite <- Lc at 1. apply decodes_fread.
Qed.
End StructureCodec.

Lemma array_round_trip_witness :
  read_POINT16ARRAY msvc_x64 2
    (mkFILE (wire_each wire_POINT16
               (take 2 [mkPOINT 1 2; mkPOINT 70000 (-3); mkPOINT 5 5]) ++ [Byte.xff])
            [] 0) =
  Ok (map wrap_POINT16 (take 2 [mkPOINT 1 2; mkPOINT 70000 (-3); mkPOINT 5 5]),
      mkFILE [Byte.xff] [] 0).
Proof.
  refine (proj2 (proj1 (proj2 (proj2 (proj2 (proj2
            (array_round_trip msvc_x64 2 [1; 2] [1; 2] [1; 2]
               [mkPOINT 1 2; mkPOINT 70000 (-3); mkPOINT 5 5] [Byte.x00; Byte.x01]
               _ _ _ _ _))))))
            (mkFILE (wire_each wire_POINT16
                       (take 2 [mkPOINT 1 2; mkPOINT 70000 (-3); mkPOINT 5 5])
                     ++ [Byte.xff]) [] 0)
            [Byte.xff] eq_refl); simpl; lia.
Defined.

(** ** Wide text records *)

Section WideTextRecords.
Variable pf : platform.
Variable EMR_tag : Z.
Variable sizeof_struct : Z.

Lemma encodes_exttextoutw (r : EMREXTTEXTOUTW.t) :
  encodes (EMREXTTEXTOUTW.serialize pf r) (wire_EMREXTTEXTOUTW r).
Proof.
  unfold EMREXTTEXTOUTW.serialize, wire_EMREXTTEXTOUTW, wire_text_fields,
    write_WCHARSTR, write_INTARRAY, write_DWORD, write_FLOAT, write_INT, write_WORD.
  rewrite <- !app_assoc.
  destruct (EMREXTTEXTOUTW.dx_i r).
  - encodes_step.
  - encodes_step.
Qed.

Lemma length_wire_exttextoutw (r : EMREXTTEXTOUTW.t) :
  exttextoutw_wf r ->
  Z.of_nat (length (wire_EMREXTTEXTOUTW r)) =
    76 + 2 * ROUND_TO_LONG (nChars (EMREXTTEXTOUTW.emrtext r))
       + match EMREXTTEXTOUTW.dx_i r with
         | Some _ => 4 * nChars (EMREXTTEXTOUTW.emrtext r)
         | None => 0
         end.
Proof.
  unfold exttextoutw_wf. cbv zeta.
  intros (_ & _ & _ & _ & _ & _ & Htext & _ & _ & HR & (s & Hs & Hlen & _) & Hsz & Hdx).
  pose proof (ROUND_TO_LONG_DWORD (nChars (EMREXTTEXTOUTW.emrtext r))) as HRd.
  assert (Hn : is_DWORD (nChars (EMREXTTEXTOUTW.emrtext r))) by apply Htext.
  unfold is_DWORD in *.
  unfold wire_EMREXTTEXTOUTW, wire_text_fields. rewrite Hs, Hsz.
  rewrite !length_app, length_wire_EMR, length_wire_RECTL, !length_le_bytes,
    length_wire_EMRTEXT.
  rewrite (length_wire_each _ 2) by reflexivity. rewrite length_take.
  destruct (EMREXTTEXTOUTW.dx_i r) as [d|].
  - destruct Hdx as (_ & Hd & _).
    rewrite (length_wire_each _ 4) by reflexivity. rewrite length_take. lia.
  - simpl length. lia.
Qed.

(** On a stream that starts with the wire image of a well-formed wide
    text record the stream constructor returns that record and leaves the
    rest. *)
Lemma decodes_exttextoutw (r : EMREXTTEXTOUTW.t) (fp : FILE) (rest : list byte) :
  exttextoutw_wf r ->
  unread fp = wire_EMREXTTEXTOUTW r ++ rest ->
  EMREXTTEXTOUTW.parse pf fp =
    Ok (r, {| unread := rest; written := written fp; room := room fp |}).
Proof.
  destruct r as [e bounds g xs ys text sa ss dx].
  unfold exttextoutw_wf.
  cbn [EMREXTTEXTOUTW.emr EMREXTTEXTOUTW.rclBounds EMREXTTEXTOUTW.iGraphicsMode
       EMREXTTEXTOUTW.exScale EMREXTTEXTOUTW.eyScale EMREXTTEXTOUTW.emrtext
       EMREXTTEXTOUTW.string_a EMREXTTEXTOUTW.string_size EMREXTTEXTOUTW.dx_i].
  cbv zeta.
  intros (Ht & Hs & Hb & Hg & Hx & Hy & Htext & Hoff & Hn & HR
          & (s & -> & Hlen & Hws) & -> & Hdx) E.
  pose proof (ROUND_TO_LONG_DWORD (nChars text)) as HRd.
  set (R := ROUND_TO_LONG (nChars text)) in *.
  assert (Hnc : is_DWORD (nChars text)) by apply Htext.
  assert (E' : unread fp =
            wire_text_fields e bounds g xs ys text ++
            (wire_each (le_bytes 2) s ++
             match dx with
             | Some d => wire_each (le_bytes 4) d
             | None => []
             end ++ rest)).
  { rewrite E. unfold wire_EMREXTTEXTOUTW.
    cbn [EMREXTTEXTOUTW.emr EMREXTTEXTOUTW.rclBounds EMREXTTEXTOUTW.iGraphicsMode
         EMREXTTEXTOUTW.exScale EMREXTTEXTOUTW.eyScale EMREXTTEXTOUTW.emrtext
         EMREXTTEXTOUTW.string_a EMREXTTEXTOUTW.string_size EMREXTTEXTOUTW.dx_i].
    rewrite (take_ge s) by lia.
    destruct dx as [d|].
    - destruct Hdx as (_ & Hd & _). rewrite (take_ge d) by lia.
      rewrite <- !app_assoc. reflexivity.
    - rewrite <- !app_assoc. reflexivity. }
  unfold EMREXTTEXTOUTW.parse.
  rewrite (exttextouta_fixed_fields pf e bounds g xs ys text fp _
             Ht Hs Hb Hg Hx Hy Htext E').
  destruct (Z.eqb_spec (offString text) 0) as [Hz|Hz]; [lia|].
  rewrite andb_false_r.
  rewrite (to_DWORD_id (nSize e - offString text)) by (unfold is_DWORD in *; lia).
  destruct (Z.ltb_spec (nSize e - offString text) (nChars text)); [lia|].
  cbn [negb]. fold R.
  rewrite (to_LONG_id R) by (unfold is_LONG, is_DWORD in *; lia).
  rewrite <- Hlen. unfold read_WCHARSTR.
  erewrite bind_decodes;
    [|apply (decodes_map _ (fun c => (Some c, Some R)));
      apply (decodes_read_each _ (le_bytes 2) is_WORD);
      [intros a Ha; apply decodes_read_WORD; exact Ha|exact Hws]
     |reflexivity].
  destruct dx as [d|].
  - destruct Hdx as (Hod & Hd & Hall).
    destruct (Z.eqb_spec (offDx text) 0) as [Hz'|Hz']; [contradiction|].
    cbn [negb]. rewrite <- Hd. unfold read_INTARRAY.
    erewrite bind_decodes;
      [|apply (decodes_map _ (fun l => Some l));
        apply (decodes_read_each _ (le_bytes 4) is_LONG);
        [intros a Ha; apply decodes_read_INT; exact Ha|exact Hall]
       |reflexivity].
    reflexivity.
  - rewrite Hdx. cbn [Z.eqb negb]. reflexivity.
Qed.

Lemma constructed_exttextoutw_wf (bounds : RECTL) (graphicsMode xScale yScale : Z)
    (text : EMRTEXT) (string : list Z) (dx : option (list Z)) :
  is_DWORD EMR_tag -> 0 < sizeof_struct ->
  is_RECTL bounds -> is_DWORD graphicsMode -> is_DWORD xScale -> is_DWORD yScale ->
  is_POINTL (ptlReference text) -> is_DWORD (fOptions text) -> is_RECTL (rcl text) ->
  0 <= nChars text <= Z.of_nat (length string) ->
  Forall is_WORD (take (Z.to_nat (nChars text)) string) ->
  (forall d, dx = Some d ->
     nChars text <= Z.of_nat (length d) /\
     Forall is_LONG (take (Z.to_nat (nChars text)) d)) ->
  sizeof_struct + sizeof_WCHAR * (nChars text + 3) + sizeof_INT * nChars text
    < 2 ^ 31 ->
  let r := EMREXTTEXTOUTW.EMREXTTEXTOUTW pf EMR_tag sizeof_struct bounds
             graphicsMode xScale yScale text string dx in
  exttextoutw_wf r /\
  nSize (EMREXTTEXTOUTW.emr r) =
    sizeof_struct + 2 * ROUND_TO_LONG (nChars text)
      + match dx with Some _ => 4 * nChars text | None => 0 end.
Proof.
  intros Htag Hss Hb Hg Hx Hy Hp Hf Hrc Hn Hws Hdx Hsmall r.
  unfold sizeof_WCHAR, sizeof_INT in *.
  destruct (ROUND_TO_LONG_spec (nChars text)) as (_ & HRb & _); [lia|lia|].
  unfold r, exttextoutw_wf, EMREXTTEXTOUTW.EMREXTTEXTOUTW.
  cbn [EMREXTTEXTOUTW.emr EMREXTTEXTOUTW.rclBounds EMREXTTEXTOUTW.iGraphicsMode
       EMREXTTEXTOUTW.exScale EMREXTTEXTOUTW.eyScale EMREXTTEXTOUTW.emrtext
       EMREXTTEXTOUTW.string_a EMREXTTEXTOUTW.string_size EMREXTTEXTOUTW.dx_i
       EMREXTTEXTOUTA.with_offsets nChars offString offDx ptlReference fOptions rcl
       iType nSize].
  cbv zeta. unfold sizeof_WCHAR, sizeof_INT.
  set (R := ROUND_TO_LONG (nChars text)) in *.
  rewrite (to_LONG_id R) by (unfold is_LONG; lia).
  rewrite (to_size_t_id pf sizeof_struct) by (unfold is_DWORD; lia).
  rewrite (to_DWORD_id sizeof_struct) by (unfold is_DWORD; lia).
  rewrite (to_size_t_id pf R) by (unfold is_DWORD; lia).
  rewrite (to_size_t_id pf (sizeof_struct + R * 2)) by (unfold is_DWORD; lia).
  rewrite (to_DWORD_id (sizeof_struct + R * 2)) by (unfold is_DWORD; lia).
  rewrite (to_size_t_id pf (sizeof_struct + R * 2 + nChars text * 4))
    by (unfold is_DWORD; lia).
  rewrite (to_DWORD_id (sizeof_struct + R * 2 + nChars text * 4))
    by (unfold is_DWORD; lia).
  split; [|destruct dx; lia].
  split; [exact Htag|].
  split; [unfold is_DWORD; destruct dx; lia|].
  split; [exact Hb|]. split; [exact Hg|]. split; [exact Hx|]. split; [exact Hy|].
  split.
  { unfold is_EMRTEXT.
    cbn [EMREXTTEXTOUTA.with_offsets nChars offString offDx ptlReference fOptions rcl].
    split; [exact Hp|]. split; [unfold is_DWORD; lia|].
    split; [unfold is_DWORD; lia|]. split; [exact Hf|]. split; [exact Hrc|].
    unfold is_DWORD; destruct dx; lia. }
  split; [destruct dx; lia|]. split; [destruct dx; lia|]. split; [lia|].
  split.
  { eexists. split; [reflexivity|].
    split; [rewrite length_app, length_take, length_replicate; lia|].
    apply Forall_app. split; [exact Hws|].
    apply Forall_replicate. unfold is_WORD. lia. }
  split; [reflexivity|].
  destruct dx as [d|]; [|reflexivity].
  destruct (Hdx d eq_refl) as (Hlen & Hall).
  split; [lia|]. split; [rewrite length_take; lia|exact Hall].
Qed.

(** X23: Round trip of a constructed wide text record, whatever the tag and
    the structure size are: the string buffer holds
    [ROUND_TO_LONG(nChars)] code units of two bytes, [size()] is the
    structure size plus twice that number plus four bytes per character
    when a spacing array is given, [serialize] writes the 76 bytes of
    fixed fields, the code units and the spacings, and the stream
    constructor run on those bytes (followed by anything) gives back the
    same record and leaves what followed. *)
Theorem exttextoutw_round_trip (bounds : RECTL) (graphicsMode xScale yScale : Z)
    (text : EMRTEXT) (string : list Z) (dx : option (list Z)) :
  is_DWORD EMR_tag -> 0 < sizeof_struct ->
  is_RECTL bounds -> is_DWORD graphicsMode -> is_DWORD xScale -> is_DWORD yScale ->
  is_POINTL (ptlReference text) -> is_DWORD (fOptions text) -> is_RECTL (rcl text) ->
  0 <= nChars text <= Z.of_nat (length string) ->
  Forall is_WORD (take (Z.to_nat (nChars text)) string) ->
  (forall d, dx = Some d ->
     nChars text <= Z.of_nat (length d) /\
     Forall is_LONG (take (Z.to_nat (nChars text)) d)) ->
  sizeof_struct + sizeof_WCHAR * (nChars text + 3) + sizeof_INT * nChars text
    < 2 ^ 31 ->
  let r := EMREXTTEXTOUTW.EMREXTTEXTOUTW pf EMR_tag sizeof_struct bounds
             graphicsMode xScale yScale text string dx in
  let extent := 2 * ROUND_TO_LONG (nChars text)
                + match dx with Some _ => 4 * nChars text | None => 0 end in
  EMREXTTEXTOUTW.size r = sizeof_struct + extent /\
  Z.of_nat (length (wire_EMREXTTEXTOUTW r)) = 76 + extent /\
  (forall out, (length (wire_EMREXTTEXTOUTW r) <= room out)%nat ->
     EMREXTTEXTOUTW.serialize pf r out = Ok (tt, emit (wire_EMREXTTEXTOUTW r) out)) /\
  (forall fp rest, unread fp = wire_EMREXTTEXTOUTW r ++ rest ->
     EMREXTTEXTOUTW.parse pf fp =
       Ok (r, {| unread := rest; written := written fp; room := room fp |})).
Proof.
  intros Htag Hss Hb Hg Hx Hy Hp Hf Hrc Hn Hws Hdx Hsmall r extent.
  destruct (constructed_exttextoutw_wf bounds graphicsMode xScale yScale text
              string dx Htag Hss Hb Hg Hx Hy Hp Hf Hrc Hn Hws Hdx Hsmall)
    as (Hwf & Hsize).
  fold r in Hwf, Hsize.
  unfold sizeof_WCHAR, sizeof_INT in *.
  destruct (ROUND_TO_LONG_spec (nChars text)) as (_ & HRb & _); [lia|lia|].
  split; [|split; [|split]].
  - unfold EMREXTTEXTOUTW.size. rewrite Hsize. unfold extent.
    rewrite to_LONG_id by (unfold is_LONG; destruct dx; lia). lia.
  - rewrite (length_wire_exttextoutw r Hwf). unfold extent, r.
    cbn [EMREXTTEXTOUTW.EMREXTTEXTOUTW EMREXTTEXTOUTW.emrtext EMREXTTEXTOUTW.dx_i
         EMREXTTEXTOUTA.with_offsets nChars].
    destruct dx; lia.
  - intros out Hroom. rewrite (encodes_exttextoutw r out). unfold fwrite.
    apply Nat.ltb_ge in Hroom. rewrite Hroom. reflexivity.
  - intros fp rest E. apply decodes_exttextoutw; assumption.
Qed.

(** X24: The text check of the wide stream constructor counts characters
    where the record counts bytes.  A record on the stream that passes
    the check is read in full, its string taking
    [2 * ROUND_TO_LONG(nChars)] bytes; so when the string starts right
    after the 76 bytes of fixed fields and the declared size leaves just
    [nChars] bytes for it (one byte per character), the constructor
    accepts the record and consumes at least [nChars] bytes more than the
    record declares. *)
Theorem exttextoutw_check_counts_characters (r : EMREXTTEXTOUTW.t) (fp : FILE)
    (rest : list byte) :
  exttextoutw_wf r ->
  unread fp = wire_EMREXTTEXTOUTW r ++ rest ->
  EMREXTTEXTOUTW.parse pf fp =
    Ok (r, {| unread := rest; written := written fp; room := room fp |}) /\
  (offString (EMREXTTEXTOUTW.emrtext r) = 76 ->
   nSize (EMREXTTEXTOUTW.emr r) = 76 + nChars (EMREXTTEXTOUTW.emrtext r) ->
   nSize (EMREXTTEXTOUTW.emr r) + nChars (EMREXTTEXTOUTW.emrtext r)
     <= Z.of_nat (length (wire_EMREXTTEXTOUTW r))).
Proof.
  intros Hwf E. split; [apply decodes_exttextoutw; assumption|].
  intros Hoff Hsize. rewrite (length_wire_exttextoutw r Hwf).
  destruct Hwf as (_ & Hs & _ & _ & _ & _ & Htext & _ & Hfit & _).
  cbv zeta in Hfit.
  assert (Hn : is_DWORD (nChars (EMREXTTEXTOUTW.emrtext r))) by apply Htext.
  unfold is_DWORD in Hn, Hs.
  destruct (ROUND_TO_LONG_spec (nChars (EMREXTTEXTOUTW.emrtext r)))
    as (_ & HRb & _); [lia|lia|].
  rewrite Hsize. destruct (EMREXTTEXTOUTW.dx_i r); lia.
Qed.
End WideTextRecords.

Lemma exttextoutw_round_trip_witness :
  let r := EMREXTTEXTOUTW.EMREXTTEXTOUTW msvc_x64 84 76 (mkRECTL 0 0 9 9) 1 0 0
             (mkEMRTEXT (mkPOINT 1 2) 3 0 0 (mkRECTL 0 0 0 0) 0)
             [104; 8364; 33; 7] (Some [7; -1; 9]) in
  EMREXTTEXTOUTW.size r = 96 /\
  EMREXTTEXTOUTW.parse msvc_x64 (mkFILE (wire_EMREXTTEXTOUTW r ++ [Byte.xff]) [] 0) =
  Ok (r, mkFILE [Byte.xff] [] 0).
Proof.
  intros r.
  assert (Hd : forall d, Some [7; -1; 9] = Some d ->
            nChars (mkEMRTEXT (mkPOINT 1 2) 3 0 0 (mkRECTL 0 0 0 0) 0)
              <= Z.of_nat (length d) /\
            Forall is_LONG
              (take (Z.to_nat (nChars (mkEMRTEXT (mkPOINT 1 2) 3 0 0
                                         (mkRECTL 0 0 0 0) 0))) d)).
  { intros d Hd. injection Hd as <-. split; [simpl; lia|].
    repeat constructor; vm_compute; discriminate || reflexivity. }
  destruct (exttextoutw_round_trip msvc_x64 84 76 (mkRECTL 0 0 9 9) 1 0 0
              (mkEMRTEXT (mkPOINT 1 2) 3 0 0 (mkRECTL 0 0 0 0) 0)
              [104; 8364; 33; 7] (Some [7; -1; 9])
              ltac:(vm_compute; split; discriminate || reflexivity)
              ltac:(lia)
              ltac:(vm_compute; repeat split; discriminate || reflexivity)
              ltac:(vm_compute; split; discriminate || reflexivity)
              ltac:(vm_compute; split; discriminate || reflexivity)
              ltac:(vm_compute; split; discriminate || reflexivity)
              ltac:(vm_compute; repeat split; discriminate || reflexivity)
              ltac:(vm_compute; split; discriminate || reflexivity)
              ltac:(vm_compute; repeat split; discriminate || reflexivity)
              ltac:(simpl; lia)
              ltac:(repeat constructor; vm_compute; discriminate || reflexivity)
              Hd
              ltac:(vm_compute; reflexivity))
    as (Hsize & _ & _ & Hparse).
  split; [exact Hsize|].
  apply (Hparse (mkFILE (wire_EMREXTTEXTOUTW r ++ [Byte.xff]) [] 0) [Byte.xff]).
  reflexivity.
Defined.

Lemma exttextoutw_check_counts_characters_witness :
  let r := EMREXTTEXTOUTW.mk (mkEMR 84 78) (mkRECTL 0 0 0 0) 1 0 0
             (mkEMRTEXT (mkPOINT 0 0) 2 76 0 (mkRECTL 0 0 0 0) 0)
             (Some [104; 105; 0; 0]) (Some 4) None in
  EMREXTTEXTOUTW.parse msvc_x64 (mkFILE (wire_EMREXTTEXTOUTW r ++ []) [] 0) =
    Ok (r, mkFILE [] [] 0) /\
  78 + 2 <= Z.of_nat (length (wire_EMREXTTEXTOUTW r)).
Proof.
  intros r.
  assert (Hwf : exttextoutw_wf r).
  { unfold exttextoutw_wf, r. cbv zeta.
    cbn [EMREXTTEXTOUTW.emr EMREXTTEXTOUTW.rclBounds EMREXTTEXTOUTW.iGraphicsMode
         EMREXTTEXTOUTW.exScale EMREXTTEXTOUTW.eyScale EMREXTTEXTOUTW.emrtext
         EMREXTTEXTOUTW.string_a EMREXTTEXTOUTW.string_size EMREXTTEXTOUTW.dx_i].
    repeat match goal with |- _ /\ _ => split end;
      try (vm_compute; repeat split; (discriminate || reflexivity)).
    exists [104; 105; 0; 0]. split; [reflexivity|]. split; [reflexivity|].
    repeat constructor; vm_compute; discriminate || reflexivity. }
  destruct (exttextoutw_check_counts_characters msvc_x64 r
              (mkFILE (wire_EMREXTTEXTOUTW r ++ []) [] 0) [] Hwf eq_refl)
    as (Hparse & Hover).
  split; [exact Hparse|]. apply Hover; reflexivity.
Defined.


(** ** The size tests with a 32-bit [size_t] *)

Section NarrowSizeT.
Variable pf : platform.
Variable k : EMRPOLYPOLYGON.kind.
Hypothesis narrow : size_t pf = SIZE_T_32.




End NarrowSizeT.


